(** * PN_URL_Monitor: the monitoring agent, the alert function and the
      dashboard

    A shallow embedding of [src/monitoring-agent/monitor.py] (configuration
    validation, the check/retry engine, one monitoring cycle, the main
    loop), of [src/azure-function/__init__.py] (fetching the logs, failure
    analysis, alert cooldown, alert dispatch) and of
    [src/dashboard/app.py] (the grouping of the logs for the charts),
    followed by the properties proved about them.

    Python code that reads a clock, talks to the network or to blob storage
    is modelled as a state transformer over an explicit world; the world
    carries the trace of the calls made so far, and the answers of the
    outside are given by oracles indexed by the number of calls already
    made.  Python exceptions are values of type [exn]. *)

From Stdlib Require Import ZArith QArith String Ascii List Lia Bool.
From Stdlib Require Import OrderedTypeEx Sorted Permutation.
From stdpp Require Import base option gmap strings list pretty.

Local Open Scope Z_scope.
Local Open Scope string_scope.
Local Open Scope list_scope.

(** ** Python exceptions and the state-and-exception monad *)

Inductive exn_class :=
| RequestException   (* requests.exceptions.RequestException and subclasses *)
| ValueError
| TypeError
| KeyError
| AttributeError
| IndexError
| OverflowError
| OtherException.    (* any other subclass of Exception *)

Record exn := Exn { exn_kind : exn_class; exn_str : string }.

Inductive outcome (A : Type) :=
| Returns (a : A)
| Raises (e : exn).
Arguments Returns {A} a.
Arguments Raises {A} e.

Definition is_request_exception (e : exn) : bool :=
  match exn_kind e with RequestException => true | _ => false end.

Section Monad.
Context {W : Type}.

Definition M (A : Type) : Type := W → outcome A * W.

Definition ret {A} (a : A) : M A := λ w, (Returns a, w).

Definition bind {A B} (m : M A) (k : A → M B) : M B :=
  λ w, match m w with
       | (Returns a, w') => k a w'
       | (Raises e, w') => (Raises e, w')
       end.

Definition raise {A} (e : exn) : M A := λ w, (Raises e, w).

Definition get_world : M W := λ w, (Returns w, w).

Definition modify (f : W → W) : M unit := λ w, (Returns tt, f w).

(** A computation that touches no world. *)
Definition lift {A} (o : outcome A) : M A := λ w, (o, w).

(** [try: body / except <classes matched by handles> as e: handler e] *)
Definition try_except {A} (body : M A) (handles : exn → bool)
    (handler : exn → M A) : M A :=
  λ w, match body w with
       | (Returns a, w') => (Returns a, w')
       | (Raises e, w') => if handles e then handler e w' else (Raises e, w')
       end.
End Monad.
Arguments M : clear implicits.

Declare Scope py_scope.
Delimit Scope py_scope with py.
Notation "'let*' x ':=' m 'in' k" := (bind m (λ x, k))
  (at level 10, x name, m at level 100, k at level 200) : py_scope.
Notation "'do' m 'then' k" := (bind m (λ _, k))
  (at level 10, m at level 100, k at level 200) : py_scope.

(** [except Exception] catches every exception modelled here. *)
Definition any_exception (e : exn) : bool := true.

(** Code that raises but touches no world: the exception monad alone. *)
Definition and_then {A B} (m : outcome A) (k : A → outcome B) : outcome B :=
  match m with
  | Returns a => k a
  | Raises e => Raises e
  end.

Notation "'let?' x ':=' m 'in' k" := (and_then m (λ x, k))
  (at level 10, x name, m at level 100, k at level 200) : py_scope.

(** ** Strings *)

(** [s.replace(old, new)] for a non-empty [old]: the occurrences of [old] are
    replaced from left to right and do not overlap.  [skip] counts the
    characters of an occurrence already replaced that are still to be
    dropped. *)
Fixpoint replace_from (old new : string) (skip : nat) (s : string) : string :=
  match s with
  | EmptyString => EmptyString
  | String c rest =>
      match skip with
      | S k => replace_from old new k rest
      | O =>
          if String.prefix old s
          then new +:+ replace_from old new (String.length old - 1) rest
          else String c (replace_from old new O rest)
      end
  end.

Definition replace (old new s : string) : string := replace_from old new O s.

(** [needle in haystack] on two Python strings. *)
Fixpoint is_substring (needle haystack : string) : bool :=
  String.prefix needle haystack ||
  match haystack with
  | EmptyString => false
  | String _ rest => is_substring needle rest
  end.

(** * The alert function ([src/azure-function/__init__.py]) *)

Module AlertFunction.

(** The module-level settings read from the process environment. *)
Record Settings := {
  CONSECUTIVE_FAILURES_THRESHOLD : Z;
  DISCORD_WEBHOOK_URL : string;
  STORAGE_CONNECTION_STRING : string;
  ALERT_COOLDOWN_MINUTES : Z
}.

(** A record of the log store, as [fetch_recent_logs] returns it. *)
Record Log := {
  url : string;
  name : string;
  timestamp : string;
  status : string
}.

(** The dict appended to [alerts] by [analyze_logs]. *)
Record Alert := {
  alert_url : string;
  alert_name : string;
  consecutive_failures : Z;
  last_status : string;
  last_check : string
}.

(** The JSON body posted to the webhook: one embed with three fields. *)
Record Field := { field_name : string; field_value : string; inline : bool }.
Record Message := {
  title : string;
  description : string;
  color : Z;
  fields : list Field
}.

Inductive event :=
| BlobExists (blob : string)
| GetBlobProperties (blob : string)
| DeleteBlob (blob : string)
| UploadBlob (blob : string)
| Post (webhook : string) (message : Message)
| Sleep (seconds : Z).

(** What the webhook answers to a POST. *)
Inductive post_result :=
| Response (status_code : Z)
| PostRaises (e : exn).

(** The world of one invocation.  Instants are microseconds since the
    epoch.  [blobs] is the container 'alert-cooldown': blob name to its
    last-modified instant. *)
Record World := {
  blobs : gmap string Z;
  clock : Z;
  storage_calls : nat;
  posts : nat;
  trace : list event
}.

Definition log_event (e : event) (w : World) : World :=
  {| blobs := blobs w; clock := clock w; storage_calls := storage_calls w;
     posts := posts w; trace := trace w ++ [e] |}.

Definition set_blobs (b : gmap string Z) (w : World) : World :=
  {| blobs := b; clock := clock w; storage_calls := storage_calls w;
     posts := posts w; trace := trace w |}.

Definition count_storage_call (w : World) : World :=
  {| blobs := blobs w; clock := clock w; storage_calls := S (storage_calls w);
     posts := posts w; trace := trace w |}.

Definition count_post (w : World) : World :=
  {| blobs := blobs w; clock := clock w; storage_calls := storage_calls w;
     posts := S (posts w); trace := trace w |}.

(** Time passing between two calls (all calls but [time.sleep] are taken to
    be instantaneous). *)
Definition advance (micros : Z) (w : World) : World :=
  {| blobs := blobs w; clock := clock w + micros;
     storage_calls := storage_calls w; posts := posts w; trace := trace w |}.

(** Computations of the alert function. *)
Abbreviation Py := (M World).

Definition micros_per_minute : Z := 60000000.
Definition micros_per_second : Z := 1000000.
Definition micros_per_day : Z := 86400000000.

(** The instants a [datetime] can hold, in microseconds since the epoch:
    from 0001-01-01T00:00:00 to 9999-12-31T23:59:59.999999. *)
Definition datetime_min : Z := -62135596800000000.
Definition datetime_max : Z := 253402300799999999.

Definition datetime_in_range (instant : Z) : bool :=
  ((datetime_min <=? instant) && (instant <=? datetime_max))%Z.

(** A [timedelta] holds between -999999999 days and just under 1000000000
    days. *)
Definition timedelta_in_range (micros : Z) : bool :=
  ((-999999999 * micros_per_day <=? micros)
   && (micros <? 1000000000 * micros_per_day))%Z.

(** [datetime.timedelta(minutes=n)] for an int [n], in microseconds. *)
Definition timedelta_minutes (minutes : Z) : outcome Z :=
  let micros := minutes * micros_per_minute in
  if timedelta_in_range micros then Returns micros
  else Raises (Exn OverflowError "days; must have magnitude <= 999999999").

(** [instant + delta] on a [datetime] and a [timedelta]. *)
Definition datetime_add (instant delta : Z) : outcome Z :=
  if datetime_in_range (instant + delta) then Returns (instant + delta)
  else Raises (Exn OverflowError "date value out of range").

(** [url_logs]: a dict from url to the list of its records.  A Python dict
    iterates in the order its keys were first inserted, so it is kept as an
    association list in that order. *)
Fixpoint append_to_group (log : Log) (url_logs : list (string * list Log))
    : list (string * list Log) :=
  match url_logs with
  | [] => [(url log, [log])]
  | (u, url_log_list) :: rest =>
      if String.eqb u (url log)
      then (u, url_log_list ++ [log]) :: rest
      else (u, url_log_list) :: append_to_group log rest
  end.

Definition group_by_url (logs : list Log) : list (string * list Log) :=
  fold_left (λ url_logs log, append_to_group log url_logs) logs [].

(** [url_log_list.sort(key=lambda x: x['timestamp'])]: a stable sort that
    compares the keys with [<] on Python strings.  Insertion from the right:
    the record inserted precedes, in the input, every record already placed,
    so it goes before the first record whose key is not smaller. *)
Fixpoint insert_by_timestamp (x : Log) (sorted : list Log) : list Log :=
  match sorted with
  | [] => [x]
  | y :: ys =>
      if String.ltb (timestamp y) (timestamp x)
      then y :: insert_by_timestamp x ys
      else x :: y :: ys
  end.

Definition sort_by_timestamp (url_log_list : list Log) : list Log :=
  foldr insert_by_timestamp [] url_log_list.

(** The counting loop over [reversed(url_log_list)], given the reversed
    list: it stops at the first record whose status is not 'DOWN'. *)
Fixpoint count_until_not_down (reversed : list Log) : Z :=
  match reversed with
  | [] => 0
  | log :: rest =>
      if String.eqb (status log) "DOWN"
      then 1 + count_until_not_down rest
      else 0
  end.

Definition count_consecutive_failures (url_log_list : list Log) : Z :=
  count_until_not_down (rev url_log_list).

Definition format_alert (alert : Alert) : Message :=
  {| title := "🚨 URL Monitoring Alert";
     description := "URL has been down for "
                    +:+ pretty (consecutive_failures alert)
                    +:+ " consecutive checks";
     color := 16711680;
     fields :=
       [ {| field_name := "URL Name"; field_value := alert_name alert;
            inline := true |};
         {| field_name := "URL"; field_value := alert_url alert;
            inline := true |};
         {| field_name := "Last Check"; field_value := last_check alert;
            inline := true |} ] |}.

Section Environment.
Variable env : Settings.
(** [storage_fault n]: the storage call number [n] of the invocation raises. *)
Variable storage_fault : nat → option exn.
(** [webhook_answer n]: what POST number [n] of the invocation meets. *)
Variable webhook_answer : nat → post_result.

(** [blob_service_client] is None unless the connection string is set. *)
Definition blob_service_client : bool :=
  negb (String.eqb (STORAGE_CONNECTION_STRING env) "").

(** Every call to the storage service is traced, then may raise. *)
Definition storage_call (e : event) : Py unit :=
  λ w, let w' := count_storage_call (log_event e w) in
       match storage_fault (storage_calls w) with
       | Some err => (Raises err, w')
       | None => (Returns tt, w')
       end.

Definition blob_not_found : exn := Exn OtherException "ResourceNotFoundError".

Definition exists_ (blob : string) : Py bool :=
  (do storage_call (BlobExists blob) then
   let* w := get_world in
   ret (bool_decide (is_Some (blobs w !! blob))))%py.

(** [get_blob_properties().last_modified] *)
Definition get_blob_properties (blob : string) : Py Z :=
  (do storage_call (GetBlobProperties blob) then
   let* w := get_world in
   match blobs w !! blob with
   | Some last_modified => ret last_modified
   | None => raise blob_not_found
   end)%py.

Definition delete_blob (blob : string) : Py unit :=
  (do storage_call (DeleteBlob blob) then
   let* w := get_world in
   match blobs w !! blob with
   | Some _ => modify (λ w, set_blobs (delete blob (blobs w)) w)
   | None => raise blob_not_found
   end)%py.

(** [upload_blob("cooldown", overwrite=True)]: the service stamps the blob
    with the instant of the write. *)
Definition upload_blob (blob : string) : Py unit :=
  (do storage_call (UploadBlob blob) then
   modify (λ w, set_blobs (<[blob := clock w]> (blobs w)) w))%py.

Definition blob_name (url : string) : string :=
  "cooldown_" +:+ replace "/" "_" (replace "://" "_" url).

(** [last_modified + datetime.timedelta(minutes=ALERT_COOLDOWN_MINUTES)] *)
Definition cooldown_end_of (last_modified : Z) : outcome Z :=
  (let? window := timedelta_minutes (ALERT_COOLDOWN_MINUTES env) in
   datetime_add last_modified window)%py.

Definition is_in_cooldown (url : string) : Py bool :=
  if negb blob_service_client then ret false
  else
    try_except
      (let blob := blob_name url in
       let* present := exists_ blob in
       if (present : bool) then
         let* last_modified := get_blob_properties blob in
         let* cooldown_end := lift (cooldown_end_of last_modified) in
         let* now := get_world in
         if (clock now <? cooldown_end)%Z then ret true
         else (do delete_blob blob then ret false)
       else ret false)%py
      any_exception
      (λ _, ret false).

Definition set_cooldown (url : string) : Py unit :=
  if negb blob_service_client then ret tt
  else
    try_except
      (upload_blob (blob_name url))
      any_exception
      (λ _, ret tt).

(** The body of the loop of [analyze_logs] over [url_logs.items()]. *)
Definition analyze_url (u : string) (url_log_list : list Log)
    (alerts : list Alert) : Py (list Alert) :=
  let sorted := sort_by_timestamp url_log_list in
  let failures := count_consecutive_failures sorted in
  if (CONSECUTIVE_FAILURES_THRESHOLD env <=? failures)%Z then
    (let* cooling := is_in_cooldown u in
     if (cooling : bool) then ret alerts
     else
       match head sorted, last sorted with
       | Some first, Some latest =>
           let alert :=
             {| alert_url := u;
                alert_name := name first;
                consecutive_failures := failures;
                last_status := status latest;
                last_check := timestamp latest |} in
           do set_cooldown u then
           ret (alerts ++ [alert])
       | _, _ => raise (Exn IndexError "list index out of range")
       end)%py
  else ret alerts.

Fixpoint analyze_each (url_logs : list (string * list Log))
    (alerts : list Alert) : Py (list Alert) :=
  match url_logs with
  | [] => ret alerts
  | (u, url_log_list) :: rest =>
      (let* alerts' := analyze_url u url_log_list alerts in
       analyze_each rest alerts')%py
  end.

Definition analyze_logs (logs : list Log) : Py (list Alert) :=
  analyze_each (group_by_url logs) [].

Definition requests_post (message : Message) : Py Z :=
  λ w, let w' :=
         count_post (log_event (Post (DISCORD_WEBHOOK_URL env) message) w) in
       match webhook_answer (posts w) with
       | Response status_code => (Returns status_code, w')
       | PostRaises e => (Raises e, w')
       end.

(** [response.raise_for_status()]: HTTPError, a RequestException, on a
    4xx or 5xx status. *)
Definition raise_for_status (status_code : Z) : Py unit :=
  if ((400 <=? status_code) && (status_code <? 600))%Z
  then raise (Exn RequestException ("HTTPError " +:+ pretty status_code))
  else ret tt.

Definition sleep (seconds : Z) : Py unit :=
  modify (λ w, advance (seconds * micros_per_second)
                 (log_event (Sleep seconds) w)).

(** The body of the loop of [send_alerts]. *)
Definition send_one (alert : Alert) : Py unit :=
  try_except
    (let* status_code := requests_post (format_alert alert) in
     do raise_for_status status_code then
     sleep 1)%py
    is_request_exception
    (λ _, ret tt).

Fixpoint send_each (alerts : list Alert) : Py unit :=
  match alerts with
  | [] => ret tt
  | alert :: rest => (do send_one alert then send_each rest)%py
  end.

Definition send_alerts (alerts : list Alert) : Py unit :=
  if String.eqb (DISCORD_WEBHOOK_URL env) "" then ret tt
  else send_each alerts.

(** [main], given what [fetch_recent_logs] returned. *)
Definition main (logs : list Log) : Py unit :=
  try_except
    (match logs with
     | [] => ret tt
     | _ :: _ =>
         let* alerts := analyze_logs logs in
         match alerts with
         | [] => ret tt
         | _ :: _ => send_alerts alerts
         end
     end)%py
    any_exception
    (λ _, ret tt).
End Environment.

(** ** Vocabulary of the statements about the alert function *)

(** The cooldown window, in microseconds. *)
Definition cooldown_window (env : Settings) : Z :=
  ALERT_COOLDOWN_MINUTES env * micros_per_minute.

(** The end of the window of a record written at [written] is an instant
    a [datetime] can hold. *)
Definition window_representable (env : Settings) (written : Z) : Prop :=
  cooldown_end_of env written = Returns (written + cooldown_window env).

(** No storage call raises. *)
Definition storage_healthy (storage_fault : nat → option exn) : Prop :=
  ∀ n, storage_fault n = None.

Definition posts_of (events : list event) : list Message :=
  flat_map (λ e, match e with Post _ message => [message] | _ => [] end) events.

Definition is_storage_event (e : event) : bool :=
  match e with
  | BlobExists _ | GetBlobProperties _ | DeleteBlob _ | UploadBlob _ => true
  | Post _ _ | Sleep _ => false
  end.

Definition is_dispatch_event (e : event) : bool :=
  match e with
  | Post _ _ | Sleep _ => true
  | BlobExists _ | GetBlobProperties _ | DeleteBlob _ | UploadBlob _ => false
  end.

(** The url a notification is about: the value of its field 'URL'. *)
Definition message_url (message : Message) : string :=
  match fields message with
  | [_; field; _] => field_value field
  | _ => ""
  end.

(** In a trace: every write of a cooldown record comes after a notification
    was posted for a url with that record.  [sent] are the urls posted
    about so far. *)
Fixpoint send_precedes_cooldown (sent : list string) (events : list event)
    : bool :=
  match events with
  | [] => true
  | Post _ message :: rest =>
      send_precedes_cooldown (message_url message :: sent) rest
  | UploadBlob blob :: rest =>
      existsb (λ u, String.eqb (blob_name u) blob) sent
      && send_precedes_cooldown sent rest
  | _ :: rest => send_precedes_cooldown sent rest
  end.

(** The records of [u] among [logs], in the order of [logs]. *)
Definition logs_of (u : string) (logs : list Log) : list Log :=
  filter (λ log, url log = u) logs.

(** [url_logs.get(u)] *)
Fixpoint group_of (u : string) (url_logs : list (string * list Log))
    : option (list Log) :=
  match url_logs with
  | [] => None
  | (k, url_log_list) :: rest =>
      if String.eqb k u then Some url_log_list else group_of u rest
  end.

(** The alerts about [u] among [alerts]. *)
Definition alerts_about (u : string) (alerts : list Alert) : list Alert :=
  filter (λ alert, alert_url alert = u) alerts.

(** What [is_in_cooldown] answers in the world [w]. *)
Definition in_cooldown (env : Settings) (storage_fault : nat → option exn)
    (u : string) (w : World) : bool :=
  match fst (is_in_cooldown env storage_fault u w) with
  | Returns answer => answer
  | Raises _ => false
  end.

(** The candidate built from the records of [u]: none when there is no
    record. *)
Definition candidate (u : string) (url_log_list : list Log) : list Alert :=
  let sorted := sort_by_timestamp url_log_list in
  match head sorted, last sorted with
  | Some first, Some latest =>
      [ {| alert_url := u;
           alert_name := name first;
           consecutive_failures := count_consecutive_failures sorted;
           last_status := status latest;
           last_check := timestamp latest |} ]
  | _, _ => []
  end.

(** What the loop of [analyze_logs] appends for the url [u], reached in
    the world [w]. *)
Definition emitted (env : Settings) (storage_fault : nat → option exn)
    (u : string) (url_log_list : list Log) (w : World) : list Alert :=
  let failures :=
    count_consecutive_failures (sort_by_timestamp url_log_list) in
  if (CONSECUTIVE_FAILURES_THRESHOLD env <=? failures)%Z
     && negb (in_cooldown env storage_fault u w)
  then candidate u url_log_list
  else [].

(** The world in which the loop of [analyze_logs] reaches the url [u]: the
    one left by the urls first seen before it. *)
Fixpoint world_reaching (env : Settings) (storage_fault : nat → option exn)
    (u : string) (url_logs : list (string * list Log)) (alerts : list Alert)
    (w : World) : World :=
  match url_logs with
  | [] => w
  | (k, url_log_list) :: rest =>
      if String.eqb k u then w
      else
        match analyze_url env storage_fault k url_log_list alerts w with
        | (Returns alerts', w') =>
            world_reaching env storage_fault u rest alerts' w'
        | (Raises _, w') => w'
        end
  end.

(** [a <= b] on timestamps, as the sort sees it: not [b < a]. *)
Definition not_after (a b : Log) : Prop :=
  String.ltb (timestamp b) (timestamp a) = false.

(** ** Sample data *)

Definition sample_settings : Settings :=
  {| CONSECUTIVE_FAILURES_THRESHOLD := 3;
     DISCORD_WEBHOOK_URL := "https://discord.example/api/webhooks/1";
     STORAGE_CONNECTION_STRING := "UseDevelopmentStorage=true";
     ALERT_COOLDOWN_MINUTES := 30 |}.

(** The same settings without a notification sink. *)
Definition no_sink_settings : Settings :=
  {| CONSECUTIVE_FAILURES_THRESHOLD := 3;
     DISCORD_WEBHOOK_URL := "";
     STORAGE_CONNECTION_STRING := "UseDevelopmentStorage=true";
     ALERT_COOLDOWN_MINUTES := 30 |}.

Definition empty_world : World :=
  {| blobs := ∅; clock := 1700000000000000; storage_calls := 0; posts := 0;
     trace := [] |}.

Definition no_fault (n : nat) : option exn := None.
Definition accepted (n : nat) : post_result := Response 204.
Definition server_error (n : nat) : post_result := Response 500.

(** The first POST fails with a connection error, the later ones go
    through. *)
Definition first_post_fails (n : nat) : post_result :=
  match n with
  | O => PostRaises (Exn RequestException "connection reset")
  | S _ => Response 204
  end.

Definition record (u n t s : string) : Log :=
  {| url := u; name := n; timestamp := t; status := s |}.

(** Two endpoints down whose urls differ but give the same record name,
    'cooldown_https_a.example_b'. *)
Definition shared_record_logs : list Log :=
  [ record "https://a.example/b" "first" "2024-05-01T10:00:00" "DOWN";
    record "https://a.example_b" "second" "2024-05-01T10:00:00" "DOWN";
    record "https://a.example/b" "first" "2024-05-01T10:05:00" "DOWN";
    record "https://a.example_b" "second" "2024-05-01T10:05:00" "DOWN";
    record "https://a.example/b" "first" "2024-05-01T10:10:00" "DOWN";
    record "https://a.example_b" "second" "2024-05-01T10:10:00" "DOWN" ].

Definition sample_alerts : list Alert :=
  [ {| alert_url := "https://a.example/"; alert_name := "a";
       consecutive_failures := 3; last_status := "DOWN";
       last_check := "2024-05-01T10:10:00" |};
    {| alert_url := "https://b.example/"; alert_name := "b";
       consecutive_failures := 5; last_status := "DOWN";
       last_check := "2024-05-01T10:10:00" |} ].

(** Thirty minutes, the cooldown window of the sample settings. *)
Definition thirty_minutes : Z := 30 * micros_per_minute.

(** [UP, DOWN, DOWN, DOWN], most recent last. *)
Definition three_failures : list Log :=
  [ record "https://example.com/" "example" "2024-05-01T10:00:00" "UP";
    record "https://example.com/" "example" "2024-05-01T10:05:00" "DOWN";
    record "https://example.com/" "example" "2024-05-01T10:10:00" "DOWN";
    record "https://example.com/" "example" "2024-05-01T10:15:00" "DOWN" ].

(** [DOWN, DOWN, UP], most recent last. *)
Definition recovered : list Log :=
  [ record "https://example.com/" "example" "2024-05-01T10:00:00" "DOWN";
    record "https://example.com/" "example" "2024-05-01T10:05:00" "DOWN";
    record "https://example.com/" "example" "2024-05-01T10:10:00" "UP" ].

(** Two endpoints down, their records interleaved and out of order, the
    first one renamed along the way. *)
Definition two_endpoints_down : list Log :=
  [ record "https://a.example/" "a (new name)" "2024-05-01T10:10:00" "DOWN";
    record "https://b.example/" "b" "2024-05-01T10:00:00" "DOWN";
    record "https://a.example/" "a (old name)" "2024-05-01T10:00:00" "DOWN";
    record "https://b.example/" "b" "2024-05-01T10:05:00" "DOWN";
    record "https://a.example/" "a" "2024-05-01T10:05:00" "DOWN";
    record "https://b.example/" "b" "2024-05-01T10:10:00" "DOWN" ].

(** ** The rest of the alert function: fetching the logs *)

(** What the GET of [fetch_recent_logs] meets: a response, with its status
    code and what [response.json()] gives or raises, or an exception. *)
Inductive backend_answer :=
| BackendResponse (status_code : Z) (body : outcome (list Log))
| BackendRaises (e : exn).

(** The status codes on which [raise_for_status] raises. *)
Definition is_error_status (status_code : Z) : bool :=
  ((400 <=? status_code) && (status_code <? 600))%Z.

(** An exception raised within the [try] of [fetch_recent_logs]: a
    RequestException is logged and gives no logs, any other one goes on. *)
Definition fetch_failed (e : exn) : outcome (list Log) :=
  if is_request_exception e then Returns [] else Raises e.

Definition fetch_recent_logs (answer : backend_answer)
    : outcome (list Log) :=
  match answer with
  | BackendRaises e => fetch_failed e
  | BackendResponse status_code body =>
      if is_error_status status_code
      then fetch_failed (Exn RequestException
                           ("HTTPError " +:+ pretty status_code))
      else match body with
           | Returns logs => Returns logs
           | Raises e => fetch_failed e
           end
  end.

Section Invocation.
Variable env : Settings.
Variable storage_fault : nat → option exn.
Variable webhook_answer : nat → post_result.

(** [main] from its first statement: an exception of [fetch_recent_logs]
    is caught by the [except Exception] of [main], like any other. *)
Definition timer_main (answer : backend_answer) : Py unit :=
  match fetch_recent_logs answer with
  | Returns logs => main env storage_fault webhook_answer logs
  | Raises _ => ret tt
  end.

(** The url has a record that is still within the cooldown window. *)
Definition live_record (blob : string) (w : World) : Prop :=
  ∃ written,
    blobs w !! blob = Some written ∧ clock w < written + cooldown_window env.

(** The url has a record written at [since] or later that is still within
    the cooldown window, the end of which a [datetime] can hold. *)
Definition record_since (since : Z) (blob : string) (w : World) : Prop :=
  ∃ written,
    blobs w !! blob = Some written
    ∧ since <= written
    ∧ window_representable env written
    ∧ clock w < written + cooldown_window env.

(** The POST number [n] goes through: it is answered, and not with an
    error status. *)
Definition delivered (n : nat) : bool :=
  match webhook_answer n with
  | Response status_code => negb (is_error_status status_code)
  | PostRaises _ => false
  end.

(** How many of the POSTs [first], ..., [first + count - 1] go through. *)
Definition deliveries (first count : nat) : nat :=
  length (filter (λ n, delivered n = true) (seq first count)).
End Invocation.

Definition sleeps_of (events : list event) : list Z :=
  flat_map (λ e, match e with Sleep seconds => [seconds] | _ => [] end) events.

(** Every storage call raises. *)
Definition storage_down (storage_fault : nat → option exn) : Prop :=
  ∀ n, is_Some (storage_fault n).

Definition always_fault (n : nat) : option exn :=
  Some (Exn OtherException "ServiceUnavailable").

(** The second POST fails inside the HTTP client with an exception that is
    no RequestException. *)
Definition second_post_breaks (n : nat) : post_result :=
  match n with
  | 1%nat => PostRaises (Exn OtherException "boom")
  | _ => Response 204
  end.


(** The sample settings with a window of about 9500 years. *)
Definition distant_window_settings : Settings :=
  {| CONSECUTIVE_FAILURES_THRESHOLD := 3;
     DISCORD_WEBHOOK_URL := "https://discord.example/api/webhooks/1";
     STORAGE_CONNECTION_STRING := "UseDevelopmentStorage=true";
     ALERT_COOLDOWN_MINUTES := 5000000000 |}.

(** A minute after an alert about 'https://example.com/' was recorded. *)
Definition recently_alerted : World :=
  {| blobs := {[ blob_name "https://example.com/" := 1700000000000000 ]};
     clock := 1700000000000000 + micros_per_minute;
     storage_calls := 0; posts := 0; trace := [] |}.

Definition three_alerts : list Alert :=
  sample_alerts
  ++ [ {| alert_url := "https://c.example/"; alert_name := "c";
          consecutive_failures := 4; last_status := "DOWN";
          last_check := "2024-05-01T10:10:00" |} ].

End AlertFunction.

(** * The monitoring agent ([src/monitoring-agent/monitor.py]) *)

Module Monitor.

(** ** The configuration document, as [json.load] returns it *)

(** A float is kept as the rational it denotes.  The members of an object
    are looked up first match first. *)
#[warnings="-register-all"]
Inductive json :=
| JNull
| JBool (b : bool)
| JInt (n : Z)
| JFloat (x : Q)
| JString (s : string)
| JList (items : list json)
| JObject (members : list (string * json)).

Fixpoint lookup_key (key : string) (members : list (string * json))
    : option json :=
  match members with
  | [] => None
  | (k, v) :: rest => if String.eqb k key then Some v else lookup_key key rest
  end.

(** [d.get(key, default)]; only a dict has a [get] method. *)
Definition dict_get (d : json) (key : string) (fallback : json) : outcome json :=
  match d with
  | JObject members => Returns (default fallback (lookup_key key members))
  | _ => Raises (Exn AttributeError "object has no attribute 'get'")
  end.

(** [d[key]] for a string key. *)
Definition getitem (d : json) (key : string) : outcome json :=
  match d with
  | JObject members =>
      match lookup_key key members with
      | Some v => Returns v
      | None => Raises (Exn KeyError key)
      end
  | JString _ => Raises (Exn TypeError "string indices must be integers")
  | JList _ => Raises (Exn TypeError "list indices must be integers or slices")
  | _ => Raises (Exn TypeError "object is not subscriptable")
  end.

(** [key in container] for a string key: a key of a dict, a substring of a
    str, an element of a list; a TypeError otherwise. *)
Definition contains (key : string) (container : json) : outcome bool :=
  match container with
  | JObject members => Returns (bool_decide (is_Some (lookup_key key members)))
  | JString s => Returns (is_substring key s)
  | JList items =>
      Returns (existsb (λ item, match item with
                                | JString s => String.eqb s key
                                | _ => false
                                end) items)
  | _ => Raises (Exn TypeError "argument is not iterable")
  end.

(** [isinstance(v, int)]: bool is a subclass of int. *)
Definition isinstance_int (v : json) : bool :=
  match v with JInt _ | JBool _ => true | _ => false end.

(** [isinstance(v, (int, float))] *)
Definition isinstance_int_float (v : json) : bool :=
  match v with JInt _ | JBool _ | JFloat _ => true | _ => false end.

Definition isinstance_list (v : json) : bool :=
  match v with JList _ => true | _ => false end.

(** The value of an int in a comparison ([True] is 1, [False] is 0). *)
Definition int_value (v : json) : outcome Z :=
  match v with
  | JInt n => Returns n
  | JBool b => Returns (if b then 1 else 0)
  | _ => Raises (Exn TypeError "'>' not supported between these instances")
  end.

(** [len(v)] *)
Definition len (v : json) : outcome Z :=
  match v with
  | JList items => Returns (Z.of_nat (length items))
  | JObject members => Returns (Z.of_nat (length members))
  | JString s => Returns (Z.of_nat (String.length s))
  | _ => Raises (Exn TypeError "object has no len()")
  end.

(** ** ConfigValidator *)

(** What [validate_url] reads of [urllib.parse.urlparse(url)]. *)
Record ParseResult := { scheme : string; netloc : string }.

Definition truthy (s : string) : bool := negb (String.eqb s "").

Section ConfigValidator.
(** [urllib.parse.urlparse] on a str; [None] when it raises ValueError. *)
Variable urlparse : string → option ParseResult.

(** A url that is not a str never validates: [urlparse] decodes a falsy
    value to the empty url, whose scheme is empty, and raises
    AttributeError on any other value, which [validate_url] catches. *)
Definition validate_url (u : json) : bool :=
  match u with
  | JString s =>
      match urlparse s with
      | Some result =>
          (truthy (scheme result) && truthy (netloc result))
          && existsb (String.eqb (scheme result)) ["https"]
      | None => false
      end
  | _ => false
  end.

(** [all(k in url_config for k in keys)] *)
Fixpoint all_in (keys : list string) (url_config : json) : outcome bool :=
  match keys with
  | [] => Returns true
  | k :: rest =>
      (let? present := contains k url_config in
       if (present : bool) then all_in rest url_config else Returns false)%py
  end.

(** The loop [for url_config in urls] and the [return True] after it. *)
Fixpoint validate_urls (urls : list json) : outcome bool :=
  match urls with
  | [] => Returns true
  | url_config :: rest =>
      (let? complete := all_in ["name"; "url"; "expected_status"] url_config in
       if negb complete then Returns false
       else
         let? u := getitem url_config "url" in
         if negb (validate_url u) then Returns false
         else validate_urls rest)%py
  end.

(** [a or b or ...] over conditions that may raise: the first true one
    decides and the later ones are not evaluated. *)
Fixpoint any_of (conditions : list (outcome bool)) : outcome bool :=
  match conditions with
  | [] => Returns false
  | c :: rest =>
      (let? b := c in if (b : bool) then Returns true else any_of rest)%py
  end.

Definition is_not (test : json → bool) (v : outcome json) : outcome bool :=
  (let? x := v in Returns (negb (test x)))%py.

(** The checks of [validate_config] on the two sections of the document,
    from [# Validate monitoring settings] to [return True]. *)
Definition validate_sections (monitoring security : json) : outcome bool :=
  (let? bad_monitoring :=
     any_of
       [ is_not isinstance_int_float
           (dict_get monitoring "interval_minutes" JNull);
         is_not isinstance_int_float
           (dict_get monitoring "timeout_seconds" JNull);
         is_not isinstance_int
           (dict_get monitoring "max_retries" JNull);
         is_not isinstance_int_float
           (dict_get monitoring "retry_delay_seconds" JNull) ] in
   if (bad_monitoring : bool) then Returns false
   else
     let? bad_security :=
       any_of
         [ is_not isinstance_int (dict_get security "max_urls" JNull);
           is_not isinstance_list (dict_get security "allowed_schemes" JNull);
           is_not isinstance_int_float
             (dict_get security "max_timeout_seconds" JNull);
           is_not isinstance_int_float
             (dict_get security "max_interval_minutes" JNull) ] in
     if (bad_security : bool) then Returns false
     else
       let? urls := dict_get monitoring "urls" (JList []) in
       let? bad_urls :=
         any_of
           [ Returns (negb (isinstance_list urls));
             (let? n := len urls in
              let? max_urls := getitem security "max_urls" in
              let? limit := int_value max_urls in
              Returns (limit <? n)%Z) ] in
       if (bad_urls : bool) then Returns false
       else
         match urls with
         | JList items => validate_urls items
         | _ => Raises (Exn TypeError "object is not iterable")
         end)%py.

(** The body of the [try] of [validate_config]. *)
Definition validate_config_body (config : json) : outcome bool :=
  (let? monitoring := dict_get config "monitoring" (JObject []) in
   let? security := dict_get config "security" (JObject []) in
   validate_sections monitoring security)%py.

(** [except Exception: return False] around a body that returns a bool. *)
Definition verdict_of (body : outcome bool) : bool :=
  match body with
  | Returns verdict => verdict
  | Raises _ => false
  end.

Definition validate_config (config : json) : bool :=
  verdict_of (validate_config_body config).

(** *** Vocabulary of the statements about [validate_config] *)

(** The member [key] of an object; nothing for any other value. *)
Definition member (key : string) (d : json) : option json :=
  match d with
  | JObject members => lookup_key key members
  | _ => None
  end.

(** [d] is an object with a member [key] that passes [test]. *)
Definition has (key : string) (test : json → bool) (d : json) : bool :=
  match member key d with
  | Some v => test v
  | None => false
  end.

Definition anything (v : json) : bool := true.

(** The entries of [monitoring.urls] of a document. *)
Definition targets (config : json) : option (list json) :=
  match member "monitoring" config ≫= member "urls" with
  | Some (JList items) => Some items
  | _ => None
  end.

(** The scheme [urlparse] finds in the url of a target. *)
Definition url_scheme (u : json) : option string :=
  match u with
  | JString s => scheme <$> urlparse s
  | _ => None
  end.

(** What the validator accepts, in closed form. *)
Definition accepts_target (url_config : json) : bool :=
  has "name" anything url_config
  && has "url" validate_url url_config
  && has "expected_status" anything url_config.

(** [monitoring.get('urls', [])] when it is a list. *)
Definition urls_of (monitoring : json) : option (list json) :=
  match member "urls" monitoring with
  | None => Some []
  | Some (JList items) => Some items
  | Some _ => None
  end.

Definition as_int (v : json) : option Z :=
  match v with
  | JInt n => Some n
  | JBool b => Some (if b then 1 else 0)
  | _ => None
  end.

Definition accepts_urls (monitoring security : json) : bool :=
  match urls_of monitoring, member "max_urls" security ≫= as_int with
  | Some items, Some limit =>
      (Z.of_nat (length items) <=? limit)%Z && forallb accepts_target items
  | _, _ => false
  end.

Definition accepts_sections (monitoring security : json) : bool :=
  has "interval_minutes" isinstance_int_float monitoring
  && has "timeout_seconds" isinstance_int_float monitoring
  && has "max_retries" isinstance_int monitoring
  && has "retry_delay_seconds" isinstance_int_float monitoring
  && has "max_urls" isinstance_int security
  && has "allowed_schemes" isinstance_list security
  && has "max_timeout_seconds" isinstance_int_float security
  && has "max_interval_minutes" isinstance_int_float security
  && accepts_urls monitoring security.

Definition accepts_config (config : json) : bool :=
  match member "monitoring" config, member "security" config with
  | Some monitoring, Some security => accepts_sections monitoring security
  | _, _ => false
  end.

(** *** The constraints of the specification, in its words

    Section 4.1: the three durations numeric, [max_retries] a non-negative
    integer, [max_urls] an integer, [allowed_schemes] a non-empty set, the
    two security bounds present and numeric, no more targets than
    [max_urls], and every target with a name, an expected status and a url
    that parses as an absolute url whose scheme is exactly https. *)

Definition spec_numeric (v : json) : bool :=
  match v with JInt _ | JFloat _ => true | _ => false end.

Definition spec_integer (v : json) : bool :=
  match v with JInt _ => true | _ => false end.

Definition spec_non_negative_integer (v : json) : bool :=
  match v with JInt n => (0 <=? n)%Z | _ => false end.

Definition spec_non_empty_set (v : json) : bool :=
  match v with JList (_ :: _) => true | _ => false end.

Definition spec_absolute_https_url (v : json) : bool :=
  match v with
  | JString s =>
      match urlparse s with
      | Some result =>
          String.eqb (scheme result) "https"
          && negb (String.eqb (netloc result) "")
      | None => false
      end
  | _ => false
  end.

Definition spec_valid_target (url_config : json) : bool :=
  has "name" anything url_config
  && has "url" spec_absolute_https_url url_config
  && has "expected_status" anything url_config.

Definition spec_within_max_urls (security : json) (items : list json) : bool :=
  match member "max_urls" security with
  | Some (JInt limit) => (Z.of_nat (length items) <=? limit)%Z
  | _ => false
  end.

Definition spec_valid_config (config : json) : bool :=
  match member "monitoring" config, member "security" config with
  | Some monitoring, Some security =>
      has "interval_minutes" spec_numeric monitoring
      && has "timeout_seconds" spec_numeric monitoring
      && has "retry_delay_seconds" spec_numeric monitoring
      && has "max_retries" spec_non_negative_integer monitoring
      && has "max_urls" spec_integer security
      && has "allowed_schemes" spec_non_empty_set security
      && has "max_timeout_seconds" spec_numeric security
      && has "max_interval_minutes" spec_numeric security
      && match member "urls" monitoring with
         | Some (JList items) =>
             spec_within_max_urls security items
             && forallb spec_valid_target items
         | _ => false
         end
  | _, _ => false
  end.
End ConfigValidator.

(** A model of the scheme and netloc split of [urllib.parse.urlsplit], to
    run the validator on concrete documents.  The stripping of leading
    control characters and the checks on the characters of the netloc
    are left out. *)
Definition in_range (lo hi : nat) (c : ascii) : bool :=
  (lo <=? nat_of_ascii c)%nat && (nat_of_ascii c <=? hi)%nat.

Definition is_alpha (c : ascii) : bool := in_range 65 90 c || in_range 97 122 c.

Definition is_scheme_char (c : ascii) : bool :=
  is_alpha c || in_range 48 57 c
  || Ascii.eqb c "+" || Ascii.eqb c "-" || Ascii.eqb c ".".

Definition lower (c : ascii) : ascii :=
  if in_range 65 90 c then ascii_of_nat (nat_of_ascii c + 32) else c.

Fixpoint string_forall (p : ascii → bool) (s : string) : bool :=
  match s with
  | EmptyString => true
  | String c rest => p c && string_forall p rest
  end.

Fixpoint string_map (f : ascii → ascii) (s : string) : string :=
  match s with
  | EmptyString => EmptyString
  | String c rest => String (f c) (string_map f rest)
  end.

(** [s] cut at its first character satisfying [p], that character left out;
    [None] when there is none. *)
Fixpoint cut_at (p : ascii → bool) (s : string) : option (string * string) :=
  match s with
  | EmptyString => None
  | String c rest =>
      if p c then Some (EmptyString, rest)
      else match cut_at p rest with
           | Some (before, after) => Some (String c before, after)
           | None => None
           end
  end.

Definition split_scheme (u : string) : string * string :=
  match cut_at (Ascii.eqb ":") u with
  | Some (String c before, after) =>
      if is_alpha c && string_forall is_scheme_char before
      then (string_map lower (String c before), after)
      else (EmptyString, u)
  | _ => (EmptyString, u)
  end.

Definition ends_netloc (c : ascii) : bool :=
  Ascii.eqb c "/" || Ascii.eqb c "?" || Ascii.eqb c "#".

Definition take_netloc (s : string) : string :=
  match cut_at ends_netloc s with
  | Some (before, _) => before
  | None => s
  end.

Definition urlparse_model (u : string) : option ParseResult :=
  let '(the_scheme, rest) := split_scheme u in
  match rest with
  | String "/" (String "/" after) =>
      let the_netloc := take_netloc after in
      let opened := is_substring "[" the_netloc in
      let closed := is_substring "]" the_netloc in
      if xorb opened closed then None   (* ValueError: Invalid IPv6 URL *)
      else Some {| scheme := the_scheme; netloc := the_netloc |}
  | _ => Some {| scheme := the_scheme; netloc := EmptyString |}
  end.

(** [d[key] = v] on the members of an object. *)
Fixpoint set_key (key : string) (v : json) (members : list (string * json))
    : list (string * json) :=
  match members with
  | [] => [(key, v)]
  | (k, old) :: rest =>
      if String.eqb k key then (k, v) :: rest
      else (k, old) :: set_key key v rest
  end.

(** The document [config] with [monitoring.max_retries] set to [v]. *)
Definition with_max_retries (v : json) (config : json) : json :=
  match config with
  | JObject members =>
      match lookup_key "monitoring" members with
      | Some (JObject monitoring) =>
          JObject (set_key "monitoring"
                     (JObject (set_key "max_retries" v monitoring)) members)
      | _ => config
      end
  | _ => config
  end.

(** [monitoring.max_retries] of a document. *)
Definition max_retries_of (config : json) : option json :=
  match config with
  | JObject members =>
      match lookup_key "monitoring" members with
      | Some (JObject monitoring) => lookup_key "max_retries" monitoring
      | _ => None
      end
  | _ => None
  end.

(** Sample documents. *)
Definition sample_entry (the_name the_url : string) : json :=
  JObject [("name", JString the_name); ("url", JString the_url);
           ("expected_status", JInt 200)].

Definition sample_document (urls : list json) (max_urls : Z) : json :=
  JObject
    [("monitoring",
      JObject [("interval_minutes", JInt 5); ("timeout_seconds", JInt 10);
               ("max_retries", JInt 3);
               ("retry_delay_seconds", JFloat (1 # 2));
               ("urls", JList urls)]);
     ("security",
      JObject [("max_urls", JInt max_urls);
               ("allowed_schemes", JList [JString "https"]);
               ("max_timeout_seconds", JInt 30);
               ("max_interval_minutes", JInt 60)])].

Definition sample_config : json :=
  sample_document [sample_entry "example" "https://example.com/health"] 10.

Definition plain_http_config : json :=
  sample_document [sample_entry "example" "https://example.com/health";
                   sample_entry "plain" "http://example.com/"] 10.

Definition nameless_config : json :=
  sample_document [JObject [("url", JString "https://example.com/health");
                            ("expected_status", JInt 200)]] 10.

Definition crowded_config : json :=
  sample_document [sample_entry "a" "https://a.example/";
                   sample_entry "b" "https://b.example/"] 1.

(** ** URLMonitor *)

(** An entry of [config['monitoring']['urls']] of a validated
    configuration. *)
Record Target := {
  url : string;
  name : string;
  expected_status : Z;
  headers : list (string * string)
}.

(** [config['monitoring']]: the settings [check_url] reads.  The numbers
    are finite: the floats NaN and Infinity, which [json.load] also reads,
    are left out. *)
Record Monitoring := {
  max_retries : Z;
  retry_delay_seconds : Q;
  timeout_seconds : Q
}.

(** The dict returned by [check_url].  Instants and durations are rationals:
    seconds for the clock, milliseconds for [response_time]. *)
Record Result := {
  result_url : string;
  result_name : string;
  timestamp : Q;
  status : string;
  response_time : option Q;
  status_code : option Z;
  error : option string
}.

Inductive event :=
| Get (target : string) (timeout : Q) (extra_headers : list (string * string))
| Sleep (seconds : Q).

(** What a GET meets: a response, with its status code and the measured
    time in milliseconds already rounded, or an exception. *)
Inductive get_result :=
| Response (code : Z) (elapsed_ms : Q)
| GetRaises (e : exn).

Record World := {
  clock : Q;
  requests : nat;
  trace : list event
}.

Abbreviation Py := (M World).

Section URLMonitor.
(** [sleepable d]: the length [d] converts to the timer of [time.sleep]
    (a 64-bit count of nanoseconds on CPython, so about 9.2e9 seconds
    either way). *)
Variable sleepable : Q → bool.
Variable monitoring : Monitoring.
(** [network n u]: what request number [n] of the process, sent to [u],
    meets. *)
Variable network : nat → string → get_result.

Definition session_get (u : string) (timeout : Q)
    (extra_headers : list (string * string)) : Py (Z * Q) :=
  λ w, let w' := {| clock := clock w; requests := S (requests w);
                    trace := trace w ++ [Get u timeout extra_headers] |} in
       match network (requests w) u with
       | Response code elapsed_ms => (Returns (code, elapsed_ms), w')
       | GetRaises e => (Raises e, w')
       end.

(** What [time.sleep] raises for a length, if anything: OverflowError when
    the length does not convert to its timer, and then ValueError when it
    is negative. *)
Definition sleep_error (seconds : Q) : option exn :=
  if negb (sleepable seconds)
  then Some (Exn OverflowError "timestamp too large to convert to C _PyTime_t")
  else if Qle_bool 0 seconds then None
  else Some (Exn ValueError "sleep length must be non-negative").

Definition sleep (seconds : Q) : Py unit :=
  match sleep_error seconds with
  | Some e => raise e
  | None =>
      modify (λ w, {| clock := (clock w + seconds)%Q; requests := requests w;
                      trace := trace w ++ [Sleep seconds] |})
  end.

Definition range (n : Z) : list Z := map Z.of_nat (seq 0 (Z.to_nat n)).

Definition set_error (message : string) (result : Result) : Result :=
  {| result_url := result_url result; result_name := result_name result;
     timestamp := timestamp result; status := status result;
     response_time := response_time result;
     status_code := status_code result; error := Some message |}.

(** [result.update({'status': ..., 'response_time': ..., 'status_code': ...})] *)
Definition update (new_status : string) (elapsed_ms : Q) (code : Z)
    (result : Result) : Result :=
  {| result_url := result_url result; result_name := result_name result;
     timestamp := timestamp result; status := new_status;
     response_time := Some elapsed_ms;
     status_code := Some code; error := error result |}.

(** The loop [for attempt in range(max_retries)], over the attempts still
    to make.  The body yields the result so far and whether it left the
    loop with [break]. *)
Fixpoint attempts (url_config : Target) (todo : list Z) (result : Result)
    : Py Result :=
  match todo with
  | [] => ret result
  | attempt :: rest =>
      (let* step :=
         try_except
           (let* response :=
              session_get (url url_config) (timeout_seconds monitoring)
                (headers url_config) in
            let new_status :=
              if (fst response =? expected_status url_config)%Z
              then "UP" else "DOWN" in
            let result' := update new_status (snd response) (fst response)
                             result in
            ret (result', String.eqb (status result') "UP"))
           is_request_exception
           (λ e,
              let result' := set_error (exn_str e) result in
              do (if (attempt <? max_retries monitoring - 1)%Z
                  then sleep (retry_delay_seconds monitoring)
                  else ret tt) then
              ret (result', false)) in
       if (snd step : bool) then ret (fst step)
       else attempts url_config rest (fst step))%py
  end.

Definition check_url (url_config : Target) : Py Result :=
  (let* now := get_world in
   let result :=
     {| result_url := url url_config;
        result_name := name url_config;
        timestamp := clock now;
        status := "DOWN";
        response_time := None;
        status_code := None;
        error := None |} in
   attempts url_config (range (max_retries monitoring)) result)%py.

(** The dict appended by the [except Exception] of [monitor_urls]; it has
    no 'response_time' and no 'status_code' key. *)
Definition error_result (url_config : Target) (now : Q) (e : exn) : Result :=
  {| result_url := url url_config;
     result_name := name url_config;
     timestamp := now;
     status := "ERROR";
     response_time := None;
     status_code := None;
     error := Some (exn_str e) |}.

Fixpoint monitor_each (urls : list Target) (results : list Result)
    : Py (list Result) :=
  match urls with
  | [] => ret results
  | url_config :: rest =>
      (let* results' :=
         try_except
           (let* result := check_url url_config in
            ret (results ++ [result]))
           any_exception
           (λ e, let* now := get_world in
                 ret (results ++ [error_result url_config (clock now) e])) in
       monitor_each rest results')%py
  end.

Definition monitor_urls (urls : list Target) : Py (list Result) :=
  monitor_each urls [].

(** *** Vocabulary of the statements about [check_url] *)

(** The calls of attempts [first], ..., [first + count - 1] when each of
    them fails with a RequestException: a GET, and a sleep unless the
    attempt is the last one of the loop. *)
Definition failed_attempt_events (url_config : Target) (first count : nat)
    : list event :=
  flat_map
    (λ attempt,
       Get (url url_config) (timeout_seconds monitoring) (headers url_config)
       :: (if (Z.of_nat attempt <? max_retries monitoring - 1)%Z
           then [Sleep (retry_delay_seconds monitoring)] else []))
    (seq first count).
End URLMonitor.

Definition sleeps_of (events : list event) : list Q :=
  flat_map (λ e, match e with Sleep d => [d] | Get _ _ _ => [] end) events.

Definition gets_of (events : list event) : list string :=
  flat_map (λ e, match e with Get u _ _ => [u] | Sleep _ => [] end) events.

Definition total (durations : list Q) : Q := foldr Qplus 0%Q durations.

(** ** Sample data *)

(** The lengths CPython's [time.sleep] converts: those whose count of
    nanoseconds fits a signed 64-bit integer. *)
Definition int64_nanoseconds (seconds : Q) : bool :=
  Qle_bool (- (2 ^ 63)) (seconds * 1000000000)
  && Qle_bool (seconds * 1000000000) (2 ^ 63 - 1).

Definition sample_monitoring : Monitoring :=
  {| max_retries := 3; retry_delay_seconds := 1 # 2; timeout_seconds := 5 |}.

Definition sample_target : Target :=
  {| url := "https://example.com/health"; name := "example";
     expected_status := 200; headers := [] |}.

Definition fresh_world : World := {| clock := 0; requests := 0; trace := [] |}.

(** Every request times out; the message tells the request number. *)
Definition always_timeout (n : nat) (u : string) : get_result :=
  GetRaises (Exn RequestException ("timeout " +:+ pretty n)).

Definition no_attempt_monitoring : Monitoring :=
  {| max_retries := 0; retry_delay_seconds := 1 # 2; timeout_seconds := 5 |}.

Definition other_target : Target :=
  {| url := "https://example.org/"; name := "other";
     expected_status := 200; headers := [("Accept", "text/html")] |}.

(** The second request of the process fails inside the HTTP client with an
    exception that is no RequestException; every other one is answered. *)
Definition second_request_breaks (n : nat) (u : string) : get_result :=
  if (n =? 1)%nat then GetRaises (Exn OtherException "boom")
  else Response 200 (1234 # 100).

(** ** The rest of URLMonitor: loading the configuration, the main loop *)

(** What [_load_config] finds at [config_path]: no file, a file [json.load]
    rejects, or a document. *)
Inductive config_file :=
| NoFile
| Malformed (message : string)
| Document (config : json).

(** [_load_config]: the [except] logs and raises the exception again. *)
Definition load_config (urlparse : string → option ParseResult)
    (file : config_file) : outcome json :=
  match file with
  | NoFile => Raises (Exn OtherException "Config file not found")
  | Malformed message => Raises (Exn ValueError message)
  | Document config =>
      if negb (validate_config urlparse config)
      then Raises (Exn ValueError "Invalid configuration format or values")
      else Returns config
  end.

(** The document [config] with the member [key] of its section [part] set
    to [v]. *)
Definition with_setting (part key : string) (v : json) (config : json) : json :=
  match config with
  | JObject members =>
      match lookup_key part members with
      | Some (JObject settings) =>
          JObject (set_key part (JObject (set_key key v settings)) members)
      | _ => config
      end
  | _ => config
  end.

(** The settings whose type is checked and whose value is not. *)
Definition unchecked_setting (part key : string) (v : json) : bool :=
  (String.eqb part "monitoring"
   && existsb (String.eqb key)
        ["interval_minutes"; "timeout_seconds"; "retry_delay_seconds"]
   && isinstance_int_float v)
  || (String.eqb part "security"
      && existsb (String.eqb key)
           ["max_timeout_seconds"; "max_interval_minutes"]
      && isinstance_int_float v)
  || (String.eqb part "security"
      && String.eqb key "allowed_schemes"
      && isinstance_list v).

Section MainLoop.
Variable sleepable : Q → bool.
Variable monitoring : Monitoring.
Variable network : nat → string → get_result.

(** The result [check_url] starts from. *)
Definition initial_result (url_config : Target) (now : Q) : Result :=
  {| result_url := url url_config;
     result_name := name url_config;
     timestamp := now;
     status := "DOWN";
     response_time := None;
     status_code := None;
     error := None |}.

(** One turn of the [while True] of [run], for
    [interval_minutes = config['monitoring']['interval_minutes']]; no
    KeyboardInterrupt arrives. *)
Definition run_iteration (interval_minutes : Q) (urls : list Target)
    : Py unit :=
  let interval := (interval_minutes * 60)%Q in
  try_except
    (let* results := monitor_urls sleepable monitoring network urls in
     sleep sleepable interval)%py
    any_exception
    (λ _, sleep sleepable interval).

(** The first [turns] turns of the loop of [run]. *)
Fixpoint run_iterations (turns : nat) (interval_minutes : Q)
    (urls : list Target) : Py unit :=
  match turns with
  | O => ret tt
  | S more =>
      (do run_iteration interval_minutes urls then
       run_iterations more interval_minutes urls)%py
  end.

(** The GET of one attempt. *)
Definition get_event (url_config : Target) : event :=
  Get (url url_config) (timeout_seconds monitoring) (headers url_config).

(** The world after the GET of an attempt. *)
Definition after_get (url_config : Target) (w : World) : World :=
  {| clock := clock w; requests := S (requests w);
     trace := trace w ++ [get_event url_config] |}.

(** Every GET that raises raises a RequestException. *)
Definition only_transport_failures : Prop :=
  ∀ n u e, network n u = GetRaises e → is_request_exception e = true.

(** A result is coherent when it is UP with the expected status code, or
    DOWN with no status code or another one. *)
Definition coherent (url_config : Target) (result : Result) : Prop :=
  (status result = "UP"
   ∧ status_code result = Some (expected_status url_config))
  ∨ (status result = "DOWN"
     ∧ ∀ code, status_code result = Some code →
               code ≠ expected_status url_config).
End MainLoop.

(** A document without 'urls'. *)
Definition no_urls_config : json :=
  JObject
    [("monitoring",
      JObject [("interval_minutes", JInt 5); ("timeout_seconds", JInt 10);
               ("max_retries", JInt 3);
               ("retry_delay_seconds", JFloat (1 # 2))]);
     ("security",
      JObject [("max_urls", JInt 10);
               ("allowed_schemes", JList [JString "https"]);
               ("max_timeout_seconds", JInt 30);
               ("max_interval_minutes", JInt 60)])].

(** Sample data: the first two requests time out, the third is answered
    with the expected status. *)
Definition third_time_lucky (n : nat) (u : string) : get_result :=
  if (n <? 2)%nat then GetRaises (Exn RequestException ("timeout " +:+ pretty n))
  else Response 200 (4321 # 100).

(** Every request is answered with a server error. *)
Definition always_unavailable (n : nat) (u : string) : get_result :=
  Response 503 (1500 # 100).

(** A delay of 1e10 seconds, beyond what [time.sleep] converts. *)
Definition huge_delay_monitoring : Monitoring :=
  {| max_retries := 2; retry_delay_seconds := 10000000000;
     timeout_seconds := 5 |}.

Definition negative_delay_monitoring : Monitoring :=
  {| max_retries := 3; retry_delay_seconds := - (1 # 2); timeout_seconds := 5 |}.

End Monitor.

(** * The dashboard ([src/dashboard/app.py]) *)

Module Dashboard.

(** A record of the backend's log, with the keys [process_logs] reads.
    ['responseTime'] is a JSON number the function only copies. *)
Record Log := {
  url : string;
  name : string;
  timestamp : string;
  responseTime : Z;
  status : string
}.

(** The value [url_data] holds for a url: the dict with the keys 'name',
    'timestamps', 'response_times' and 'status'. *)
Record Series := {
  series_name : string;
  timestamps : list string;
  response_times : list Z;
  statuses : list string
}.

(** [url_data]: a dict, kept as an association list in the order its keys
    were first inserted. *)
Definition contains (u : string) (url_data : list (string * Series)) : bool :=
  existsb (λ entry, String.eqb (fst entry) u) url_data.

Definition new_series (log : Log) : Series :=
  {| series_name := name log; timestamps := []; response_times := [];
     statuses := [] |}.

(** The three [append]s on the entry of the record's url. *)
Definition append_point (log : Log) (series : Series) : Series :=
  {| series_name := series_name series;
     timestamps := timestamps series ++ [timestamp log];
     response_times := response_times series ++ [responseTime log];
     statuses := statuses series ++ [status log] |}.

(** [url_data[u]] updated in place. *)
Fixpoint update (u : string) (f : Series → Series)
    (url_data : list (string * Series)) : list (string * Series) :=
  match url_data with
  | [] => []
  | (k, series) :: rest =>
      if String.eqb k u then (k, f series) :: rest
      else (k, series) :: update u f rest
  end.

(** The body of the loop of [process_logs]. *)
Definition add_log (url_data : list (string * Series)) (log : Log)
    : list (string * Series) :=
  let url_data' :=
    if contains (url log) url_data then url_data
    else url_data ++ [(url log, new_series log)] in
  update (url log) (append_point log) url_data'.

(** The dict [process_logs] returns. *)
Record Processed := {
  urls : list string;
  data : list (string * Series)
}.

Definition process_logs (logs : list Log) : Processed :=
  let url_data := fold_left add_log logs [] in
  {| urls := map fst url_data; data := url_data |}.

(** The records of a url, in the order of the log. *)
Definition points_of (u : string) (logs : list Log) : list Log :=
  List.filter (λ log, String.eqb (url log) u) logs.

(** The series of a url read off the whole log: the name of its first
    record and the three columns of its records. *)
Definition series_of (u : string) (logs : list Log) : Series :=
  {| series_name := from_option name "" (head (points_of u logs));
     timestamps := map timestamp (points_of u logs);
     response_times := map responseTime (points_of u logs);
     statuses := map status (points_of u logs) |}.

(** The distinct strings of a list, each at its first occurrence. *)
Fixpoint first_seen (l : list string) : list string :=
  match l with
  | [] => []
  | x :: rest => x :: List.filter (λ y, negb (String.eqb y x)) (first_seen rest)
  end.

(** The number of points drawn: the lengths of the 'timestamps' columns
    added up. *)
Definition points (url_data : list (string * Series)) : nat :=
  list_sum (map (λ entry, length (timestamps (snd entry))) url_data).

End Dashboard.

(** * Properties of the alert function *)

Section AlertFunctionProperties.
Import AlertFunction.
Variable env : Settings.
Variable storage_fault : nat → option exn.
Variable webhook_answer : nat → post_result.

(** *** The cooldown store *)

Lemma set_cooldown_writes (u : string) (w : World) :
  blob_service_client env = true →
  storage_fault (storage_calls w) = None →
  set_cooldown env storage_fault u w
  = (Returns tt,
     {| blobs := <[blob_name u := clock w]> (blobs w);
        clock := clock w;
        storage_calls := S (storage_calls w);
        posts := posts w;
        trace := trace w ++ [UploadBlob (blob_name u)] |}).
Proof.
  intros Hclient Hfault. unfold set_cooldown. rewrite Hclient. cbn [negb].
  unfold try_except, upload_blob, bind, storage_call. rewrite Hfault.
  reflexivity.
Qed.

Lemma is_in_cooldown_absent (u : string) (w : World) :
  blobs w !! blob_name u = None →
  ∃ w', is_in_cooldown env storage_fault u w = (Returns false, w')
        ∧ blobs w' = blobs w.
Proof.
  intros Habsent. unfold is_in_cooldown.
  destruct (blob_service_client env); cbn [negb].
  - unfold try_except, exists_, bind at 1, bind at 1, storage_call.
    destruct (storage_fault (storage_calls w)).
    + eexists. split; reflexivity.
    + cbn. rewrite Habsent.
      rewrite bool_decide_eq_false_2 by (intros [? [=]]).
      eexists. split; reflexivity.
  - eexists. split; reflexivity.
Qed.

Lemma is_in_cooldown_within_window (u : string) (w : World) (written : Z) :
  blob_service_client env = true →
  storage_fault (storage_calls w) = None →
  storage_fault (S (storage_calls w)) = None →
  blobs w !! blob_name u = Some written →
  window_representable env written →
  clock w < written + cooldown_window env →
  ∃ w', is_in_cooldown env storage_fault u w = (Returns true, w')
        ∧ blobs w' = blobs w.
Proof.
  intros Hclient Hfault1 Hfault2 Hblob Hend Hclock.
  unfold is_in_cooldown. rewrite Hclient. cbn [negb].
  unfold try_except, exists_, bind at 1, bind at 1, storage_call.
  rewrite Hfault1. cbn. rewrite Hblob.
  rewrite bool_decide_eq_true_2 by eauto.
  unfold bind at 1, get_blob_properties, bind at 1, storage_call. cbn.
  rewrite Hfault2. cbn. rewrite Hblob. cbn.
  unfold bind at 1, lift. rewrite Hend. cbn.
  destruct (Z.ltb_spec (clock w) (written + cooldown_window env)); [|lia].
  eexists. split; reflexivity.
Qed.

Lemma is_in_cooldown_expired (u : string) (w : World) (written : Z) :
  blob_service_client env = true →
  storage_fault (storage_calls w) = None →
  storage_fault (S (storage_calls w)) = None →
  storage_fault (S (S (storage_calls w))) = None →
  blobs w !! blob_name u = Some written →
  window_representable env written →
  written + cooldown_window env <= clock w →
  ∃ w', is_in_cooldown env storage_fault u w = (Returns false, w')
        ∧ blobs w' = delete (blob_name u) (blobs w)
        ∧ trace w' = trace w ++ [BlobExists (blob_name u);
                                 GetBlobProperties (blob_name u);
                                 DeleteBlob (blob_name u)].
Proof.
  intros Hclient Hfault1 Hfault2 Hfault3 Hblob Hend Hclock.
  unfold is_in_cooldown. rewrite Hclient. cbn [negb].
  unfold try_except, exists_, bind at 1, bind at 1, storage_call.
  rewrite Hfault1. cbn. rewrite Hblob.
  rewrite bool_decide_eq_true_2 by eauto.
  unfold bind at 1, get_blob_properties, bind at 1, storage_call. cbn.
  rewrite Hfault2. cbn. rewrite Hblob. cbn.
  unfold bind at 1, lift. rewrite Hend. cbn.
  destruct (Z.ltb_spec (clock w) (written + cooldown_window env)); [lia|].
  unfold delete_blob, bind at 1, storage_call. cbn.
  rewrite Hfault3. cbn. rewrite Hblob. cbn.
  eexists. split; [reflexivity|]. split; [reflexivity|].
  cbn. rewrite <- !app_assoc. reflexivity.
Qed.

(** When the end of the window is no instant a [datetime] can hold, the
    addition raises OverflowError, which the [except] turns into False;
    the record stays. *)
Lemma is_in_cooldown_overflow (u : string) (w : World) (written : Z)
    (e : exn) :
  blob_service_client env = true →
  storage_fault (storage_calls w) = None →
  storage_fault (S (storage_calls w)) = None →
  blobs w !! blob_name u = Some written →
  cooldown_end_of env written = Raises e →
  ∃ w', is_in_cooldown env storage_fault u w = (Returns false, w')
        ∧ blobs w' = blobs w
        ∧ trace w' = trace w ++ [BlobExists (blob_name u);
                                 GetBlobProperties (blob_name u)].
Proof.
  intros Hclient Hfault1 Hfault2 Hblob Hend.
  unfold is_in_cooldown. rewrite Hclient. cbn [negb].
  unfold try_except, exists_, bind at 1, bind at 1, storage_call.
  rewrite Hfault1. cbn. rewrite Hblob.
  rewrite bool_decide_eq_true_2 by eauto.
  unfold bind at 1, get_blob_properties, bind at 1, storage_call. cbn.
  rewrite Hfault2. cbn. rewrite Hblob. cbn.
  unfold bind at 1, lift. rewrite Hend. cbn.
  eexists. split; [reflexivity|]. split; [reflexivity|].
  cbn. rewrite <- !app_assoc. reflexivity.
Qed.

Lemma cooldown_end_of_returns (written cooldown_end : Z) :
  cooldown_end_of env written = Returns cooldown_end →
  cooldown_end = written + cooldown_window env.
Proof.
  unfold cooldown_end_of, timedelta_minutes, datetime_add, cooldown_window.
  destruct (timedelta_in_range _); cbn [and_then]; [|discriminate].
  destruct (datetime_in_range _); [|discriminate].
  intros [= <-]. reflexivity.
Qed.

Local Ltac store_unchanged :=
  intros [= <- <-]; split; [reflexivity|left; split; reflexivity].

(** All that [is_in_cooldown] can do, whatever the store does: answer
    False and leave the records alone; answer True on a record within its
    window; or delete a record past its window and answer False. *)
Lemma is_in_cooldown_effect (u : string) (w w' : World) (r : outcome bool) :
  is_in_cooldown env storage_fault u w = (r, w') →
  clock w' = clock w
  ∧ ((r = Returns false ∧ blobs w' = blobs w)
     ∨ ∃ written,
         blobs w !! blob_name u = Some written
         ∧ window_representable env written
         ∧ ((clock w < written + cooldown_window env
             ∧ r = Returns true ∧ blobs w' = blobs w)
            ∨ (written + cooldown_window env <= clock w
               ∧ r = Returns false
               ∧ blobs w' = delete (blob_name u) (blobs w)))).
Proof.
  unfold is_in_cooldown.
  destruct (blob_service_client env); cbn [negb]; [|store_unchanged].
  unfold try_except, exists_, bind at 1, bind at 1, storage_call.
  destruct (storage_fault (storage_calls w)); [store_unchanged|].
  cbn [get_world bind ret blobs count_storage_call log_event].
  destruct (blobs w !! blob_name u) as [written|] eqn:Hblob.
  - rewrite bool_decide_eq_true_2 by eauto.
    unfold bind at 1, get_blob_properties, bind at 1, storage_call.
    cbn [storage_calls count_storage_call log_event].
    destruct (storage_fault (S (storage_calls w))); [store_unchanged|].
    cbn [get_world bind ret blobs count_storage_call log_event].
    rewrite Hblob.
    cbn [get_world bind ret lift clock count_storage_call log_event].
    destruct (cooldown_end_of env written) as [cooldown_end|e] eqn:Hend;
      [|store_unchanged].
    pose proof (cooldown_end_of_returns _ _ Hend) as ->.
    cbn [get_world bind ret clock count_storage_call log_event].
    destruct (Z.ltb_spec (clock w) (written + cooldown_window env))
      as [Hlive|Hexpired].
    + intros [= <- <-]. split; [reflexivity|]. right. exists written.
      split; [reflexivity|]. split; [exact Hend|]. left. auto.
    + unfold bind at 1, delete_blob, bind at 1, storage_call.
      cbn [storage_calls count_storage_call log_event].
      destruct (storage_fault (S (S (storage_calls w)))); [store_unchanged|].
      cbn [get_world bind ret blobs count_storage_call log_event].
      rewrite Hblob. intros [= <- <-]. split; [reflexivity|].
      right. exists written.
      split; [reflexivity|]. split; [exact Hend|]. right. auto.
  - rewrite bool_decide_eq_false_2 by (intros [? [=]]). store_unchanged.
Qed.

(** C5, as the code has it: with a store configured and answering, and
    when the end of the window is an instant a [datetime] can hold,
    [set_cooldown u] followed by [is_in_cooldown u] before the window has
    elapsed (at once, in particular) returns True; once the window has
    elapsed it returns False and the record is deleted.  When the end of
    the window is no such instant, [is_in_cooldown u] returns False at any
    time and the record stays.  On a url with no record it returns
    False. *)
Theorem cooldown_round_trip (u : string) (w : World) :
  blob_service_client env = true →
  storage_healthy storage_fault →
  let suppressed := snd (set_cooldown env storage_fault u w) in
  (window_representable env (clock w) →
   (∀ elapsed,
      0 <= elapsed < cooldown_window env →
      ∃ w', is_in_cooldown env storage_fault u (advance elapsed suppressed)
            = (Returns true, w')
            ∧ blobs w' !! blob_name u = Some (clock w))
   ∧ (∀ elapsed,
        cooldown_window env <= elapsed →
        ∃ w', is_in_cooldown env storage_fault u (advance elapsed suppressed)
              = (Returns false, w')
              ∧ blobs w' !! blob_name u = None
              ∧ In (DeleteBlob (blob_name u)) (trace w')))
  ∧ (∀ e,
       cooldown_end_of env (clock w) = Raises e →
       ∀ elapsed,
         ∃ w', is_in_cooldown env storage_fault u (advance elapsed suppressed)
               = (Returns false, w')
               ∧ blobs w' !! blob_name u = Some (clock w)
               ∧ trace w' = trace suppressed
                            ++ [BlobExists (blob_name u);
                                GetBlobProperties (blob_name u)])
  ∧ (∀ w0,
       blobs w0 !! blob_name u = None →
       ∃ w', is_in_cooldown env storage_fault u w0 = (Returns false, w')).
Proof.
  intros Hclient Hhealthy suppressed. subst suppressed.
  rewrite set_cooldown_writes by auto. cbn [snd].
  set (suppressed := {| blobs := <[blob_name u:=clock w]> (blobs w) |}).
  assert (Hrecord : ∀ elapsed,
            blobs (advance elapsed suppressed) !! blob_name u = Some (clock w))
    by (intros; apply lookup_insert_eq).
  split; [|split].
  - intros Hend. split.
    + intros elapsed [Hpos Hwithin].
      destruct (is_in_cooldown_within_window u (advance elapsed suppressed)
                  (clock w) Hclient (Hhealthy _) (Hhealthy _) (Hrecord _)
                  Hend)
        as (w' & Hrun & Hblobs).
      * cbn. lia.
      * exists w'. split; [exact Hrun|]. rewrite Hblobs. apply Hrecord.
    + intros elapsed Hexpired.
      destruct (is_in_cooldown_expired u (advance elapsed suppressed)
                  (clock w) Hclient (Hhealthy _) (Hhealthy _) (Hhealthy _)
                  (Hrecord _) Hend)
        as (w' & Hrun & Hblobs & Htrace).
      * cbn. lia.
      * exists w'. split; [exact Hrun|]. split.
        -- rewrite Hblobs. apply lookup_delete_eq.
        -- rewrite Htrace. apply in_or_app. right. cbn. auto.
  - intros e Hend elapsed.
    destruct (is_in_cooldown_overflow u (advance elapsed suppressed)
                (clock w) e Hclient (Hhealthy _) (Hhealthy _) (Hrecord _)
                Hend)
      as (w' & Hrun & Hblobs & Htrace).
    exists w'. split; [exact Hrun|]. split.
    + rewrite Hblobs. apply Hrecord.
    + exact Htrace.
  - intros w0 Habsent.
    destruct (is_in_cooldown_absent u w0 Habsent) as (w' & Hrun & _).
    exists w'. exact Hrun.
Qed.
(** *** The dispatcher *)

Lemma posts_of_app (a b : list event) :
  posts_of (a ++ b) = posts_of a ++ posts_of b.
Proof. apply flat_map_app. Qed.

(** One notification: one POST, then a pause of a second when it went
    through.  Only an exception that is no RequestException leaves the
    loop body. *)
Lemma send_one_step (alert : Alert) (w : World) :
  ∃ r w' pause,
    send_one env webhook_answer alert w = (r, w')
    ∧ trace w' = trace w
                 ++ Post (DISCORD_WEBHOOK_URL env) (format_alert alert) :: pause
    ∧ (pause = [] ∨ pause = [Sleep 1])
    ∧ posts w' = S (posts w)
    ∧ blobs w' = blobs w
    ∧ storage_calls w' = storage_calls w
    ∧ (r = Returns tt
       ∨ ∃ e, r = Raises e ∧ webhook_answer (posts w) = PostRaises e
              ∧ is_request_exception e = false).
Proof.
  unfold send_one, try_except, bind at 1, requests_post.
  destruct (webhook_answer (posts w)) as [status_code|e] eqn:Hanswer.
  - unfold bind at 1, raise_for_status.
    destruct ((400 <=? status_code) && (status_code <? 600))%Z.
    + eexists _, _, []. cbn. repeat split; auto.
    + eexists _, _, [Sleep 1]. cbn.
      unfold advance, log_event, count_post. cbn. rewrite <- ?app_assoc.
      repeat split; auto.
  - destruct (is_request_exception e) eqn:Hclass.
    + eexists _, _, []. cbn. repeat split; auto.
    + eexists _, _, []. cbn. repeat split; eauto.
Qed.

(** The dispatcher only posts and sleeps; it never touches the store. *)
Lemma send_each_trace :
  ∀ (alerts : list Alert) (w : World),
    ∃ r w' dispatch,
      send_each env webhook_answer alerts w = (r, w')
      ∧ trace w' = trace w ++ dispatch
      ∧ forallb is_dispatch_event dispatch = true
      ∧ blobs w' = blobs w
      ∧ storage_calls w' = storage_calls w.
Proof.
  induction alerts as [|alert rest IH]; intros w.
  - exists (Returns tt), w, []. rewrite app_nil_r. repeat split; reflexivity.
  - cbn [send_each]. unfold bind at 1.
    destruct (send_one_step alert w)
      as (r & w1 & pause & Hstep & Htrace & Hpause & _ & Hblobs & Hcalls & _).
    rewrite Hstep.
    assert (Hevents : forallb is_dispatch_event
              (Post (DISCORD_WEBHOOK_URL env) (format_alert alert) :: pause)
            = true) by (destruct Hpause as [-> | ->]; reflexivity).
    destruct r as [[]|e].
    + destruct (IH w1) as (r' & w' & dispatch & Hrun & Htrace' & Hall & Hblobs' & Hcalls').
      exists r', w', ((Post (DISCORD_WEBHOOK_URL env) (format_alert alert)
                       :: pause) ++ dispatch).
      split; [exact Hrun|]. split; [rewrite Htrace', Htrace, <- app_assoc; reflexivity|].
      split; [rewrite forallb_app, Hevents, Hall; reflexivity|].
      split; congruence.
    + exists (Raises e), w1, (Post (DISCORD_WEBHOOK_URL env) (format_alert alert)
                              :: pause).
      repeat split; assumption.
Qed.

Lemma send_each_posts :
  ∀ (alerts : list Alert) (w : World),
    (∀ i e, (i < length alerts)%nat →
            webhook_answer (posts w + i)%nat = PostRaises e →
            is_request_exception e = true) →
    ∃ w',
      send_each env webhook_answer alerts w = (Returns tt, w')
      ∧ posts_of (trace w') = posts_of (trace w) ++ map format_alert alerts
      ∧ posts w' = (posts w + length alerts)%nat.
Proof.
  induction alerts as [|alert rest IH]; intros w Hanswers.
  - exists w. cbn. rewrite app_nil_r, Nat.add_0_r. repeat split; reflexivity.
  - cbn [send_each]. unfold bind at 1.
    destruct (send_one_step alert w)
      as (r & w1 & pause & Hstep & Htrace & Hpause & Hposts & _ & _ & Hr).
    rewrite Hstep.
    destruct Hr as [-> | (e & -> & Hanswer & Hclass)].
    + destruct (IH w1) as (w' & Hrun & Hsent & Hcount).
      { intros i e Hi. rewrite Hposts.
        replace (S (posts w) + i)%nat with (posts w + S i)%nat by lia.
        apply Hanswers. cbn. lia. }
      exists w'. split; [exact Hrun|]. split.
      * rewrite Hsent, Htrace, posts_of_app. cbn [map].
        change (posts_of (Post ?u ?m :: pause)) with (m :: posts_of pause).
        destruct Hpause as [-> | ->]; cbn; rewrite <- app_assoc; reflexivity.
      * rewrite Hcount, Hposts. cbn. lia.
    + rewrite <- (Nat.add_0_r (posts w)) in Hanswer.
      apply Hanswers in Hanswer; [congruence|cbn; lia].
Qed.

(** C7: with a sink configured, and whichever of the POSTs fail (with a
    RequestException: a transport error or an HTTP error status),
    [send_alerts] posts exactly the notifications of the candidates, one
    each, in the order of the candidates, and returns. *)
Theorem send_alerts_one_post_per_alert (alerts : list Alert) (w : World) :
  DISCORD_WEBHOOK_URL env ≠ "" →
  (∀ i e, (i < length alerts)%nat →
          webhook_answer (posts w + i)%nat = PostRaises e →
          is_request_exception e = true) →
  ∃ w',
    send_alerts env webhook_answer alerts w = (Returns tt, w')
    ∧ posts_of (trace w') = posts_of (trace w) ++ map format_alert alerts
    ∧ posts w' = (posts w + length alerts)%nat
    ∧ blobs w' = blobs w.
Proof.
  intros Hsink Hanswers. unfold send_alerts.
  destruct (String.eqb_spec (DISCORD_WEBHOOK_URL env) ""); [contradiction|].
  destruct (send_each_posts alerts w Hanswers) as (w' & Hrun & Hsent & Hcount).
  destruct (send_each_trace alerts w) as (r & w'' & dispatch & Hrun' & _ & _ & Hblobs & _).
  rewrite Hrun in Hrun'. injection Hrun' as <- <-.
  exists w'. repeat split; assumption.
Qed.
(** *** Grouping by url *)

Lemma append_to_group_of (log : Log) (u : string) :
  ∀ url_logs,
    group_of u (append_to_group log url_logs)
    = if String.eqb (url log) u
      then Some (default [] (group_of u url_logs) ++ [log])
      else group_of u url_logs.
Proof.
  induction url_logs as [|[k g] rest IH]; cbn.
  - destruct (String.eqb (url log) u); reflexivity.
  - destruct (String.eqb_spec k (url log)) as [->|Hk]; cbn.
    + destruct (String.eqb (url log) u); reflexivity.
    + rewrite IH. destruct (String.eqb_spec k u) as [->|Hu].
      * destruct (String.eqb_spec (url log) u); [congruence|reflexivity].
      * reflexivity.
Qed.

Lemma append_to_group_keys (log : Log) (k : string) :
  ∀ url_logs,
    In k (map fst (append_to_group log url_logs))
    ↔ k = url log ∨ In k (map fst url_logs).
Proof.
  induction url_logs as [|[k' g] rest IH]; cbn.
  - intuition congruence.
  - destruct (String.eqb_spec k' (url log)) as [->|Hk]; cbn.
    + intuition congruence.
    + rewrite IH. intuition congruence.
Qed.

Lemma append_to_group_distinct (log : Log) :
  ∀ url_logs,
    List.NoDup (map fst url_logs) →
    List.NoDup (map fst (append_to_group log url_logs)).
Proof.
  induction url_logs as [|[k g] rest IH]; cbn; intros Hdistinct.
  - constructor; [intros []|constructor].
  - destruct (String.eqb_spec k (url log)) as [->|Hk]; cbn.
    + exact Hdistinct.
    + inversion Hdistinct as [|? ? Hnotin Hrest]; subst.
      constructor; [|apply IH, Hrest].
      rewrite append_to_group_keys. intuition congruence.
Qed.

Lemma append_to_group_nonempty (log : Log) :
  ∀ url_logs,
    Forall (λ group, snd group ≠ []) url_logs →
    Forall (λ group, snd group ≠ []) (append_to_group log url_logs).
Proof.
  induction url_logs as [|[k g] rest IH]; cbn; intros Hall.
  - constructor; [discriminate|constructor].
  - inversion Hall as [|? ? Hg Hrest]; subst.
    destruct (String.eqb k (url log)).
    + constructor; [|exact Hrest]. cbn. destruct g; discriminate.
    + constructor; [exact Hg|apply IH, Hrest].
Qed.

Lemma logs_of_cons (u : string) (log : Log) (logs : list Log) :
  logs_of u (log :: logs)
  = if String.eqb (url log) u then log :: logs_of u logs else logs_of u logs.
Proof.
  unfold logs_of. rewrite filter_cons.
  destruct (String.eqb_spec (url log) u); case_decide; congruence.
Qed.

Lemma grouping_from :
  ∀ (logs : list Log) (url_logs : list (string * list Log)),
    List.NoDup (map fst url_logs) →
    Forall (λ group, snd group ≠ []) url_logs →
    let grouped :=
      fold_left (λ acc log, append_to_group log acc) logs url_logs in
    List.NoDup (map fst grouped)
    ∧ Forall (λ group, snd group ≠ []) grouped
    ∧ ∀ u, group_of u grouped
           = match logs_of u logs with
             | [] => group_of u url_logs
             | more => Some (default [] (group_of u url_logs) ++ more)
             end.
Proof.
  induction logs as [|log logs IH]; intros url_logs Hdistinct Hnonempty.
  - cbn. repeat split; assumption.
  - cbn [fold_left].
    destruct (IH (append_to_group log url_logs)
                (append_to_group_distinct _ _ Hdistinct)
                (append_to_group_nonempty _ _ Hnonempty))
      as (Hd & Hn & Hgroups).
    split; [exact Hd|]. split; [exact Hn|].
    intros u. rewrite Hgroups, append_to_group_of, logs_of_cons.
    destruct (String.eqb (url log) u); [|reflexivity].
    destruct (logs_of u logs) as [|l more]; cbn; [reflexivity|].
    rewrite <- app_assoc. reflexivity.
Qed.

(** [group_by_url] has one group per url, in no group an empty list, and
    the group of a url holds its records in the order of the input. *)
Lemma group_by_url_groups (logs : list Log) :
  List.NoDup (map fst (group_by_url logs))
  ∧ Forall (λ group, snd group ≠ []) (group_by_url logs)
  ∧ ∀ u, group_of u (group_by_url logs)
         = match logs_of u logs with [] => None | more => Some more end.
Proof.
  destruct (grouping_from logs [] (List.NoDup_nil _) (Forall_nil_2 _))
    as (Hd & Hn & Hgroups).
  split; [exact Hd|]. split; [exact Hn|].
  intros u. unfold group_by_url. rewrite (Hgroups u).
  destruct (logs_of u logs); reflexivity.
Qed.

Lemma group_of_member :
  ∀ (url_logs : list (string * list Log)) (u : string) (g : list Log),
    List.NoDup (map fst url_logs) →
    In (u, g) url_logs → group_of u url_logs = Some g.
Proof.
  induction url_logs as [|[k g'] rest IH]; cbn; intros u g Hdistinct Hin.
  - contradiction.
  - inversion Hdistinct as [|? ? Hnotin Hrest]; subst.
    destruct Hin as [[= -> ->]|Hin].
    + rewrite String.eqb_refl. reflexivity.
    + destruct (String.eqb_spec k u) as [->|Hk]; [|apply IH; assumption].
      exfalso. apply Hnotin. apply (in_map fst) in Hin. exact Hin.
Qed.

Lemma logs_of_occurs (u : string) (logs : list Log) :
  In u (map url logs) → logs_of u logs ≠ [].
Proof.
  induction logs as [|log logs IH]; cbn [map In]; [contradiction|].
  rewrite logs_of_cons. intros [<-|Hin].
  - rewrite String.eqb_refl. discriminate.
  - destruct (String.eqb (url log) u); [discriminate|apply IH, Hin].
Qed.
(** *** Sorting by timestamp *)

Lemma ltb_asym (a b : string) :
  String.ltb a b = true → String.ltb b a = false.
Proof.
  unfold String.ltb. rewrite (String.compare_antisym a b).
  destruct (String.compare b a); cbn; congruence.
Qed.

Lemma ltb_irrefl (a : string) : String.ltb a a = false.
Proof.
  destruct (String.ltb a a) eqn:E; [|reflexivity].
  rewrite (ltb_asym _ _ E) in E. discriminate.
Qed.

Lemma ltb_lt (a b : string) : String.ltb a b = true ↔ String_as_OT.lt a b.
Proof.
  rewrite <- String_as_OT.cmp_lt. unfold String.ltb, String_as_OT.cmp.
  destruct (String.compare a b); split; congruence.
Qed.

Lemma not_ltb_trans (a b c : string) :
  String.ltb b a = false → String.ltb c b = false → String.ltb c a = false.
Proof.
  intros Hab Hbc. destruct (String.ltb c a) eqn:Hca; [exfalso|reflexivity].
  destruct (String.compare b a) eqn:Hcmp.
  - apply String.compare_eq_iff in Hcmp. subst. congruence.
  - unfold String.ltb in Hab. rewrite Hcmp in Hab. discriminate.
  - assert (Hlt : String.ltb a b = true).
    { unfold String.ltb. rewrite String.compare_antisym, Hcmp. reflexivity. }
    apply ltb_lt in Hlt, Hca.
    pose proof (String_as_OT.lt_trans _ _ _ Hca Hlt) as Hcb.
    apply ltb_lt in Hcb. congruence.
Qed.

Lemma not_after_refl (x : Log) : not_after x x.
Proof. apply ltb_irrefl. Qed.

Lemma not_after_trans (x y z : Log) :
  not_after x y → not_after y z → not_after x z.
Proof. unfold not_after. intros Hxy Hyz. eapply not_ltb_trans; eassumption. Qed.

Lemma insert_by_timestamp_perm (x : Log) :
  ∀ sorted, Permutation (insert_by_timestamp x sorted) (x :: sorted).
Proof.
  induction sorted as [|y ys IH]; cbn; [reflexivity|].
  destruct (String.ltb (timestamp y) (timestamp x)); [|reflexivity].
  rewrite IH. apply perm_swap.
Qed.

Lemma sort_by_timestamp_perm :
  ∀ l, Permutation (sort_by_timestamp l) l.
Proof.
  induction l as [|x l IH]; cbn; [reflexivity|].
  fold (sort_by_timestamp l).
  rewrite insert_by_timestamp_perm, IH. reflexivity.
Qed.

Lemma insert_by_timestamp_sorted (x : Log) :
  ∀ sorted,
    Sorted not_after sorted → Sorted not_after (insert_by_timestamp x sorted).
Proof.
  induction sorted as [|y ys IH]; cbn; intros Hsorted.
  - repeat constructor.
  - inversion Hsorted as [|? ? Hys Hhd]; subst.
    destruct (String.ltb (timestamp y) (timestamp x)) eqn:Hyx.
    + constructor; [apply IH, Hys|].
      destruct ys as [|z zs]; cbn.
      * constructor. apply ltb_asym, Hyx.
      * destruct (String.ltb (timestamp z) (timestamp x)).
        -- constructor. inversion Hhd; assumption.
        -- constructor. apply ltb_asym, Hyx.
    + constructor; [exact Hsorted|]. constructor. exact Hyx.
Qed.

(** The group is sorted by timestamp, ascending. *)
Lemma sort_by_timestamp_sorted :
  ∀ l, StronglySorted not_after (sort_by_timestamp l).
Proof.
  intros l. apply Sorted_StronglySorted.
  - intros x y z. apply not_after_trans.
  - induction l as [|x l IH]; cbn; [constructor|].
    apply insert_by_timestamp_sorted, IH.
Qed.

(** A list already in order is left as it is: the sort is stable. *)
Lemma sort_by_timestamp_sorted_input :
  ∀ l, Sorted not_after l → sort_by_timestamp l = l.
Proof.
  induction l as [|x l IH]; intros Hsorted; [reflexivity|].
  inversion Hsorted as [|? ? Hl Hhd]; subst.
  cbn. fold (sort_by_timestamp l). rewrite (IH Hl).
  destruct Hhd as [|y ys Hxy]; [reflexivity|].
  cbn. unfold not_after in Hxy. rewrite Hxy. reflexivity.
Qed.

Lemma strongly_sorted_head (l : list Log) (first : Log) :
  StronglySorted not_after l → head l = Some first →
  ∀ x, In x l → not_after first x.
Proof.
  intros Hsorted Hhead x Hin. destruct l as [|y ys]; [discriminate|].
  injection Hhead as ->. inversion Hsorted as [|? ? _ Hall]; subst.
  destruct Hin as [->|Hin]; [apply not_after_refl|].
  rewrite List.Forall_forall in Hall. apply Hall, Hin.
Qed.

Lemma strongly_sorted_last :
  ∀ (l : list Log) (latest : Log),
    StronglySorted not_after l → last l = Some latest →
    ∀ x, In x l → not_after x latest.
Proof.
  induction l as [|y ys IH]; intros latest Hsorted Hlast x Hin;
    [contradiction|].
  inversion Hsorted as [|? ? Hys Hall]; subst.
  destruct ys as [|z zs].
  - injection Hlast as <-. destruct Hin as [->|[]]. apply not_after_refl.
  - change (last (y :: z :: zs)) with (last (z :: zs)) in Hlast.
    destruct Hin as [->|Hin]; [|apply (IH latest Hys Hlast x Hin)].
    rewrite List.Forall_forall in Hall. apply Hall.
    apply last_Some_elem_of in Hlast. apply list_elem_of_In, Hlast.
Qed.

Lemma head_In {A} (l : list A) (x : A) : head l = Some x → In x l.
Proof. destruct l; [discriminate|]. intros [= ->]. left. reflexivity. Qed.

Lemma last_In {A} (l : list A) (x : A) : last l = Some x → In x l.
Proof. intros H. apply list_elem_of_In, last_Some_elem_of, H. Qed.

(** *** Counting the trailing failures *)

Lemma count_until_not_down_spec :
  ∀ reversed,
    ∃ failures rest,
      reversed = failures ++ rest
      ∧ Forall (λ log, status log = "DOWN") failures
      ∧ count_until_not_down reversed = Z.of_nat (length failures)
      ∧ ∀ log, head rest = Some log → status log ≠ "DOWN".
Proof.
  induction reversed as [|log reversed IH].
  - exists [], []. repeat split; [constructor|discriminate].
  - cbn [count_until_not_down].
    destruct (String.eqb_spec (status log) "DOWN") as [Hdown|Hup].
    + destruct IH as (failures & rest & -> & Hall & Hcount & Hrest).
      exists (log :: failures), rest.
      split; [reflexivity|]. split; [constructor; assumption|].
      split; [rewrite Hcount; cbn [length]; lia|exact Hrest].
    + exists [], (log :: reversed).
      split; [reflexivity|]. split; [constructor|].
      split; [reflexivity|]. intros ? [= <-]. exact Hup.
Qed.

(** The count is the length of the longest run of DOWN records that ends
    the list. *)
Lemma count_consecutive_failures_spec (url_log_list : list Log) :
  ∃ older trailing,
    url_log_list = older ++ trailing
    ∧ Forall (λ log, status log = "DOWN") trailing
    ∧ count_consecutive_failures url_log_list = Z.of_nat (length trailing)
    ∧ ∀ log, last older = Some log → status log ≠ "DOWN".
Proof.
  unfold count_consecutive_failures.
  destruct (count_until_not_down_spec (rev url_log_list))
    as (failures & rest & Hrev & Hall & Hcount & Hrest).
  exists (rev rest), (rev failures).
  split; [rewrite <- rev_app_distr, <- Hrev, rev_involutive; reflexivity|].
  split; [apply Forall_rev, Hall|].
  split; [rewrite length_rev; exact Hcount|].
  intros log Hlast. apply Hrest.
  destruct rest as [|r rest']; [discriminate|].
  cbn [rev] in Hlast. rewrite last_snoc in Hlast. cbn. exact Hlast.
Qed.
(** *** The analysis loop *)

Local Ltac solve_run :=
  eexists _, _, _; split; [reflexivity|];
  split; [cbn; rewrite <- ?app_assoc;
          first [reflexivity | symmetry; apply app_nil_r]|];
  repeat split; reflexivity.

(** [is_in_cooldown] never raises; it only calls the store. *)
Lemma is_in_cooldown_total (u : string) (w : World) :
  ∃ answer w' events,
    is_in_cooldown env storage_fault u w = (Returns answer, w')
    ∧ trace w' = trace w ++ events
    ∧ forallb is_storage_event events = true
    ∧ posts w' = posts w
    ∧ clock w' = clock w.
Proof.
  unfold is_in_cooldown.
  destruct (blob_service_client env); cbn [negb]; [|solve_run].
  unfold try_except, exists_, bind at 1, bind at 1, storage_call.
  destruct (storage_fault (storage_calls w)); [solve_run|].
  cbn [get_world bind ret].
  destruct (bool_decide (is_Some (blobs _ !! blob_name u))); [|solve_run].
  unfold bind at 1, get_blob_properties, bind at 1, storage_call.
  cbn [storage_calls count_storage_call log_event].
  destruct (storage_fault (S (storage_calls w))); [solve_run|].
  cbn [get_world bind ret blobs count_storage_call log_event].
  destruct (blobs w !! blob_name u) as [written|]; [|solve_run].
  cbn [get_world bind ret lift clock count_storage_call log_event].
  destruct (cooldown_end_of env written) as [cooldown_end|e]; [|solve_run].
  cbn [get_world bind ret clock count_storage_call log_event].
  destruct (clock w <? _)%Z; [solve_run|].
  unfold bind at 1, delete_blob, bind at 1, storage_call.
  cbn [storage_calls count_storage_call log_event].
  destruct (storage_fault (S (S (storage_calls w)))); [solve_run|].
  cbn [get_world bind ret blobs count_storage_call log_event].
  destruct (blobs w !! blob_name u); solve_run.
Qed.

(** [set_cooldown] never raises; with a store configured it is one
    upload. *)
Lemma set_cooldown_total (u : string) (w : World) :
  ∃ w',
    set_cooldown env storage_fault u w = (Returns tt, w')
    ∧ trace w' = trace w ++ (if blob_service_client env
                             then [UploadBlob (blob_name u)] else [])
    ∧ posts w' = posts w
    ∧ clock w' = clock w.
Proof.
  unfold set_cooldown.
  destruct (blob_service_client env); cbn [negb].
  - unfold try_except, upload_blob, bind, storage_call.
    destruct (storage_fault (storage_calls w));
      eexists; repeat split; reflexivity.
  - exists w. rewrite app_nil_r. repeat split; reflexivity.
Qed.

Lemma candidate_nonempty (u : string) (url_log_list : list Log) :
  url_log_list ≠ [] →
  ∃ first latest,
    head (sort_by_timestamp url_log_list) = Some first
    ∧ last (sort_by_timestamp url_log_list) = Some latest
    ∧ candidate u url_log_list
      = [ {| alert_url := u;
             alert_name := name first;
             consecutive_failures :=
               count_consecutive_failures (sort_by_timestamp url_log_list);
             last_status := status latest;
             last_check := timestamp latest |} ].
Proof.
  intros Hnonempty. unfold candidate.
  pose proof (sort_by_timestamp_perm url_log_list) as Hperm.
  destruct (sort_by_timestamp url_log_list) as [|first rest] eqn:Hsorted.
  - apply Permutation_nil in Hperm. congruence.
  - destruct (last (first :: rest)) as [latest|] eqn:Hlast.
    + exists first, latest. repeat split; reflexivity.
    + apply last_None in Hlast. discriminate.
Qed.

Lemma analyze_url_spec (u : string) (url_log_list : list Log)
    (alerts : list Alert) (w : World) :
  url_log_list ≠ [] →
  ∃ w' events,
    analyze_url env storage_fault u url_log_list alerts w
    = (Returns (alerts ++ emitted env storage_fault u url_log_list w), w')
    ∧ trace w' = trace w ++ events
    ∧ forallb is_storage_event events = true
    ∧ posts w' = posts w
    ∧ clock w' = clock w
    ∧ (blob_service_client env = true →
       emitted env storage_fault u url_log_list w ≠ [] →
       In (UploadBlob (blob_name u)) events).
Proof.
  intros Hnonempty. unfold analyze_url, emitted, in_cooldown.
  destruct (CONSECUTIVE_FAILURES_THRESHOLD env <=? _)%Z; cbn [andb].
  - unfold bind at 1.
    destruct (is_in_cooldown_total u w)
      as (answer & w1 & events & Hrun & Htrace & Hevents & Hposts & Hclock).
    rewrite Hrun. cbn [fst].
    destruct answer; cbn [negb].
    + exists w1, events. rewrite app_nil_r.
      repeat split; try assumption. intros _ Habsurd. contradiction.
    + destruct (candidate_nonempty u url_log_list Hnonempty)
        as (first & latest & Hhead & Hlast & Hcandidate).
      rewrite Hhead, Hlast, Hcandidate. unfold bind at 1.
      destruct (set_cooldown_total u w1)
        as (w2 & Hset & Htrace2 & Hposts2 & Hclock2).
      rewrite Hset. cbn [ret].
      exists w2, (events ++ (if blob_service_client env
                             then [UploadBlob (blob_name u)] else [])).
      split; [reflexivity|].
      split; [rewrite Htrace2, Htrace, <- app_assoc; reflexivity|].
      split; [rewrite forallb_app, Hevents;
              destruct (blob_service_client env); reflexivity|].
      split; [congruence|]. split; [congruence|].
      intros -> _. apply in_or_app. right. left. reflexivity.
  - exists w, []. rewrite !app_nil_r.
    repeat split; try reflexivity. intros _ Habsurd. contradiction.
Qed.

Lemma emitted_about (u : string) (url_log_list : list Log) (w : World) :
  Forall (λ alert, alert_url alert = u)
    (emitted env storage_fault u url_log_list w).
Proof.
  unfold emitted, candidate.
  destruct (_ && _); [|constructor].
  destruct (head _); [|constructor].
  destruct (last _); repeat constructor.
Qed.
Lemma emitted_candidate (u : string) (url_log_list : list Log) (w : World)
    (alert : Alert) :
  url_log_list ≠ [] →
  In alert (emitted env storage_fault u url_log_list w) →
  candidate u url_log_list = [alert]
  ∧ emitted env storage_fault u url_log_list w ≠ [].
Proof.
  intros Hnonempty Hin. split; [|intros Hnil; rewrite Hnil in Hin; contradiction].
  unfold emitted in Hin. destruct (_ && _); [|contradiction].
  destruct (candidate_nonempty u url_log_list Hnonempty)
    as (first & latest & _ & _ & Hcandidate).
  rewrite Hcandidate in Hin |- *. destruct Hin as [->|[]]. reflexivity.
Qed.

(** The loop never raises and only calls the store; every alert it adds is
    the candidate of one of the groups, and its cooldown record is
    written, when a store is configured, within the loop. *)
Lemma analyze_each_spec :
  ∀ (url_logs : list (string * list Log)) (alerts : list Alert) (w : World),
    Forall (λ group, snd group ≠ []) url_logs →
    ∃ new w' events,
      analyze_each env storage_fault url_logs alerts w
      = (Returns (alerts ++ new), w')
      ∧ trace w' = trace w ++ events
      ∧ forallb is_storage_event events = true
      ∧ posts w' = posts w
      ∧ clock w' = clock w
      ∧ (∀ alert, In alert new →
           ∃ u g, In (u, g) url_logs ∧ candidate u g = [alert])
      ∧ (blob_service_client env = true →
         ∀ alert, In alert new →
           In (UploadBlob (blob_name (alert_url alert))) events).
Proof.
  induction url_logs as [|[u g] rest IH]; intros alerts w Hnonempty.
  - exists [], w, []. rewrite !app_nil_r.
    repeat split; try reflexivity; intros; contradiction.
  - inversion Hnonempty as [|? ? Hg Hrest]; subst. cbn in Hg.
    cbn [analyze_each]. unfold bind at 1.
    destruct (analyze_url_spec u g alerts w Hg)
      as (w1 & events1 & Hrun1 & Htrace1 & Hevents1 & Hposts1 & Hclock1 & Hupload1).
    rewrite Hrun1.
    destruct (IH (alerts ++ emitted env storage_fault u g w) w1 Hrest)
      as (new & w' & events & Hrun & Htrace & Hevents & Hposts & Hclock & Hfrom & Hupload).
    exists (emitted env storage_fault u g w ++ new), w', (events1 ++ events).
    split; [rewrite Hrun, <- app_assoc; reflexivity|].
    split; [rewrite Htrace, Htrace1, <- app_assoc; reflexivity|].
    split; [rewrite forallb_app, Hevents1, Hevents; reflexivity|].
    split; [congruence|]. split; [congruence|]. split.
    + intros alert [Hin|Hin]%in_app_or.
      * exists u, g. split; [left; reflexivity|].
        apply (emitted_candidate u g w alert Hg Hin).
      * destruct (Hfrom alert Hin) as (u' & g' & Hin' & Hcandidate).
        exists u', g'. split; [right; exact Hin'|exact Hcandidate].
    + intros Hclient alert [Hin|Hin]%in_app_or; apply in_or_app.
      * left.
        pose proof (emitted_about u g w) as Habout.
        rewrite List.Forall_forall in Habout. rewrite (Habout alert Hin).
        apply (Hupload1 Hclient).
        apply (emitted_candidate u g w alert Hg Hin).
      * right. apply (Hupload Hclient alert Hin).
Qed.

Lemma candidate_about (u : string) (g : list Log) (alert : Alert) :
  candidate u g = [alert] → alert_url alert = u.
Proof.
  unfold candidate. destruct (head _); [|discriminate].
  destruct (last _); [|discriminate]. intros [= <-]. reflexivity.
Qed.

Lemma alerts_about_none (u : string) (alerts : list Alert) :
  (∀ alert, In alert alerts → alert_url alert ≠ u) →
  alerts_about u alerts = [].
Proof.
  induction alerts as [|alert alerts IH]; intros Hother; [reflexivity|].
  unfold alerts_about. rewrite filter_cons_False.
  - apply IH. intros a Ha. apply Hother. right. exact Ha.
  - apply Hother. left. reflexivity.
Qed.

Lemma alerts_about_all (u : string) (alerts : list Alert) :
  Forall (λ alert, alert_url alert = u) alerts →
  alerts_about u alerts = alerts.
Proof.
  induction 1 as [|alert alerts Halert _ IH]; [reflexivity|].
  unfold alerts_about. rewrite filter_cons_True by exact Halert.
  f_equal. exact IH.
Qed.

(** What the loop appends about one url is what it emits for the group of
    that url in the world in which it reaches it. *)
Lemma analyze_each_about (u : string) (g : list Log) :
  ∀ (url_logs : list (string * list Log)) (alerts : list Alert) (w : World),
    Forall (λ group, snd group ≠ []) url_logs →
    List.NoDup (map fst url_logs) →
    group_of u url_logs = Some g →
    ∃ new w',
      analyze_each env storage_fault url_logs alerts w
      = (Returns (alerts ++ new), w')
      ∧ alerts_about u new
        = emitted env storage_fault u g
            (world_reaching env storage_fault u url_logs alerts w).
Proof.
  induction url_logs as [|[k g'] rest IH];
    intros alerts w Hnonempty Hdistinct Hgroup; [discriminate|].
  inversion Hnonempty as [|? ? Hg Hrest]; subst. cbn in Hg.
  inversion Hdistinct as [|? ? Hnotin Hdistinct']; subst.
  cbn [analyze_each world_reaching group_of] in *. unfold bind at 1.
  destruct (analyze_url_spec k g' alerts w Hg) as (w1 & events1 & Hrun1 & _).
  rewrite Hrun1.
  destruct (String.eqb_spec k u) as [->|Hk].
  - injection Hgroup as ->.
    destruct (analyze_each_spec rest (alerts ++ emitted env storage_fault u g w)
                w1 Hrest)
      as (new & w' & events & Hrun & _ & _ & _ & _ & Hfrom & _).
    exists (emitted env storage_fault u g w ++ new), w'.
    split; [rewrite Hrun, <- app_assoc; reflexivity|].
    unfold alerts_about. rewrite filter_app.
    fold (alerts_about u (emitted env storage_fault u g w)).
    fold (alerts_about u new).
    rewrite (alerts_about_all _ _ (emitted_about u g w)).
    rewrite alerts_about_none; [apply app_nil_r|].
    intros alert Hin Habout.
    destruct (Hfrom alert Hin) as (u' & g'' & Hin' & Hcandidate).
    apply candidate_about in Hcandidate. subst u'. rewrite Habout in Hin'.
    apply Hnotin. apply (in_map fst) in Hin'. exact Hin'.
  - destruct (IH (alerts ++ emitted env storage_fault k g' w) w1
                Hrest Hdistinct' Hgroup) as (new & w' & Hrun & Habout).
    exists (emitted env storage_fault k g' w ++ new), w'.
    split; [rewrite Hrun, <- app_assoc; reflexivity|].
    unfold alerts_about. rewrite filter_app.
    fold (alerts_about u (emitted env storage_fault k g' w)).
    fold (alerts_about u new).
    rewrite Habout, alerts_about_none; [reflexivity|].
    intros alert Hin.
    pose proof (emitted_about k g' w) as Hk'.
    rewrite List.Forall_forall in Hk'. rewrite (Hk' alert Hin). exact Hk.
Qed.
(** *** Suppression as the loop goes *)

Lemma is_in_cooldown_other_blobs (u : string) (w : World) (blob : string) :
  blob ≠ blob_name u →
  blobs (snd (is_in_cooldown env storage_fault u w)) !! blob = blobs w !! blob.
Proof.
  intros Hother. unfold is_in_cooldown.
  destruct (blob_service_client env); cbn [negb]; [|reflexivity].
  unfold try_except, exists_, bind at 1, bind at 1, storage_call.
  destruct (storage_fault (storage_calls w)); [reflexivity|].
  cbn [get_world bind ret].
  destruct (bool_decide (is_Some (blobs _ !! blob_name u))); [|reflexivity].
  unfold bind at 1, get_blob_properties, bind at 1, storage_call.
  cbn [storage_calls count_storage_call log_event].
  destruct (storage_fault (S (storage_calls w))); [reflexivity|].
  cbn [get_world bind ret blobs count_storage_call log_event].
  destruct (blobs w !! blob_name u) as [written|]; [|reflexivity].
  cbn [get_world bind ret lift clock count_storage_call log_event].
  destruct (cooldown_end_of env written) as [cooldown_end|e]; [|reflexivity].
  cbn [get_world bind ret clock count_storage_call log_event].
  destruct (clock w <? _)%Z; [reflexivity|].
  unfold bind at 1, delete_blob, bind at 1, storage_call.
  cbn [storage_calls count_storage_call log_event].
  destruct (storage_fault (S (S (storage_calls w)))); [reflexivity|].
  cbn [get_world bind ret blobs count_storage_call log_event].
  destruct (blobs w !! blob_name u); [|reflexivity].
  cbn. apply lookup_delete_ne. congruence.
Qed.

Lemma set_cooldown_other_blobs (u : string) (w : World) (blob : string) :
  blob ≠ blob_name u →
  blobs (snd (set_cooldown env storage_fault u w)) !! blob = blobs w !! blob.
Proof.
  intros Hother. unfold set_cooldown.
  destruct (blob_service_client env); cbn [negb]; [|reflexivity].
  unfold try_except, upload_blob, bind, storage_call.
  destruct (storage_fault (storage_calls w)); [reflexivity|].
  cbn. apply lookup_insert_ne. congruence.
Qed.

(** Checking one url leaves the clock and the records of the other urls as
    they were. *)
Lemma analyze_url_frame (u : string) (url_log_list : list Log)
    (alerts : list Alert) (w : World) (blob : string) :
  url_log_list ≠ [] →
  blob ≠ blob_name u →
  let w' := snd (analyze_url env storage_fault u url_log_list alerts w) in
  blobs w' !! blob = blobs w !! blob ∧ clock w' = clock w.
Proof.
  intros Hnonempty Hother w'. split.
  - subst w'. unfold analyze_url.
    destruct (CONSECUTIVE_FAILURES_THRESHOLD env <=? _)%Z; [|reflexivity].
    unfold bind at 1.
    pose proof (is_in_cooldown_other_blobs u w blob Hother) as Hcheck.
    destruct (is_in_cooldown env storage_fault u w) as [[answer|e] w1];
      cbn [snd] in Hcheck |- *; [|exact Hcheck].
    destruct answer; [exact Hcheck|].
    destruct (head _); [|exact Hcheck]. destruct (last _); [|exact Hcheck].
    unfold bind at 1.
    pose proof (set_cooldown_other_blobs u w1 blob Hother) as Hset.
    destruct (set_cooldown env storage_fault u w1) as [[[]|e] w2];
      cbn [snd ret] in Hset |- *; congruence.
  - subst w'.
    destruct (analyze_url_spec u url_log_list alerts w Hnonempty)
      as (w1 & events & Hrun & _ & _ & _ & Hclock & _).
    rewrite Hrun. exact Hclock.
Qed.

(** With a store that answers, a url is in cooldown when its record is
    younger than the window, and the end of the window is an instant a
    [datetime] can hold. *)
Lemma in_cooldown_healthy (u : string) (w : World) :
  storage_healthy storage_fault →
  in_cooldown env storage_fault u w
  = blob_service_client env
    && match blobs w !! blob_name u with
       | Some written =>
           match cooldown_end_of env written with
           | Returns cooldown_end => (clock w <? cooldown_end)%Z
           | Raises _ => false
           end
       | None => false
       end.
Proof.
  intros Hhealthy. unfold in_cooldown, is_in_cooldown.
  destruct (blob_service_client env); cbn [negb andb]; [|reflexivity].
  unfold try_except, exists_, bind at 1, bind at 1, storage_call.
  rewrite Hhealthy. cbn [get_world bind ret blobs count_storage_call log_event].
  destruct (blobs w !! blob_name u) as [written|] eqn:Hblob.
  - rewrite bool_decide_eq_true_2 by eauto.
    unfold bind at 1, get_blob_properties, bind at 1, storage_call.
    rewrite Hhealthy. cbn [get_world bind ret blobs count_storage_call log_event].
    rewrite Hblob.
    cbn [get_world bind ret lift clock count_storage_call log_event].
    destruct (cooldown_end_of env written) as [cooldown_end|e];
      [|reflexivity].
    cbn [get_world bind ret clock count_storage_call log_event].
    destruct (clock w <? _)%Z; [reflexivity|].
    unfold bind at 1, delete_blob, bind at 1, storage_call.
    rewrite Hhealthy. cbn [get_world bind ret blobs count_storage_call log_event].
    rewrite Hblob. reflexivity.
  - rewrite bool_decide_eq_false_2 by (intros [? [=]]). reflexivity.
Qed.

Lemma in_cooldown_unconfigured (u : string) (w : World) :
  blob_service_client env = false → in_cooldown env storage_fault u w = false.
Proof.
  intros Hclient. unfold in_cooldown, is_in_cooldown. rewrite Hclient.
  reflexivity.
Qed.

Lemma group_by_url_keys (logs : list Log) (k : string) :
  In k (map fst (group_by_url logs)) ↔ In k (map url logs).
Proof.
  unfold group_by_url.
  assert (Hfrom : ∀ acc,
            In k (map fst (fold_left (λ acc log, append_to_group log acc)
                             logs acc))
            ↔ In k (map url logs) ∨ In k (map fst acc)).
  { induction logs as [|log logs IH]; intros acc; cbn [fold_left map In].
    - tauto.
    - rewrite IH, append_to_group_keys. intuition congruence. }
  rewrite Hfrom. cbn. tauto.
Qed.

(** When no other url shares its record, a url is reached with its record
    and the clock as they were at the start. *)
Lemma world_reaching_frame (u : string) :
  ∀ (url_logs : list (string * list Log)) (alerts : list Alert) (w : World),
    Forall (λ group, snd group ≠ []) url_logs →
    (∀ k, In k (map fst url_logs) → blob_name k = blob_name u → k = u) →
    let reached := world_reaching env storage_fault u url_logs alerts w in
    blobs reached !! blob_name u = blobs w !! blob_name u
    ∧ clock reached = clock w.
Proof.
  induction url_logs as [|[k g] rest IH]; intros alerts w Hnonempty Hdistinct;
    cbn [world_reaching]; [split; reflexivity|].
  inversion Hnonempty as [|? ? Hg Hrest]; subst. cbn in Hg.
  destruct (String.eqb_spec k u) as [->|Hk]; [split; reflexivity|].
  assert (Hblob : blob_name u ≠ blob_name k).
  { intros Heq. apply Hk. apply Hdistinct; [left; reflexivity|congruence]. }
  destruct (analyze_url_frame k g alerts w (blob_name u) Hg Hblob)
    as [Hblobs Hclock].
  destruct (analyze_url_spec k g alerts w Hg) as (w1 & events & Hrun & _).
  rewrite Hrun in Hblobs, Hclock |- *. cbn [snd] in Hblobs, Hclock.
  destruct (IH (alerts ++ emitted env storage_fault k g w) w1 Hrest)
    as [Hblobs' Hclock'].
  { intros k' Hin. apply Hdistinct. right. exact Hin. }
  split; congruence.
Qed.

(** *** The history of a single url *)

Lemma grouping_single (u : string) :
  ∀ (logs earlier : list Log),
    Forall (λ log, url log = u) logs →
    fold_left (λ acc log, append_to_group log acc) logs [(u, earlier)]
    = [(u, earlier ++ logs)].
Proof.
  induction logs as [|log logs IH]; intros earlier Hall.
  - rewrite app_nil_r. reflexivity.
  - inversion Hall as [|? ? Hlog Hlogs]; subst.
    cbn. rewrite String.eqb_refl, (IH _ Hlogs), <- app_assoc. reflexivity.
Qed.

Lemma analyze_logs_single_url (u : string) (logs : list Log) (w : World) :
  logs ≠ [] →
  Forall (λ log, url log = u) logs →
  ∃ w', analyze_logs env storage_fault logs w
        = (Returns (emitted env storage_fault u logs w), w').
Proof.
  intros Hnonempty Hall. destruct logs as [|log logs]; [congruence|].
  inversion Hall as [|? ? Hlog Hlogs]; subst.
  unfold analyze_logs, group_by_url. cbn [fold_left append_to_group].
  rewrite (grouping_single _ _ _ Hlogs). cbn [app analyze_each].
  unfold bind at 1.
  destruct (analyze_url_spec (url log) (log :: logs) [] w Hnonempty)
    as (w' & events & Hrun & _).
  rewrite Hrun. exists w'. reflexivity.
Qed.

(** C2: [analyze_logs] groups the records by url (one group per url, the
    records of the url in it), sorts the group by timestamp, counts the
    DOWN records that end it, and returns exactly one alert about the url
    when the count reaches the threshold and [is_in_cooldown] answers
    False as the loop reaches the url, none otherwise.  For a history
    [UP, DOWN, DOWN, DOWN] of one url, most recent last, and threshold 3
    it returns one alert with [consecutive_failures = 3]; for
    [DOWN, DOWN, UP] it returns none. *)
Theorem analyze_logs_emits (logs : list Log) (w : World) (u : string) :
  (In u (map url logs) →
   let sorted := sort_by_timestamp (logs_of u logs) in
   let failures := count_consecutive_failures sorted in
   let reached :=
     world_reaching env storage_fault u (group_by_url logs) [] w in
   group_of u (group_by_url logs) = Some (logs_of u logs)
   ∧ List.NoDup (map fst (group_by_url logs))
   ∧ StronglySorted not_after sorted
   ∧ Permutation sorted (logs_of u logs)
   ∧ (∃ older trailing,
        sorted = older ++ trailing
        ∧ Forall (λ log, status log = "DOWN") trailing
        ∧ failures = Z.of_nat (length trailing)
        ∧ ∀ log, last older = Some log → status log ≠ "DOWN")
   ∧ ∃ alerts w',
       analyze_logs env storage_fault logs w = (Returns alerts, w')
       ∧ (CONSECUTIVE_FAILURES_THRESHOLD env <= failures
          ∧ in_cooldown env storage_fault u reached = false →
          ∃ alert,
            alerts_about u alerts = [alert]
            ∧ alert_url alert = u
            ∧ consecutive_failures alert = failures)
       ∧ (¬ (CONSECUTIVE_FAILURES_THRESHOLD env <= failures
             ∧ in_cooldown env storage_fault u reached = false) →
          alerts_about u alerts = [])
       ∧ (blob_service_client env = false →
          in_cooldown env storage_fault u reached = false)
       ∧ (storage_healthy storage_fault →
          (∀ k, In k (map url logs) → blob_name k = blob_name u → k = u) →
          in_cooldown env storage_fault u reached
          = in_cooldown env storage_fault u w))
  ∧ (Forall (λ log, url log = u) logs →
     Sorted not_after logs →
     CONSECUTIVE_FAILURES_THRESHOLD env = 3 →
     (map status logs = ["UP"; "DOWN"; "DOWN"; "DOWN"] →
      in_cooldown env storage_fault u w = false →
      ∃ alert w',
        analyze_logs env storage_fault logs w = (Returns [alert], w')
        ∧ alert_url alert = u
        ∧ consecutive_failures alert = 3)
     ∧ (map status logs = ["DOWN"; "DOWN"; "UP"] →
        ∃ w', analyze_logs env storage_fault logs w = (Returns [], w'))).
Proof.
  split.
  - intros Hoccurs sorted failures reached.
    destruct (group_by_url_groups logs) as (Hdistinct & Hnonempty & Hgroups).
    assert (Hgroup : group_of u (group_by_url logs) = Some (logs_of u logs)).
    { rewrite Hgroups. pose proof (logs_of_occurs u logs Hoccurs).
      destruct (logs_of u logs); congruence. }
    split; [exact Hgroup|]. split; [exact Hdistinct|].
    split; [apply sort_by_timestamp_sorted|].
    split; [apply sort_by_timestamp_perm|].
    split; [apply count_consecutive_failures_spec|].
    destruct (analyze_each_about u (logs_of u logs) (group_by_url logs) [] w
                Hnonempty Hdistinct Hgroup) as (alerts & w' & Hrun & Habout).
    exists alerts, w'. split; [exact Hrun|].
    fold reached in Habout. unfold emitted in Habout.
    fold sorted in Habout. fold failures in Habout.
    destruct (candidate_nonempty u (logs_of u logs)
                (logs_of_occurs u logs Hoccurs))
      as (first & latest & _ & _ & Hcandidate).
    fold sorted in Hcandidate. fold failures in Hcandidate.
    split; [|split; [|split]].
    + intros [Hthreshold Hcool]. apply Z.leb_le in Hthreshold.
      rewrite Hthreshold, Hcool, Hcandidate in Habout.
      eexists. split; [exact Habout|]. split; reflexivity.
    + intros Hnot. rewrite Habout.
      destruct (Z.leb_spec (CONSECUTIVE_FAILURES_THRESHOLD env) failures);
        [|reflexivity].
      destruct (in_cooldown env storage_fault u reached); [reflexivity|].
      exfalso. apply Hnot. split; [assumption|reflexivity].
    + apply in_cooldown_unconfigured.
    + intros Hhealthy Hunshared.
      destruct (world_reaching_frame u (group_by_url logs) [] w Hnonempty)
        as [Hblobs Hclock].
      { intros k Hin. apply Hunshared. apply group_by_url_keys, Hin. }
      fold reached in Hblobs, Hclock.
      rewrite !in_cooldown_healthy by exact Hhealthy.
      rewrite Hblobs, Hclock. reflexivity.
  - intros Hsame Hsorted Hthreshold. split.
    + intros Hstatus Hcool.
      destruct logs as [|r1 [|r2 [|r3 [|r4 [|]]]]]; try discriminate.
      injection Hstatus as H1 H2 H3 H4.
      destruct (analyze_logs_single_url u [r1; r2; r3; r4] w ltac:(discriminate)
                  Hsame) as (w' & Hrun).
      unfold emitted, candidate in Hrun.
      rewrite (sort_by_timestamp_sorted_input _ Hsorted), Hthreshold, Hcool in Hrun.
      unfold count_consecutive_failures in Hrun.
      cbn [rev app count_until_not_down] in Hrun.
      rewrite H1, H2, H3, H4 in Hrun. cbn in Hrun.
      eexists _, w'. split; [exact Hrun|]. split; reflexivity.
    + intros Hstatus.
      destruct logs as [|r1 [|r2 [|r3 [|]]]]; try discriminate.
      injection Hstatus as H1 H2 H3.
      destruct (analyze_logs_single_url u [r1; r2; r3] w ltac:(discriminate)
                  Hsame) as (w' & Hrun).
      unfold emitted in Hrun.
      rewrite (sort_by_timestamp_sorted_input _ Hsorted), Hthreshold in Hrun.
      unfold count_consecutive_failures in Hrun.
      cbn [rev app count_until_not_down] in Hrun.
      rewrite H3 in Hrun. cbn in Hrun.
      exists w'. exact Hrun.
Qed.
(** C10: every alert returned takes its name from a record of its url
    with the earliest timestamp, and its last status and last check from
    a record of its url with the latest timestamp. *)
Theorem alert_name_oldest_status_newest (logs : list Log) (w : World) :
  ∃ alerts w',
    analyze_logs env storage_fault logs w = (Returns alerts, w')
    ∧ ∀ alert, In alert alerts →
        ∃ first latest,
          In first logs ∧ url first = alert_url alert
          ∧ In latest logs ∧ url latest = alert_url alert
          ∧ (∀ log, In log logs → url log = alert_url alert →
                    not_after first log ∧ not_after log latest)
          ∧ alert_name alert = name first
          ∧ last_status alert = status latest
          ∧ last_check alert = timestamp latest.
Proof.
  destruct (group_by_url_groups logs) as (Hdistinct & Hnonempty & Hgroups).
  destruct (analyze_each_spec (group_by_url logs) [] w Hnonempty)
    as (alerts & w' & events & Hrun & _ & _ & _ & _ & Hfrom & _).
  exists alerts, w'. split; [exact Hrun|].
  intros alert Hin.
  destruct (Hfrom alert Hin) as (u & g & Hmember & Hcandidate).
  pose proof (candidate_about _ _ _ Hcandidate) as Hurl.
  apply (group_of_member _ _ _ Hdistinct) in Hmember.
  rewrite Hgroups in Hmember.
  assert (Hg : g = logs_of u logs ∧ g ≠ [])
    by (destruct (logs_of u logs); [discriminate|];
        injection Hmember as <-; split; [reflexivity|discriminate]).
  destruct Hg as [-> Hnonempty'].
  destruct (candidate_nonempty u _ Hnonempty')
    as (first & latest & Hhead & Hlast & Hcandidate').
  rewrite Hcandidate' in Hcandidate. injection Hcandidate as <-.
  cbn [alert_url alert_name last_status last_check].
  assert (Hrecords : ∀ log, In log (sort_by_timestamp (logs_of u logs))
                            ↔ In log logs ∧ url log = u).
  { intros log. rewrite <- !list_elem_of_In.
    rewrite (sort_by_timestamp_perm (logs_of u logs)).
    unfold logs_of. rewrite list_elem_of_filter. tauto. }
  pose proof (sort_by_timestamp_sorted (logs_of u logs)) as Hsorted.
  exists first, latest.
  destruct (proj1 (Hrecords first) (head_In _ _ Hhead)) as [Hf1 Hf2].
  destruct (proj1 (Hrecords latest) (last_In _ _ Hlast)) as [Hl1 Hl2].
  repeat split; try assumption.
  - apply (strongly_sorted_head _ _ Hsorted Hhead). apply Hrecords. auto.
  - apply (strongly_sorted_last _ _ Hsorted Hlast). apply Hrecords. auto.
Qed.

(** *** The records the analysis leaves *)

(** With a store that answers, a turn of the loop keeps every record
    stamped with the instant of the run, and stamps the record of the url
    it alerts about. *)
Lemma analyze_url_stamps (u : string) (url_log_list : list Log)
    (alerts : list Alert) (w : World) :
  storage_healthy storage_fault →
  blob_service_client env = true →
  url_log_list ≠ [] →
  ∃ w',
    analyze_url env storage_fault u url_log_list alerts w
    = (Returns (alerts ++ emitted env storage_fault u url_log_list w), w')
    ∧ clock w' = clock w
    ∧ (∀ blob, blobs w !! blob = Some (clock w) →
               blobs w' !! blob = Some (clock w))
    ∧ (emitted env storage_fault u url_log_list w ≠ [] →
       blobs w' !! blob_name u = Some (clock w)).
Proof.
  intros Hhealthy Hclient Hnonempty.
  destruct (analyze_url_spec u url_log_list alerts w Hnonempty)
    as (w' & events & Hrun & _ & _ & _ & Hclock & _).
  exists w'. split; [exact Hrun|]. split; [exact Hclock|].
  revert Hrun. unfold analyze_url, emitted, in_cooldown.
  destruct (CONSECUTIVE_FAILURES_THRESHOLD env <=? _)%Z; cbn [andb].
  - unfold bind at 1.
    destruct (is_in_cooldown env storage_fault u w) as [r w1] eqn:Hcheck.
    destruct (is_in_cooldown_effect u w w1 r Hcheck) as [Hclock1 Hcases].
    assert (Hwrite : ∀ r' w2,
              set_cooldown env storage_fault u w1 = (r', w2) →
              (∀ blob, blob ≠ blob_name u →
                       blobs w2 !! blob = blobs w1 !! blob)
              ∧ blobs w2 !! blob_name u = Some (clock w)).
    { intros r' w2.
      rewrite (set_cooldown_writes u w1 Hclient (Hhealthy _)).
      intros [= <- <-]. cbn [blobs]. rewrite Hclock1. split.
      - intros blob Hother. apply lookup_insert_ne. congruence.
      - apply lookup_insert_eq. }
    assert (Hkept : r = Returns false →
              ∀ blob, blob ≠ blob_name u →
                      blobs w !! blob = Some (clock w) →
                      blobs w1 !! blob = Some (clock w)).
    { intros _ blob Hother Hstamp.
      destruct Hcases as [[_ ->] | (written & _ & _ & [(_ & _ & ->)
                                                       | (_ & _ & ->)])];
        [exact Hstamp|exact Hstamp|].
      rewrite lookup_delete_ne by congruence. exact Hstamp. }
    destruct r as [[|]|e]; cbn [fst negb].
    + intros [= _ <-].
      destruct Hcases as [[[=] _] | (written & _ & _ & [(_ & _ & ->)
                                                        | (_ & [=] & _)])].
      split; [auto|]. intros Habsurd. contradiction.
    + destruct (candidate_nonempty u url_log_list Hnonempty)
        as (first & latest & Hhead & Hlast & Hcandidate).
      rewrite Hhead, Hlast. unfold bind at 1.
      destruct (set_cooldown env storage_fault u w1) as [r' w2] eqn:Hset.
      destruct (Hwrite r' w2 eq_refl) as [Hother Hstamped].
      destruct r' as [[]|e']; cbn [ret]; intros [= _ <-].
      split; [|intros _; exact Hstamped].
      intros blob Hstamp.
      destruct (decide (blob = blob_name u)) as [->|Hne]; [exact Hstamped|].
      rewrite (Hother blob Hne). apply (Hkept eq_refl blob Hne Hstamp).
    + discriminate.
  - intros [= _ <-]. split; [auto|]. intros Habsurd. contradiction.
Qed.

Lemma analyze_each_stamps :
  storage_healthy storage_fault →
  blob_service_client env = true →
  ∀ (url_logs : list (string * list Log)) (alerts : list Alert) (w : World),
    Forall (λ group, snd group ≠ []) url_logs →
    ∃ new w',
      analyze_each env storage_fault url_logs alerts w
      = (Returns (alerts ++ new), w')
      ∧ clock w' = clock w
      ∧ (∀ blob, blobs w !! blob = Some (clock w) →
                 blobs w' !! blob = Some (clock w))
      ∧ (∀ alert, In alert new →
           blobs w' !! blob_name (alert_url alert) = Some (clock w)).
Proof.
  intros Hhealthy Hclient.
  induction url_logs as [|[u g] rest IH]; intros alerts w Hnonempty.
  - exists [], w. rewrite app_nil_r. split; [reflexivity|].
    split; [reflexivity|]. split; [auto|]. intros alert [].
  - inversion Hnonempty as [|? ? Hg Hrest]; subst. cbn in Hg.
    cbn [analyze_each]. unfold bind at 1.
    destruct (analyze_url_stamps u g alerts w Hhealthy Hclient Hg)
      as (w1 & Hrun1 & Hclock1 & Hkeep1 & Hnew1).
    rewrite Hrun1.
    destruct (IH (alerts ++ emitted env storage_fault u g w) w1 Hrest)
      as (new & w' & Hrun & Hclock & Hkeep & Hnew).
    rewrite Hclock1 in Hkeep, Hnew.
    exists (emitted env storage_fault u g w ++ new), w'.
    split; [rewrite Hrun, <- app_assoc; reflexivity|].
    split; [lia|]. split; [auto|].
    intros alert [Hin|Hin]%in_app_or.
    + pose proof (emitted_about u g w) as Habout.
      rewrite List.Forall_forall in Habout. rewrite (Habout alert Hin).
      apply Hkeep, Hnew1. intros Hnone. rewrite Hnone in Hin. contradiction.
    + apply Hnew, Hin.
Qed.

(** *** The whole invocation *)

(** C1, as the code has it: the cooldown record of every alert is written
    by [analyze_logs], as the alert is added, before [send_alerts] posts
    anything; [send_alerts] and what follows only post and sleep, and
    leave the store as the analysis left it.  So with a store configured
    the upload of the record of every alert is among the calls of the
    analysis, and when the store answers, the record of every alert is in
    the store when [main] returns, stamped with the instant of the run,
    whatever the webhook answers and whether a sink is configured. *)
Theorem main_records_cooldown_before_send (logs : list Log) (w : World) :
  ∃ alerts analysed finished analysis dispatch,
    analyze_logs env storage_fault logs w = (Returns alerts, analysed)
    ∧ main env storage_fault webhook_answer logs w = (Returns tt, finished)
    ∧ trace analysed = trace w ++ analysis
    ∧ trace finished = trace analysed ++ dispatch
    ∧ forallb is_storage_event analysis = true
    ∧ forallb is_dispatch_event dispatch = true
    ∧ blobs finished = blobs analysed
    ∧ (blob_service_client env = true →
       ∀ alert, In alert alerts →
         In (UploadBlob (blob_name (alert_url alert))) analysis)
    ∧ (blob_service_client env = true →
       storage_healthy storage_fault →
       ∀ alert, In alert alerts →
         blobs finished !! blob_name (alert_url alert) = Some (clock w)).
Proof.
  destruct (group_by_url_groups logs) as (_ & Hnonempty & _).
  destruct (analyze_each_spec (group_by_url logs) [] w Hnonempty)
    as (alerts & analysed & analysis & Hrun & Htrace & Hevents & _ & _ & _ & Hupload).
  cbn [app] in Hrun. fold (analyze_logs env storage_fault logs) in Hrun.
  assert (Hdone : ∃ finished dispatch,
            main env storage_fault webhook_answer logs w = (Returns tt, finished)
            ∧ trace finished = trace analysed ++ dispatch
            ∧ forallb is_dispatch_event dispatch = true
            ∧ blobs finished = blobs analysed).
  { unfold main, try_except.
    destruct logs as [|log logs'].
    - cbn in Hrun. injection Hrun as <- <-.
      exists w, []. rewrite app_nil_r. repeat split; reflexivity.
    - unfold bind at 1. rewrite Hrun.
      destruct alerts as [|alert alerts'].
      + exists analysed, []. rewrite app_nil_r. repeat split; reflexivity.
      + unfold send_alerts.
        destruct (String.eqb (DISCORD_WEBHOOK_URL env) "").
        * exists analysed, []. rewrite app_nil_r. repeat split; reflexivity.
        * destruct (send_each_trace (alert :: alerts') analysed)
            as (r & finished & dispatch & Hsend & Htrace' & Hevents' & Hblobs & _).
          rewrite Hsend. exists finished, dispatch.
          destruct r as [[]|e]; repeat split; assumption. }
  destruct Hdone as (finished & dispatch & Hmain & Htrace' & Hevents' & Hblobs).
  exists alerts, analysed, finished, analysis, dispatch.
  do 8 (split; [assumption|]).
  intros Hclient Hhealthy alert Hin.
  destruct (analyze_each_stamps Hhealthy Hclient (group_by_url logs) [] w
              Hnonempty)
    as (new & stamped & Hstamps & _ & _ & Hnew).
  cbn [app] in Hstamps. unfold analyze_logs in Hrun.
  rewrite Hstamps in Hrun. injection Hrun as -> ->.
  rewrite Hblobs. apply Hnew, Hin.
Qed.
End AlertFunctionProperties.

Lemma cooldown_round_trip_witness :
  AlertFunction.blob_service_client AlertFunction.sample_settings = true
  ∧ AlertFunction.storage_healthy AlertFunction.no_fault
  ∧ AlertFunction.window_representable AlertFunction.sample_settings
      (AlertFunction.clock AlertFunction.empty_world)
  ∧ let suppressed :=
      snd (AlertFunction.set_cooldown AlertFunction.sample_settings
             AlertFunction.no_fault "https://example.com/"
             AlertFunction.empty_world) in
    (∃ w', AlertFunction.is_in_cooldown AlertFunction.sample_settings
             AlertFunction.no_fault "https://example.com/"
             (AlertFunction.advance 0 suppressed)
           = (Returns true, w'))
    ∧ (∃ w', AlertFunction.is_in_cooldown AlertFunction.sample_settings
               AlertFunction.no_fault "https://example.com/"
               (AlertFunction.advance AlertFunction.thirty_minutes suppressed)
             = (Returns false, w')
             ∧ AlertFunction.blobs w' !! "cooldown_https_example.com_" = None).
Proof.
  assert (Hend : AlertFunction.window_representable
                   AlertFunction.sample_settings
                   (AlertFunction.clock AlertFunction.empty_world))
    by reflexivity.
  split; [reflexivity|]. split; [intros n; reflexivity|].
  split; [exact Hend|].
  destruct (cooldown_round_trip AlertFunction.sample_settings
              AlertFunction.no_fault "https://example.com/"
              AlertFunction.empty_world eq_refl (λ n, eq_refl))
    as (Hrepresentable & _ & _).
  destruct (Hrepresentable Hend) as [Hwithin Hexpired].
  split.
  - destruct (Hwithin 0) as (w' & Hrun & _); [vm_compute; split; congruence|].
    exists w'. exact Hrun.
  - destruct (Hexpired AlertFunction.thirty_minutes) as (w' & Hrun & Hgone & _);
      [vm_compute; congruence|].
    exists w'. split; [exact Hrun|exact Hgone].
Defined.

(** C5 as stated fails.  With a window of 5000000000 minutes the end of
    the window lies after the year 9999: right after [set_cooldown],
    [is_in_cooldown] answers False, although the window has not elapsed,
    and the record is still there. *)
Lemma cooldown_lost_beyond_datetime :
  0 < AlertFunction.cooldown_window AlertFunction.distant_window_settings
  ∧ AlertFunction.is_in_cooldown AlertFunction.distant_window_settings
      AlertFunction.no_fault "https://example.com/"
      (snd (AlertFunction.set_cooldown AlertFunction.distant_window_settings
              AlertFunction.no_fault "https://example.com/"
              AlertFunction.empty_world))
    = (Returns false,
       {| AlertFunction.blobs :=
            {[ "cooldown_https_example.com_" := 1700000000000000 ]};
          AlertFunction.clock := 1700000000000000;
          AlertFunction.storage_calls := 3;
          AlertFunction.posts := 0;
          AlertFunction.trace :=
            [ AlertFunction.UploadBlob "cooldown_https_example.com_";
              AlertFunction.BlobExists "cooldown_https_example.com_";
              AlertFunction.GetBlobProperties
                "cooldown_https_example.com_" ] |}).
Proof.
  split; [reflexivity|]. vm_compute. reflexivity.
Qed.

Lemma send_alerts_one_post_per_alert_witness :
  AlertFunction.DISCORD_WEBHOOK_URL AlertFunction.sample_settings ≠ ""
  ∧ ∃ w',
      AlertFunction.send_alerts AlertFunction.sample_settings
        AlertFunction.first_post_fails AlertFunction.sample_alerts
        AlertFunction.empty_world = (Returns tt, w')
      ∧ AlertFunction.posts_of (AlertFunction.trace w')
        = map AlertFunction.format_alert AlertFunction.sample_alerts
      ∧ AlertFunction.posts w' = 2%nat.
Proof.
  split; [discriminate|].
  destruct (send_alerts_one_post_per_alert AlertFunction.sample_settings
              AlertFunction.first_post_fails AlertFunction.sample_alerts
              AlertFunction.empty_world) as (w' & Hrun & Hposts & Hcount & _).
  - discriminate.
  - intros [|[|i]] e Hi; cbn; [intros [= <-]; reflexivity|discriminate|].
    cbn in Hi. lia.
  - exists w'. split; [exact Hrun|]. split; [exact Hposts|exact Hcount].
Defined.

Lemma analyze_logs_emits_witness :
  In "https://example.com/"
    (map AlertFunction.url AlertFunction.three_failures)
  ∧ (∃ alerts w' alert,
       AlertFunction.analyze_logs AlertFunction.sample_settings
         AlertFunction.no_fault AlertFunction.three_failures
         AlertFunction.empty_world = (Returns alerts, w')
       ∧ AlertFunction.alerts_about "https://example.com/" alerts = [alert]
       ∧ AlertFunction.consecutive_failures alert = 3)
  ∧ (∃ alert w',
       AlertFunction.analyze_logs AlertFunction.sample_settings
         AlertFunction.no_fault AlertFunction.three_failures
         AlertFunction.empty_world = (Returns [alert], w')
       ∧ AlertFunction.consecutive_failures alert = 3)
  ∧ (∃ w',
       AlertFunction.analyze_logs AlertFunction.sample_settings
         AlertFunction.no_fault AlertFunction.recovered
         AlertFunction.empty_world = (Returns [], w')).
Proof.
  assert (Hoccurs : In "https://example.com/"
                      (map AlertFunction.url AlertFunction.three_failures))
    by (left; reflexivity).
  split; [exact Hoccurs|]. split; [|split].
  - destruct (analyze_logs_emits AlertFunction.sample_settings
                AlertFunction.no_fault AlertFunction.three_failures
                AlertFunction.empty_world "https://example.com/")
      as [Hgeneral _].
    destruct (Hgeneral Hoccurs)
      as (_ & _ & _ & _ & _ & alerts & w' & Hrun & Hemits & _).
    destruct Hemits as (alert & Habout & _ & Hcount).
    { split; [vm_compute; congruence|vm_compute; reflexivity]. }
    exists alerts, w', alert.
    split; [exact Hrun|]. split; [exact Habout|exact Hcount].
  - destruct (analyze_logs_emits AlertFunction.sample_settings
                AlertFunction.no_fault AlertFunction.three_failures
                AlertFunction.empty_world "https://example.com/")
      as [_ Hhistory].
    destruct Hhistory as [Hfailing _].
    { repeat constructor. }
    { repeat constructor. }
    { reflexivity. }
    destruct (Hfailing eq_refl eq_refl) as (alert & w' & Hrun & _ & Hcount).
    exists alert, w'. split; [exact Hrun|exact Hcount].
  - destruct (analyze_logs_emits AlertFunction.sample_settings
                AlertFunction.no_fault AlertFunction.recovered
                AlertFunction.empty_world "https://example.com/")
      as [_ Hhistory].
    destruct Hhistory as [_ Hrecovered].
    { repeat constructor. }
    { repeat constructor. }
    { reflexivity. }
    exact (Hrecovered eq_refl).
Defined.

Lemma alert_name_oldest_status_newest_witness :
  ∃ alerts w',
    AlertFunction.analyze_logs AlertFunction.sample_settings
      AlertFunction.no_fault AlertFunction.two_endpoints_down
      AlertFunction.empty_world = (Returns alerts, w')
    ∧ ∀ alert, In alert alerts →
        ∃ first latest,
          In first AlertFunction.two_endpoints_down
          ∧ AlertFunction.url first = AlertFunction.alert_url alert
          ∧ In latest AlertFunction.two_endpoints_down
          ∧ AlertFunction.url latest = AlertFunction.alert_url alert
          ∧ (∀ log, In log AlertFunction.two_endpoints_down →
                    AlertFunction.url log = AlertFunction.alert_url alert →
                    AlertFunction.not_after first log
                    ∧ AlertFunction.not_after log latest)
          ∧ AlertFunction.alert_name alert = AlertFunction.name first
          ∧ AlertFunction.last_status alert = AlertFunction.status latest
          ∧ AlertFunction.last_check alert = AlertFunction.timestamp latest.
Proof.
  exact (alert_name_oldest_status_newest AlertFunction.sample_settings
           AlertFunction.no_fault AlertFunction.two_endpoints_down
           AlertFunction.empty_world).
Defined.

(** On the sample: the endpoint renamed along the way is reported with the
    name of its oldest record and the status and time of its newest. *)
Example renamed_endpoint_alert :
  fst (AlertFunction.analyze_logs AlertFunction.sample_settings
         AlertFunction.no_fault AlertFunction.two_endpoints_down
         AlertFunction.empty_world)
  = Returns
      [ {| AlertFunction.alert_url := "https://a.example/";
           AlertFunction.alert_name := "a (old name)";
           AlertFunction.consecutive_failures := 3;
           AlertFunction.last_status := "DOWN";
           AlertFunction.last_check := "2024-05-01T10:10:00" |};
        {| AlertFunction.alert_url := "https://b.example/";
           AlertFunction.alert_name := "b";
           AlertFunction.consecutive_failures := 3;
           AlertFunction.last_status := "DOWN";
           AlertFunction.last_check := "2024-05-01T10:10:00" |} ].
Proof. vm_compute. reflexivity. Qed.

(** Two urls that share a record name: the record written for the first
    suppresses the second within the same run, although neither was in
    cooldown at the start. *)
Example shared_record_suppresses :
  AlertFunction.blob_name "https://a.example/b"
  = AlertFunction.blob_name "https://a.example_b"
  ∧ AlertFunction.in_cooldown AlertFunction.sample_settings
      AlertFunction.no_fault "https://a.example_b" AlertFunction.empty_world
    = false
  ∧ fst (AlertFunction.analyze_logs AlertFunction.sample_settings
           AlertFunction.no_fault AlertFunction.shared_record_logs
           AlertFunction.empty_world)
    = Returns
        [ {| AlertFunction.alert_url := "https://a.example/b";
             AlertFunction.alert_name := "first";
             AlertFunction.consecutive_failures := 3;
             AlertFunction.last_status := "DOWN";
             AlertFunction.last_check := "2024-05-01T10:10:00" |} ].
Proof.
  split; [vm_compute; reflexivity|].
  split; vm_compute; reflexivity.
Qed.

Lemma main_records_cooldown_before_send_witness :
  ∃ alerts analysed finished analysis dispatch,
    AlertFunction.analyze_logs AlertFunction.sample_settings
      AlertFunction.no_fault AlertFunction.three_failures
      AlertFunction.empty_world = (Returns alerts, analysed)
    ∧ AlertFunction.main AlertFunction.sample_settings AlertFunction.no_fault
        AlertFunction.server_error AlertFunction.three_failures
        AlertFunction.empty_world = (Returns tt, finished)
    ∧ AlertFunction.trace analysed
      = AlertFunction.trace AlertFunction.empty_world ++ analysis
    ∧ AlertFunction.trace finished = AlertFunction.trace analysed ++ dispatch
    ∧ forallb AlertFunction.is_storage_event analysis = true
    ∧ forallb AlertFunction.is_dispatch_event dispatch = true
    ∧ AlertFunction.blobs finished = AlertFunction.blobs analysed
    ∧ (∀ alert, In alert alerts →
         In (AlertFunction.UploadBlob
               (AlertFunction.blob_name (AlertFunction.alert_url alert)))
           analysis
         ∧ AlertFunction.blobs finished
           !! AlertFunction.blob_name (AlertFunction.alert_url alert)
           = Some (AlertFunction.clock AlertFunction.empty_world)).
Proof.
  destruct (main_records_cooldown_before_send AlertFunction.sample_settings
              AlertFunction.no_fault AlertFunction.server_error
              AlertFunction.three_failures AlertFunction.empty_world)
    as (alerts & analysed & finished & analysis & dispatch & Hrun & Hmain
        & Htrace & Htrace' & Hevents & Hevents' & Hblobs & Hupload & Hstamp).
  exists alerts, analysed, finished, analysis, dispatch.
  do 7 (split; [assumption|]).
  intros alert Hin. split.
  - apply (Hupload eq_refl alert Hin).
  - apply (Hstamp eq_refl (λ n, eq_refl) alert Hin).
Defined.

(** C1 as stated fails.  On the history [UP, DOWN, DOWN, DOWN] the cooldown
    record is uploaded before the notification is posted; it is recorded
    when the sink answers with a server error; and it is recorded when no
    sink is configured and nothing is posted at all. *)
Lemma cooldown_recorded_before_send :
  AlertFunction.trace
    (snd (AlertFunction.main AlertFunction.sample_settings
            AlertFunction.no_fault AlertFunction.accepted
            AlertFunction.three_failures AlertFunction.empty_world))
  = [ AlertFunction.BlobExists "cooldown_https_example.com_";
      AlertFunction.UploadBlob "cooldown_https_example.com_";
      AlertFunction.Post "https://discord.example/api/webhooks/1"
        (AlertFunction.format_alert
           {| AlertFunction.alert_url := "https://example.com/";
              AlertFunction.alert_name := "example";
              AlertFunction.consecutive_failures := 3;
              AlertFunction.last_status := "DOWN";
              AlertFunction.last_check := "2024-05-01T10:15:00" |});
      AlertFunction.Sleep 1 ]
  ∧ AlertFunction.send_precedes_cooldown []
      (AlertFunction.trace
         (snd (AlertFunction.main AlertFunction.sample_settings
                 AlertFunction.no_fault AlertFunction.accepted
                 AlertFunction.three_failures AlertFunction.empty_world)))
    = false
  ∧ AlertFunction.blobs
      (snd (AlertFunction.main AlertFunction.sample_settings
              AlertFunction.no_fault AlertFunction.server_error
              AlertFunction.three_failures AlertFunction.empty_world))
    !! "cooldown_https_example.com_"
    = Some (AlertFunction.clock AlertFunction.empty_world)
  ∧ AlertFunction.posts_of
      (AlertFunction.trace
         (snd (AlertFunction.main AlertFunction.no_sink_settings
                 AlertFunction.no_fault AlertFunction.accepted
                 AlertFunction.three_failures AlertFunction.empty_world)))
    = []
  ∧ AlertFunction.blobs
      (snd (AlertFunction.main AlertFunction.no_sink_settings
              AlertFunction.no_fault AlertFunction.accepted
              AlertFunction.three_failures AlertFunction.empty_world))
    !! "cooldown_https_example.com_"
    = Some (AlertFunction.clock AlertFunction.empty_world).
Proof.
  split; [vm_compute; reflexivity|].
  split; [vm_compute; reflexivity|].
  split; [vm_compute; reflexivity|].
  split; vm_compute; reflexivity.
Qed.

(** * Properties of the monitoring agent *)

Section URLMonitorProperties.
Import Monitor.
Variable sleepable : Q → bool.
Variable monitoring : Monitoring.
Variable network : nat → string → get_result.

Lemma range_nonpositive (n : Z) : n <= 0 → range n = [].
Proof.
  intros Hn. unfold range. replace (Z.to_nat n) with O by lia. reflexivity.
Qed.

Lemma set_error_twice (m1 m2 : string) (r : Result) :
  set_error m2 (set_error m1 r) = set_error m2 r.
Proof. reflexivity. Qed.

(** [time.sleep] accepts exactly the lengths that are not negative and
    convert to its timer. *)
Lemma sleep_error_none (d : Q) :
  sleep_error sleepable d = None ↔ (0 <= d)%Q ∧ sleepable d = true.
Proof.
  unfold sleep_error. destruct (sleepable d); cbn [negb].
  - destruct (Qle_bool 0 d) eqn:E.
    + apply Qle_bool_iff in E. tauto.
    + split; [discriminate|]. intros [Hd _].
      apply Qle_bool_iff in Hd. congruence.
  - split; [discriminate|]. intros [_ [=]].
Qed.

(** What [time.sleep] raises: OverflowError for a length it cannot convert,
    ValueError for a negative one it can. *)
Lemma sleep_error_kind (d : Q) (refusal : exn) :
  sleep_error sleepable d = Some refusal →
  (sleepable d = false → exn_kind refusal = OverflowError)
  ∧ (sleepable d = true → exn_kind refusal = ValueError ∧ (d < 0)%Q).
Proof.
  unfold sleep_error. destruct (sleepable d); cbn [negb].
  - destruct (Qle_bool 0 d) eqn:E; [discriminate|].
    intros [= <-]. split; [discriminate|]. intros _.
    split; [reflexivity|].
    apply Qnot_le_lt. intros Hle. apply Qle_bool_iff in Hle. congruence.
  - intros [= <-]. split; [reflexivity|discriminate].
Qed.

Lemma sleep_runs (d : Q) (w : World) :
  sleep_error sleepable d = None →
  sleep sleepable d w = (Returns tt, {| clock := (clock w + d)%Q;
                                        requests := requests w;
                                        trace := trace w ++ [Sleep d] |}).
Proof. intros Hd. unfold sleep. rewrite Hd. reflexivity. Qed.

Lemma sleep_refuses (d : Q) (w : World) (e : exn) :
  sleep_error sleepable d = Some e →
  sleep sleepable d w = (Raises e, w).
Proof. intros Hd. unfold sleep. rewrite Hd. reflexivity. Qed.

(** The loop over attempts [first .. first + count], all of them failing
    with a RequestException. *)
Lemma attempts_all_fail (url_config : Target) (messages : nat → string) :
  (1 < max_retries monitoring →
   sleep_error sleepable (retry_delay_seconds monitoring) = None) →
  ∀ (count first : nat) (result : Result) (w : World),
    (∀ i, (i <= count)%nat →
          network (requests w + i)%nat (url url_config)
          = GetRaises (Exn RequestException (messages (first + i)%nat))) →
    ∃ w',
      attempts sleepable monitoring network url_config
        (map Z.of_nat (seq first (S count))) result w
      = (Returns (set_error (messages (first + count)%nat) result), w')
      ∧ requests w' = (requests w + S count)%nat
      ∧ trace w' = trace w
                   ++ failed_attempt_events monitoring url_config first (S count)
      ∧ (clock w' ==
         clock w + total (sleeps_of (failed_attempt_events monitoring
                                       url_config first (S count))))%Q.
Proof.
  intros Hdelay count.
  induction count as [|count IH]; intros first result w Hnet.
  - pose proof (Hnet O (Nat.le_refl _)) as H0.
    rewrite !Nat.add_0_r in H0. rewrite !Nat.add_0_r.
    cbn [seq map attempts]. unfold bind at 1, try_except, bind at 1, session_get.
    rewrite H0. cbn [is_request_exception exn_kind exn_str].
    unfold failed_attempt_events. cbn [seq flat_map].
    destruct (Z.of_nat first <? max_retries monitoring - 1)%Z eqn:E.
    + unfold bind at 1.
      rewrite sleep_runs by (apply Hdelay; apply Z.ltb_lt in E; lia).
      cbn. eexists. split; [reflexivity|]. cbn. split; [lia|].
      split; [rewrite <- ?app_assoc, ?app_nil_r; reflexivity|ring].
    + cbn. eexists. split; [reflexivity|]. cbn. split; [lia|].
      split; [rewrite <- ?app_assoc, ?app_nil_r; reflexivity|ring].
  - pose proof (Hnet O ltac:(lia)) as H0.
    rewrite !Nat.add_0_r in H0.
    change (map Z.of_nat (seq first (S (S count))))
      with (Z.of_nat first :: map Z.of_nat (seq (S first) (S count))).
    cbn [attempts]. unfold bind at 1, try_except, bind at 1, session_get.
    rewrite H0. cbn [is_request_exception exn_kind exn_str].
    unfold failed_attempt_events.
    change (seq first (S (S count))) with (first :: seq (S first) (S count)).
    cbn [flat_map].
    fold (failed_attempt_events monitoring url_config (S first) (S count)).
    destruct (Z.of_nat first <? max_retries monitoring - 1)%Z eqn:E.
    + unfold bind at 1.
      rewrite sleep_runs by (apply Hdelay; apply Z.ltb_lt in E; lia).
      cbn [ret snd fst].
      edestruct (IH (S first) (set_error (messages first) result))
        as (w' & Hrun & Hreq & Htr & Hclock); [|rewrite Hrun].
      * intros i Hi. cbn [requests].
        replace (S (requests w) + i)%nat with (requests w + S i)%nat by lia.
        rewrite Hnet by lia. do 3 f_equal. lia.
      * exists w'. rewrite set_error_twice.
        replace (S first + count)%nat with (first + S count)%nat by lia.
        split; [reflexivity|]. cbn [requests trace clock] in Hreq, Htr, Hclock.
        split; [lia|]. split.
        -- rewrite Htr. rewrite <- !app_assoc. reflexivity.
        -- change (clock w' ==
                   clock w + (retry_delay_seconds monitoring
                     + total (sleeps_of (failed_attempt_events monitoring
                                url_config (S first) (S count)))))%Q.
           rewrite Hclock. ring.
    + cbn [ret bind snd fst].
      edestruct (IH (S first) (set_error (messages first) result))
        as (w' & Hrun & Hreq & Htr & Hclock); [|rewrite Hrun].
      * intros i Hi. cbn [requests].
        replace (S (requests w) + i)%nat with (requests w + S i)%nat by lia.
        rewrite Hnet by lia. do 3 f_equal. lia.
      * exists w'. rewrite set_error_twice.
        replace (S first + count)%nat with (first + S count)%nat by lia.
        split; [reflexivity|]. cbn [requests trace clock] in Hreq, Htr, Hclock.
        split; [lia|]. split.
        -- rewrite Htr. rewrite <- !app_assoc. reflexivity.
        -- change (clock w' ==
                   clock w + total (sleeps_of (failed_attempt_events monitoring
                                url_config (S first) (S count))))%Q.
           exact Hclock.
Qed.

Lemma failed_attempt_events_step (url_config : Target) (first count : nat) :
  failed_attempt_events monitoring url_config first (S count)
  = Get (url url_config) (timeout_seconds monitoring) (headers url_config)
    :: (if (Z.of_nat first <? max_retries monitoring - 1)%Z
        then [Sleep (retry_delay_seconds monitoring)] else [])
    ++ failed_attempt_events monitoring url_config (S first) count.
Proof. reflexivity. Qed.

Lemma failed_attempt_events_sleeps (url_config : Target) :
  ∀ count first,
    Z.of_nat (first + S count) = max_retries monitoring →
    sleeps_of (failed_attempt_events monitoring url_config first (S count))
    = repeat (retry_delay_seconds monitoring) count.
Proof.
  induction count as [|count IH]; intros first Hlast;
    rewrite failed_attempt_events_step.
  - destruct (Z.ltb_spec (Z.of_nat first) (max_retries monitoring - 1));
      [lia|reflexivity].
  - destruct (Z.ltb_spec (Z.of_nat first) (max_retries monitoring - 1));
      [|lia].
    change (sleeps_of (?g :: [?s] ++ ?rest)) with (sleeps_of [g; s] ++ sleeps_of rest).
    rewrite IH by lia. reflexivity.
Qed.

Lemma failed_attempt_events_gets (url_config : Target) :
  ∀ count first,
    gets_of (failed_attempt_events monitoring url_config first count)
    = repeat (url url_config) count.
Proof.
  induction count as [|count IH]; intros first; [reflexivity|].
  rewrite failed_attempt_events_step.
  destruct (Z.of_nat first <? max_retries monitoring - 1)%Z; cbn.
  - f_equal. apply IH.
  - f_equal. apply IH.
Qed.

Lemma failed_attempt_events_end (url_config : Target) :
  ∀ count first,
    Z.of_nat (first + S count) = max_retries monitoring →
    ∃ earlier,
      failed_attempt_events monitoring url_config first (S count)
      = earlier ++ [Get (url url_config) (timeout_seconds monitoring)
                      (headers url_config)].
Proof.
  induction count as [|count IH]; intros first Hlast;
    rewrite failed_attempt_events_step.
  - destruct (Z.ltb_spec (Z.of_nat first) (max_retries monitoring - 1));
      [lia|]. exists []. reflexivity.
  - destruct (IH (S first)) as [earlier Hearlier]; [lia|].
    rewrite Hearlier. eexists (_ :: _ ++ earlier).
    rewrite <- app_comm_cons, <- app_assoc. reflexivity.
Qed.

Lemma total_repeat (d : Q) (n : nat) :
  (total (repeat d n) == inject_Z (Z.of_nat n) * d)%Q.
Proof.
  induction n as [|n IH].
  - cbn. ring.
  - change (total (repeat d (S n))) with (d + total (repeat d n))%Q.
    rewrite IH, Nat2Z.inj_succ. unfold Z.succ. rewrite inject_Z_plus. ring.
Qed.

(** C3, as the code has it: when each of the [max_retries >= 1] attempts
    meets a RequestException and, whenever there is more than one attempt,
    the delay is a length [time.sleep] accepts (not negative, and within
    the range of its timer), [check_url] issues exactly [max_retries]
    requests, sleeps [retry_delay_seconds] after each failed attempt but
    the last, [(max_retries - 1) * retry_delay_seconds] in total, and
    returns a result with status DOWN whose error is the message of the
    last failure. *)
Theorem check_url_all_attempts_fail (url_config : Target) (w : World)
    (messages : nat → string) :
  1 <= max_retries monitoring →
  (1 < max_retries monitoring →
   sleep_error sleepable (retry_delay_seconds monitoring) = None) →
  (∀ i, (i < Z.to_nat (max_retries monitoring))%nat →
        network (requests w + i)%nat (url url_config)
        = GetRaises (Exn RequestException (messages i))) →
  let n := Z.to_nat (max_retries monitoring) in
  let events := failed_attempt_events monitoring url_config 0 n in
  ∃ result w',
    check_url sleepable monitoring network url_config w = (Returns result, w')
    ∧ requests w' = (requests w + n)%nat
    ∧ trace w' = trace w ++ events
    ∧ gets_of events = repeat (url url_config) n
    ∧ sleeps_of events = repeat (retry_delay_seconds monitoring) (n - 1)
    ∧ (∃ earlier,
         events = earlier ++ [Get (url url_config) (timeout_seconds monitoring)
                                (headers url_config)])
    ∧ (total (sleeps_of events)
       == inject_Z (max_retries monitoring - 1) * retry_delay_seconds monitoring)%Q
    ∧ (clock w' ==
       clock w
       + inject_Z (max_retries monitoring - 1) * retry_delay_seconds monitoring)%Q
    ∧ status result = "DOWN"
    ∧ status_code result = None
    ∧ error result = Some (messages (n - 1)%nat).
Proof.
  intros Hretries Hdelay Hnet n events.
  destruct n as [|count] eqn:En; [lia|].
  assert (Hlast : Z.of_nat (0 + S count) = max_retries monitoring) by lia.
  destruct (attempts_all_fail url_config messages Hdelay count 0
              {| result_url := url url_config;
                 result_name := name url_config;
                 timestamp := clock w;
                 status := "DOWN";
                 response_time := None;
                 status_code := None;
                 error := None |} w)
    as (w' & Hrun & Hreq & Htr & Hclock).
  { intros i Hi. rewrite Hnet by lia. reflexivity. }
  assert (Hsleeps := failed_attempt_events_sleeps url_config count 0 Hlast).
  assert (Htotal :
    (total (sleeps_of events)
     == inject_Z (max_retries monitoring - 1) * retry_delay_seconds monitoring)%Q).
  { subst events. rewrite Hsleeps, total_repeat.
    replace (Z.of_nat count) with (max_retries monitoring - 1) by lia.
    reflexivity. }
  eexists _, w'. split.
  { unfold check_url, bind at 1, get_world, range.
    fold n. rewrite En. exact Hrun. }
  split; [exact Hreq|]. split; [exact Htr|].
  split; [apply failed_attempt_events_gets|].
  split; [rewrite Nat.sub_succ, Nat.sub_0_r; exact Hsleeps|].
  split; [apply failed_attempt_events_end; exact Hlast|].
  split; [exact Htotal|].
  split; [rewrite Hclock; fold events; rewrite Htotal; reflexivity|].
  split; [reflexivity|]. split; [reflexivity|].
  cbn. rewrite Nat.sub_0_r. reflexivity.
Qed.

(** *** One monitoring cycle *)

(** What one target contributes to the cycle. *)
Lemma monitor_each_step (url_config : Target) (rest : list Target)
    (results : list Result) (w : World) :
  monitor_each sleepable monitoring network (url_config :: rest) results w
  = match check_url sleepable monitoring network url_config w with
    | (Returns result, w') =>
        monitor_each sleepable monitoring network rest (results ++ [result]) w'
    | (Raises e, w') =>
        monitor_each sleepable monitoring network rest
          (results ++ [error_result url_config (clock w') e]) w'
    end.
Proof.
  cbn [monitor_each]. unfold bind at 1, try_except, bind at 1.
  destruct (check_url sleepable monitoring network url_config w) as [[result|e] w'];
    reflexivity.
Qed.

Lemma check_url_result_names (url_config : Target) (w w' : World)
    (result : Result) :
  check_url sleepable monitoring network url_config w = (Returns result, w') →
  result_url result = url url_config ∧ result_name result = name url_config.
Proof.
  unfold check_url, bind at 1, get_world.
  set (initial := {| result_url := url url_config |}).
  assert (Hinit : result_url initial = url url_config
                  ∧ result_name initial = name url_config) by (split; reflexivity).
  clearbody initial. revert initial Hinit w.
  induction (range (max_retries monitoring)) as [|attempt todo IH];
    intros initial Hinit w.
  - cbn. intros [= <- <-]. exact Hinit.
  - cbn [attempts]. unfold bind at 1, try_except, bind at 1, session_get.
    destruct (network (requests w) (url url_config)) as [code elapsed|e].
    + cbn [ret fst snd].
      destruct (String.eqb _ "UP").
      * intros [= <- <-]. exact Hinit.
      * apply IH. exact Hinit.
    + destruct (is_request_exception e); [|discriminate].
      unfold bind at 1.
      destruct (attempt <? max_retries monitoring - 1)%Z.
      * unfold sleep.
        destruct (sleep_error sleepable (retry_delay_seconds monitoring));
          [discriminate|].
        cbn [modify ret fst snd]. apply IH. exact Hinit.
      * cbn [ret fst snd]. apply IH. exact Hinit.
Qed.

(** The cycle never raises, and appends one result per target, in the
    order of the targets. *)
Lemma monitor_each_total :
  ∀ (urls : list Target) (results : list Result) (w : World),
    ∃ new w',
      monitor_each sleepable monitoring network urls results w
      = (Returns (results ++ new), w')
      ∧ length new = length urls
      ∧ map result_url new = map url urls
      ∧ map result_name new = map name urls.
Proof.
  induction urls as [|url_config rest IH]; intros results w.
  - exists [], w. rewrite app_nil_r. repeat split; reflexivity.
  - rewrite monitor_each_step.
    destruct (check_url sleepable monitoring network url_config w)
      as [[result|e] w1] eqn:Hcheck.
    + destruct (check_url_result_names _ _ _ _ Hcheck) as [Hu Hn].
      destruct (IH (results ++ [result]) w1) as (new & w' & Hrun & Hlen & Hurls & Hnames).
      exists (result :: new), w'. rewrite Hrun, <- app_assoc.
      cbn. rewrite Hlen, Hurls, Hnames, Hu, Hn. repeat split; reflexivity.
    + destruct (IH (results ++ [error_result url_config (clock w1) e]) w1)
        as (new & w' & Hrun & Hlen & Hurls & Hnames).
      exists (error_result url_config (clock w1) e :: new), w'.
      rewrite Hrun, <- app_assoc.
      cbn. rewrite Hlen, Hurls, Hnames. repeat split; reflexivity.
Qed.

(** Running the cycle over [before ++ after] is running it over [before]
    and then over [after], from the results and the world reached. *)
Lemma monitor_each_app :
  ∀ (before after : list Target) (results : list Result) (w : World),
    monitor_each sleepable monitoring network (before ++ after) results w
    = match monitor_each sleepable monitoring network before results w with
      | (Returns results', w') =>
          monitor_each sleepable monitoring network after results' w'
      | (Raises e, w') => (Raises e, w')
      end.
Proof.
  induction before as [|url_config before IH]; intros after results w.
  - reflexivity.
  - rewrite <- app_comm_cons, !monitor_each_step.
    destruct (check_url sleepable monitoring network url_config w) as [[result|e] w1];
      apply IH.
Qed.

(** C6: one cycle returns one result per target, in the order of the
    targets, and never raises; a target whose check raises gets a result
    with status ERROR and the message of the exception, and the targets
    after it are checked all the same. *)
Theorem monitor_urls_one_result_per_target (urls : list Target) (w : World) :
  ∃ results w',
    monitor_urls sleepable monitoring network urls w = (Returns results, w')
    ∧ length results = length urls
    ∧ map result_url results = map url urls
    ∧ map result_name results = map name urls
    ∧ ∀ before url_config after results_before w_before,
        urls = before ++ url_config :: after →
        monitor_urls sleepable monitoring network before w
        = (Returns results_before, w_before) →
        (∀ result w1,
           check_url sleepable monitoring network url_config w_before
           = (Returns result, w1) →
           results !! length before = Some result)
        ∧ (∀ e w1,
             check_url sleepable monitoring network url_config w_before
             = (Raises e, w1) →
             ∃ failed results_after,
               results !! length before = Some failed
               ∧ status failed = "ERROR"
               ∧ error failed = Some (exn_str e)
               ∧ result_url failed = url url_config
               ∧ result_name failed = name url_config
               ∧ results = results_before ++ failed :: results_after
               ∧ length results_after = length after
               ∧ map result_url results_after = map url after).
Proof.
  unfold monitor_urls.
  destruct (monitor_each_total urls [] w)
    as (results & w' & Hrun & Hlen & Hurls & Hnames).
  cbn [app] in Hrun. exists results, w'.
  split; [exact Hrun|]. split; [exact Hlen|].
  split; [exact Hurls|]. split; [exact Hnames|].
  intros before url_config after results_before w_before -> Hbefore.
  rewrite monitor_each_app, Hbefore, monitor_each_step in Hrun.
  destruct (monitor_each_total before [] w)
    as (new & w1' & Hrun' & Hlen' & _ & _).
  rewrite Hbefore in Hrun'. cbn [app] in Hrun'.
  injection Hrun' as -> ->.
  split.
  - intros result w1 Hcheck. rewrite Hcheck in Hrun.
    destruct (monitor_each_total after (new ++ [result]) w1)
      as (rest & w2 & Hrest & _).
    rewrite Hrest in Hrun. injection Hrun as <- <-.
    rewrite <- app_assoc, <- Hlen'. apply list_lookup_middle. reflexivity.
  - intros e w1 Hcheck. rewrite Hcheck in Hrun.
    destruct (monitor_each_total after
                (new ++ [error_result url_config (clock w1) e]) w1)
      as (rest & w2 & Hrest & Hlen_rest & Hurls_rest & _).
    rewrite Hrest in Hrun. injection Hrun as <- <-.
    exists (error_result url_config (clock w1) e), rest.
    rewrite <- app_assoc.
    split; [rewrite <- Hlen'; apply list_lookup_middle; reflexivity|].
    repeat split; assumption.
Qed.

(** C9: with [max_retries <= 0] the loop of [check_url] has no iteration:
    no request is issued, nothing is slept (the world is left as it was),
    and the result is the initial one: status DOWN, no error, no status
    code, no response time. *)
Theorem check_url_without_attempts (url_config : Target) (w : World) :
  max_retries monitoring <= 0 →
  check_url sleepable monitoring network url_config w =
    (Returns {| result_url := url url_config;
                result_name := name url_config;
                timestamp := clock w;
                status := "DOWN";
                response_time := None;
                status_code := None;
                error := None |}, w).
Proof.
  intros Hn. unfold check_url, bind, get_world.
  rewrite (range_nonpositive _ Hn). reflexivity.
Qed.
End URLMonitorProperties.

Lemma check_url_without_attempts_witness :
  Monitor.max_retries Monitor.no_attempt_monitoring <= 0
  ∧ Monitor.check_url Monitor.int64_nanoseconds
      Monitor.no_attempt_monitoring Monitor.always_timeout
      Monitor.sample_target Monitor.fresh_world
    = (Returns {| Monitor.result_url := "https://example.com/health";
                  Monitor.result_name := "example";
                  Monitor.timestamp := 0;
                  Monitor.status := "DOWN";
                  Monitor.response_time := None;
                  Monitor.status_code := None;
                  Monitor.error := None |}, Monitor.fresh_world).
Proof.
  split; [cbn; lia|].
  apply (check_url_without_attempts Monitor.int64_nanoseconds
           Monitor.no_attempt_monitoring
           Monitor.always_timeout Monitor.sample_target Monitor.fresh_world).
  cbn. lia.
Defined.

Lemma check_url_all_attempts_fail_witness :
  1 <= Monitor.max_retries Monitor.sample_monitoring
  ∧ Monitor.sleep_error Monitor.int64_nanoseconds
      (Monitor.retry_delay_seconds Monitor.sample_monitoring) = None
  ∧ ∃ result w',
      Monitor.check_url Monitor.int64_nanoseconds Monitor.sample_monitoring
        Monitor.always_timeout Monitor.sample_target Monitor.fresh_world
      = (Returns result, w')
      ∧ Monitor.requests w' = 3%nat
      ∧ Monitor.sleeps_of (Monitor.trace w') = [1 # 2; 1 # 2]%Q
      ∧ Monitor.status result = "DOWN"
      ∧ Monitor.error result = Some "timeout 2".
Proof.
  split; [cbn; lia|]. split; [vm_compute; reflexivity|].
  destruct (check_url_all_attempts_fail Monitor.int64_nanoseconds
              Monitor.sample_monitoring Monitor.always_timeout
              Monitor.sample_target Monitor.fresh_world
              (λ i, "timeout " +:+ pretty i))
    as (result & w' & Hrun & Hreq & Htr & _ & Hsleeps & _ & _ & _ & Hst & _ & Herr).
  - cbn; lia.
  - intros _. vm_compute. reflexivity.
  - intros i _. reflexivity.
  - exists result, w'. split; [exact Hrun|]. split; [exact Hreq|].
    split; [rewrite Htr; exact Hsleeps|]. split; [exact Hst|exact Herr].
Defined.

(** C3 as stated fails.  With three attempts, every one of which would
    time out, and a delay of minus half a second, [check_url] does not
    return DOWN after three requests: the sleep after the first failed
    attempt raises ValueError, and [check_url] raises it after that one
    request.  The same happens with a delay of 1e10 seconds, which
    [time.sleep] cannot convert: OverflowError after one request. *)
Lemma check_url_raises_when_sleep_refuses :
  1 <= Monitor.max_retries Monitor.negative_delay_monitoring
  ∧ Monitor.check_url Monitor.int64_nanoseconds
      Monitor.negative_delay_monitoring Monitor.always_timeout
      Monitor.sample_target Monitor.fresh_world
    = (Raises (Exn ValueError "sleep length must be non-negative"),
       {| Monitor.clock := 0; Monitor.requests := 1;
          Monitor.trace := [Monitor.Get "https://example.com/health" 5 []] |})
  ∧ 1 <= Monitor.max_retries Monitor.huge_delay_monitoring
  ∧ Monitor.check_url Monitor.int64_nanoseconds
      Monitor.huge_delay_monitoring Monitor.always_timeout
      Monitor.sample_target Monitor.fresh_world
    = (Raises (Exn OverflowError
                 "timestamp too large to convert to C _PyTime_t"),
       {| Monitor.clock := 0; Monitor.requests := 1;
          Monitor.trace := [Monitor.Get "https://example.com/health" 5 []] |}).
Proof.
  split; [cbn; lia|]. split; [vm_compute; reflexivity|].
  split; [cbn; lia|]. vm_compute. reflexivity.
Qed.

Lemma monitor_urls_one_result_per_target_witness :
  ∃ first failed last w',
    Monitor.monitor_urls Monitor.int64_nanoseconds Monitor.sample_monitoring
      Monitor.second_request_breaks
      [Monitor.sample_target; Monitor.other_target; Monitor.sample_target]
      Monitor.fresh_world
    = (Returns [first; failed; last], w')
    ∧ Monitor.status failed = "ERROR"
    ∧ Monitor.error failed = Some "boom"
    ∧ Monitor.result_url failed = "https://example.org/".
Proof.
  destruct (monitor_urls_one_result_per_target Monitor.int64_nanoseconds
              Monitor.sample_monitoring
              Monitor.second_request_breaks
              [Monitor.sample_target; Monitor.other_target; Monitor.sample_target]
              Monitor.fresh_world)
    as (results & w' & Hrun & Hlen & _ & _ & Hsplit).
  destruct (Hsplit [Monitor.sample_target] Monitor.other_target
              [Monitor.sample_target] _ _ eq_refl eq_refl) as [_ Herror].
  destruct (Herror _ _ eq_refl)
    as (failed & results_after & _ & Hst & Herr & Hurl & _ & Hres & Hafter & _).
  destruct results_after as [|last [|]]; try discriminate Hafter.
  eexists _, failed, last, w'.
  split; [rewrite Hrun, Hres; reflexivity|].
  split; [exact Hst|]. split; [exact Herr|exact Hurl].
Defined.

(** * Properties of the configuration validator *)

Section ConfigValidatorProperties.
Import Monitor.
Variable urlparse : string → option ParseResult.

Lemma is_not_dict_get (test : json → bool) (key : string)
    (members : list (string * json)) :
  test JNull = false →
  is_not test (dict_get (JObject members) key JNull)
  = Returns (negb (has key test (JObject members))).
Proof.
  intros Hnull. unfold is_not, dict_get, has, member, and_then.
  destruct (lookup_key key members); cbn; [reflexivity|].
  rewrite Hnull. reflexivity.
Qed.

(** The loop over the targets accepts exactly the lists of accepted
    targets. *)
Lemma validate_urls_accepts (items : list json) :
  verdict_of (validate_urls urlparse items)
  = forallb (accepts_target urlparse) items.
Proof.
  induction items as [|t items IH]; [reflexivity|].
  cbn [validate_urls forallb all_in].
  destruct t as [| b | n | x | s | l | members]; try reflexivity.
  - (* a str: the three keys may be substrings, but it is not subscriptable *)
    cbn. destruct (is_substring "name" s); [|reflexivity].
    cbn. destruct (is_substring "url" s); [|reflexivity].
    cbn. destruct (is_substring "expected_status" s); reflexivity.
  - (* a list: the three keys may be elements, but it is not subscriptable *)
    cbn. destruct (existsb _ l); [|reflexivity].
    cbn. destruct (existsb _ l); [|reflexivity].
    cbn. destruct (existsb _ l); reflexivity.
  - unfold accepts_target, has, member, anything.
    cbn [contains and_then getitem].
    destruct (lookup_key "name" members) as [vn|]; [|reflexivity].
    rewrite bool_decide_eq_true_2 by eauto.
    destruct (lookup_key "url" members) as [vu|]; [|reflexivity].
    rewrite bool_decide_eq_true_2 by eauto.
    destruct (lookup_key "expected_status" members) as [ve|].
    + rewrite bool_decide_eq_true_2 by eauto. cbn [negb and_then].
      destruct (validate_url urlparse vu); cbn; [|reflexivity].
      rewrite IH. reflexivity.
    + rewrite bool_decide_eq_false_2 by (intros [? [=]]). cbn.
      rewrite andb_false_r. reflexivity.
Qed.
Lemma validate_sections_accepts (monitoring security : json) :
  verdict_of (validate_sections urlparse monitoring security)
  = accepts_sections urlparse monitoring security.
Proof.
  unfold validate_sections, accepts_sections.
  destruct monitoring as [| | | | | | mm]; try reflexivity.
  rewrite !is_not_dict_get by reflexivity. cbn [any_of and_then].
  destruct (has "interval_minutes" _ _); [|reflexivity].
  destruct (has "timeout_seconds" _ _); [|reflexivity].
  destruct (has "max_retries" _ _); [|reflexivity].
  destruct (has "retry_delay_seconds" _ _); [|reflexivity].
  cbn [negb andb].
  destruct security as [| | | | | | sm]; try reflexivity.
  rewrite !is_not_dict_get by reflexivity. cbn [any_of and_then].
  destruct (has "max_urls" _ (JObject sm)) eqn:Hmax; [|reflexivity].
  destruct (has "allowed_schemes" _ _); [|reflexivity].
  destruct (has "max_timeout_seconds" _ _); [|reflexivity].
  destruct (has "max_interval_minutes" _ _); [|reflexivity].
  cbn [negb andb].
  unfold accepts_urls, urls_of. cbn [dict_get member and_then getitem].
  unfold has, member in Hmax.
  destruct (lookup_key "max_urls" sm) as [limit|]; [|discriminate].
  destruct (lookup_key "urls" mm) as [urls|]; cbn [default from_option id].
  - destruct urls as [| | | | | items |]; try reflexivity.
    cbn [isinstance_list negb any_of and_then len getitem].
    destruct limit as [| b | n | | | |]; try discriminate;
      cbn [int_value and_then as_int mbind option_bind].
    + rewrite Z.leb_antisym.
      destruct (_ <? _)%Z; cbn; [reflexivity|]. apply validate_urls_accepts.
    + rewrite Z.leb_antisym.
      destruct (_ <? _)%Z; cbn; [reflexivity|]. apply validate_urls_accepts.
  - cbn [isinstance_list negb any_of and_then len getitem].
    destruct limit as [| b | n | | | |]; try discriminate;
      cbn [int_value and_then as_int mbind option_bind].
    + rewrite Z.leb_antisym.
      destruct (_ <? _)%Z; cbn; reflexivity.
    + rewrite Z.leb_antisym.
      destruct (_ <? _)%Z; cbn; reflexivity.
Qed.

(** The validator computes its closed form. *)
Lemma validate_config_accepts (config : json) :
  validate_config urlparse config = accepts_config urlparse config.
Proof.
  unfold validate_config, validate_config_body, accepts_config.
  destruct config as [| | | | | | members]; try reflexivity.
  cbn [dict_get member and_then].
  destruct (lookup_key "monitoring" members) as [monitoring|];
    destruct (lookup_key "security" members) as [security|];
    cbn [default from_option id]; rewrite validate_sections_accepts;
    try reflexivity.
  unfold accepts_sections.
  change (has "max_urls" isinstance_int (JObject [])) with false.
  rewrite !andb_false_r. reflexivity.
Qed.
Lemma has_weaken (key : string) (strong weak : json → bool) (d : json) :
  (∀ v, strong v = true → weak v = true) →
  has key strong d = true → has key weak d = true.
Proof.
  unfold has. intros Himp. destruct (member key d); [apply Himp|discriminate].
Qed.

Lemma has_member (key : string) (test : json → bool) (d : json) :
  has key test d = true ↔ ∃ v, member key d = Some v ∧ test v = true.
Proof.
  unfold has. destruct (member key d) as [v|].
  - split; [eauto|]. intros (v' & [= <-] & Hv). exact Hv.
  - split; [discriminate|]. intros (v' & [=] & _).
Qed.

Lemma spec_url_validates (v : json) :
  spec_absolute_https_url urlparse v = true → validate_url urlparse v = true.
Proof.
  destruct v as [| | | | s | |]; try discriminate. cbn.
  destruct (urlparse s) as [result|]; [|discriminate].
  intros [Hscheme Hnetloc]%andb_prop.
  apply String.eqb_eq in Hscheme. unfold truthy. rewrite Hscheme, Hnetloc.
  reflexivity.
Qed.

Lemma validate_url_scheme (v : json) :
  validate_url urlparse v = true → url_scheme urlparse v = Some "https".
Proof.
  destruct v as [| | | | s | |]; try discriminate. cbn.
  destruct (urlparse s) as [result|]; [|discriminate].
  intros [_ Hscheme]%andb_prop. cbn in Hscheme.
  rewrite orb_false_r in Hscheme. apply String.eqb_eq in Hscheme.
  cbn. congruence.
Qed.

Lemma spec_target_accepted (t : json) :
  spec_valid_target urlparse t = true → accepts_target urlparse t = true.
Proof.
  unfold spec_valid_target, accepts_target.
  intros [[Hname Hurl]%andb_prop Hstatus]%andb_prop.
  rewrite Hname, Hstatus, (has_weaken _ _ _ _ spec_url_validates Hurl).
  reflexivity.
Qed.

(** What an accepted document is made of. *)
Lemma accepts_config_inv (config : json) :
  accepts_config urlparse config = true →
  ∃ monitoring security items limit,
    member "monitoring" config = Some monitoring
    ∧ member "security" config = Some security
    ∧ has "max_retries" isinstance_int monitoring = true
    ∧ urls_of monitoring = Some items
    ∧ member "max_urls" security ≫= as_int = Some limit
    ∧ Z.of_nat (length items) <= limit
    ∧ forallb (accepts_target urlparse) items = true.
Proof.
  unfold accepts_config.
  destruct (member "monitoring" config) as [monitoring|]; [|discriminate].
  destruct (member "security" config) as [security|]; [|discriminate].
  unfold accepts_sections. rewrite !andb_true_iff.
  intros [[[[[[[[_ _] Hretries] _] _] _] _] _] Hurls].
  unfold accepts_urls in Hurls.
  destruct (urls_of monitoring) as [items|] eqn:Hitems; [|discriminate].
  destruct (member "max_urls" security ≫= as_int) as [limit|] eqn:Hlimit;
    [|discriminate].
  apply andb_prop in Hurls as [Hlen Hall]. apply Z.leb_le in Hlen.
  exists monitoring, security, items, limit.
  repeat split; first [assumption | reflexivity].
Qed.

Lemma targets_urls_of (config monitoring : json) (items : list json) :
  member "monitoring" config = Some monitoring →
  targets config = Some items →
  urls_of monitoring = Some items.
Proof.
  unfold targets, urls_of. intros ->. cbn.
  destruct (member "urls" monitoring) as [[]|]; congruence.
Qed.

Lemma rejected_target (config : json) (items : list json) (t : json) :
  targets config = Some items → In t items →
  accepts_target urlparse t = false →
  validate_config urlparse config = false.
Proof.
  intros Htargets Hin Ht. rewrite validate_config_accepts.
  destruct (accepts_config urlparse config) eqn:Hacc; [exfalso|reflexivity].
  apply accepts_config_inv in Hacc
    as (monitoring & security & items' & limit & Hmon & _ & _ & Hurls & _ & _ & Hall).
  rewrite (targets_urls_of _ _ _ Hmon Htargets) in Hurls.
  injection Hurls as <-.
  rewrite forallb_forall in Hall. rewrite (Hall t Hin) in Ht. discriminate.
Qed.

(** C4: [validate_config] returns true on every document that meets the
    constraints of the specification; it returns false when a target has a
    url whose scheme is not https, when a target lacks 'name', 'url' or
    'expected_status', and when there are more targets than 'max_urls';
    and an exception raised by the checks becomes the verdict false. *)
Theorem validate_config_verdicts (config : json) :
  (spec_valid_config urlparse config = true →
   validate_config urlparse config = true)
  ∧ (∀ items t u,
       targets config = Some items → In t items →
       member "url" t = Some u → url_scheme urlparse u ≠ Some "https" →
       validate_config urlparse config = false)
  ∧ (∀ items t key,
       targets config = Some items → In t items →
       In key ["name"; "url"; "expected_status"] → member key t = None →
       validate_config urlparse config = false)
  ∧ (∀ items max_urls limit,
       targets config = Some items →
       member "security" config ≫= member "max_urls" = Some max_urls →
       as_int max_urls = Some limit →
       limit < Z.of_nat (length items) →
       validate_config urlparse config = false)
  ∧ (∀ e, validate_config_body urlparse config = Raises e →
          validate_config urlparse config = false).
Proof.
  split; [|split; [|split; [|split]]].
  - rewrite validate_config_accepts. unfold spec_valid_config, accepts_config.
    destruct (member "monitoring" config) as [monitoring|]; [|discriminate].
    destruct (member "security" config) as [security|]; [|discriminate].
    unfold accepts_sections. rewrite !andb_true_iff.
    intros [[[[[[[[Hi Ht] Hd] Hr] Hm] Hs] Hmt] Hmi] Hurls].
    assert (Hnum : ∀ v, spec_numeric v = true → isinstance_int_float v = true)
      by (intros []; easy).
    repeat split; try (eapply has_weaken; [|eassumption]; intros []; easy).
    unfold accepts_urls, urls_of.
    destruct (member "urls" monitoring) as [[| | | | | items |]|];
      try discriminate.
    apply andb_prop in Hurls as [Hlen Hall].
    unfold spec_within_max_urls in Hlen.
    destruct (member "max_urls" security) as [[| | limit | | | |]|];
      try discriminate.
    cbn. rewrite Hlen. cbn. apply forallb_forall. intros t Hin.
    rewrite forallb_forall in Hall. apply spec_target_accepted, Hall, Hin.
  - intros items t u Htargets Hin Hurl Hscheme.
    apply (rejected_target _ _ _ Htargets Hin).
    unfold accepts_target.
    destruct (has "url" (validate_url urlparse) t) eqn:Hhas;
      [|rewrite andb_false_r; reflexivity].
    apply has_member in Hhas as (u' & Hu' & Hvalid).
    rewrite Hurl in Hu'. injection Hu' as <-.
    apply validate_url_scheme in Hvalid. contradiction.
  - intros items t key Htargets Hin Hkey Hmissing.
    apply (rejected_target _ _ _ Htargets Hin).
    unfold accepts_target, has.
    destruct Hkey as [<-|[<-|[<-|[]]]]; rewrite Hmissing;
      rewrite ?andb_false_r; reflexivity.
  - intros items max_urls limit Htargets Hmax Hint Hlen.
    rewrite validate_config_accepts.
    destruct (accepts_config urlparse config) eqn:Hacc; [exfalso|reflexivity].
    apply accepts_config_inv in Hacc
      as (monitoring & security & items' & limit' & Hmon & Hsec & _ & Hurls & Hlimit & Hle & _).
    rewrite (targets_urls_of _ _ _ Hmon Htargets) in Hurls.
    injection Hurls as <-.
    rewrite Hsec in Hmax. cbn in Hmax. rewrite Hmax in Hlimit. cbn in Hlimit.
    rewrite Hint in Hlimit. injection Hlimit as <-. lia.
  - intros e Hraises. unfold validate_config. rewrite Hraises. reflexivity.
Qed.
Lemma lookup_set_key_same (key : string) (v : json)
    (members : list (string * json)) :
  lookup_key key (set_key key v members) = Some v.
Proof.
  induction members as [|[k old] rest IH]; cbn.
  - rewrite String.eqb_refl. reflexivity.
  - destruct (String.eqb k key) eqn:E; cbn; rewrite E; [reflexivity|exact IH].
Qed.

Lemma lookup_set_key_other (key other : string) (v : json)
    (members : list (string * json)) :
  other ≠ key →
  lookup_key other (set_key key v members) = lookup_key other members.
Proof.
  intros Hne. induction members as [|[k old] rest IH]; cbn.
  - destruct (String.eqb_spec key other); [congruence|reflexivity].
  - destruct (String.eqb_spec k key) as [->|Hk]; cbn.
    + destruct (String.eqb_spec key other); [congruence|reflexivity].
    + destruct (String.eqb k other); [reflexivity|exact IH].
Qed.

Lemma has_set_key_other (key other : string) (test : json → bool) (v : json)
    (members : list (string * json)) :
  other ≠ key →
  has other test (JObject (set_key key v members))
  = has other test (JObject members).
Proof.
  intros Hne. unfold has, member. rewrite lookup_set_key_other by exact Hne.
  reflexivity.
Qed.

(** Only the type of [max_retries] is looked at. *)
Lemma accepts_sections_max_retries (monitoring : list (string * json))
    (security v : json) :
  isinstance_int v = true →
  accepts_sections urlparse (JObject monitoring) security = true →
  accepts_sections urlparse
    (JObject (set_key "max_retries" v monitoring)) security = true.
Proof.
  intros Hv. unfold accepts_sections.
  assert (Hset : has "max_retries" isinstance_int
                   (JObject (set_key "max_retries" v monitoring)) = true).
  { unfold has, member. rewrite lookup_set_key_same. exact Hv. }
  rewrite Hset. rewrite !(has_set_key_other "max_retries") by discriminate.
  unfold accepts_urls, urls_of, member.
  rewrite lookup_set_key_other by discriminate.
  rewrite !andb_true_iff. tauto.
Qed.

(** C8, as the code has it: [validate_config] returns false on every
    document whose [max_retries] is missing or is not an int (a bool is
    one); its value is not looked at, so a document that is accepted stays
    accepted when [max_retries] is replaced by any integer, a negative one
    included. *)
Theorem validate_config_max_retries (config : json) :
  ((∀ v, max_retries_of config = Some v → isinstance_int v = false) →
   validate_config urlparse config = false)
  ∧ (validate_config urlparse config = true →
     ∀ n : Z, validate_config urlparse (with_max_retries (JInt n) config) = true).
Proof.
  split.
  - intros Hnot. rewrite validate_config_accepts.
    destruct (accepts_config urlparse config) eqn:Hacc; [exfalso|reflexivity].
    apply accepts_config_inv in Hacc
      as (monitoring & _ & _ & _ & Hmon & _ & Hretries & _).
    apply has_member in Hretries as (v & Hv & Hint).
    destruct config as [| | | | | | members]; try discriminate.
    destruct monitoring as [| | | | | | mm]; try discriminate.
    cbn in Hmon, Hv. specialize (Hnot v). cbn in Hnot.
    rewrite Hmon in Hnot. rewrite (Hnot Hv) in Hint. discriminate.
  - rewrite !validate_config_accepts. intros Hacc n.
    unfold accepts_config in Hacc.
    destruct config as [| | | | | | members]; try discriminate.
    cbn [member] in Hacc. unfold with_max_retries.
    destruct (lookup_key "monitoring" members) as [monitoring|] eqn:Hmon;
      [|discriminate].
    destruct (lookup_key "security" members) as [security|] eqn:Hsec;
      [|discriminate].
    destruct monitoring as [| | | | | | mm]; try discriminate.
    rewrite validate_config_accepts. unfold accepts_config. cbn [member].
    rewrite lookup_set_key_same, lookup_set_key_other, Hsec by discriminate.
    apply accepts_sections_max_retries; [reflexivity|exact Hacc].
Qed.
End ConfigValidatorProperties.

Lemma validate_config_verdicts_witness :
  Monitor.spec_valid_config Monitor.urlparse_model Monitor.sample_config = true
  ∧ Monitor.validate_config Monitor.urlparse_model Monitor.sample_config = true
  ∧ Monitor.validate_config Monitor.urlparse_model Monitor.plain_http_config
    = false
  ∧ Monitor.validate_config Monitor.urlparse_model Monitor.nameless_config
    = false
  ∧ Monitor.validate_config Monitor.urlparse_model Monitor.crowded_config
    = false
  ∧ Monitor.validate_config Monitor.urlparse_model (Monitor.JList []) = false.
Proof.
  split; [reflexivity|].
  split.
  { destruct (validate_config_verdicts Monitor.urlparse_model
                Monitor.sample_config) as (Hvalid & _).
    apply Hvalid. reflexivity. }
  split.
  { destruct (validate_config_verdicts Monitor.urlparse_model
                Monitor.plain_http_config) as (_ & Hscheme & _).
    eapply (Hscheme _ (Monitor.sample_entry "plain" "http://example.com/")
              (Monitor.JString "http://example.com/")).
    - reflexivity.
    - right. left. reflexivity.
    - reflexivity.
    - discriminate. }
  split.
  { destruct (validate_config_verdicts Monitor.urlparse_model
                Monitor.nameless_config) as (_ & _ & Hmissing & _).
    eapply (Hmissing _ _ "name").
    - reflexivity.
    - left. reflexivity.
    - left. reflexivity.
    - reflexivity. }
  split.
  { destruct (validate_config_verdicts Monitor.urlparse_model
                Monitor.crowded_config) as (_ & _ & _ & Hcrowded & _).
    eapply (Hcrowded _ (Monitor.JInt 1) 1).
    - reflexivity.
    - reflexivity.
    - reflexivity.
    - cbn. lia. }
  destruct (validate_config_verdicts Monitor.urlparse_model (Monitor.JList []))
    as (_ & _ & _ & _ & Hraises).
  eapply Hraises. reflexivity.
Defined.

(** C8 as stated fails: the sample document is valid, and with
    [max_retries] set to -1, which is no non-negative integer, it is still
    accepted. *)
Lemma validate_config_accepts_negative_max_retries :
  Monitor.spec_valid_config Monitor.urlparse_model Monitor.sample_config = true
  ∧ Monitor.max_retries_of
      (Monitor.with_max_retries (Monitor.JInt (-1)) Monitor.sample_config)
    = Some (Monitor.JInt (-1))
  ∧ Monitor.spec_non_negative_integer (Monitor.JInt (-1)) = false
  ∧ Monitor.validate_config Monitor.urlparse_model
      (Monitor.with_max_retries (Monitor.JInt (-1)) Monitor.sample_config)
    = true.
Proof. repeat split; reflexivity. Qed.

Lemma validate_config_max_retries_witness :
  Monitor.validate_config Monitor.urlparse_model
    (Monitor.with_max_retries (Monitor.JString "3") Monitor.sample_config)
  = false
  ∧ Monitor.validate_config Monitor.urlparse_model
      (Monitor.with_max_retries (Monitor.JInt (-1)) Monitor.sample_config)
    = true.
Proof.
  split.
  - destruct (validate_config_max_retries Monitor.urlparse_model
                (Monitor.with_max_retries (Monitor.JString "3")
                   Monitor.sample_config)) as [Hrejects _].
    apply Hrejects. intros v [= <-]. reflexivity.
  - destruct (validate_config_max_retries Monitor.urlparse_model
                Monitor.sample_config) as [_ Hkeeps].
    apply (Hkeeps eq_refl (-1)).
Defined.

(** * More on the check/retry engine *)

Section CheckUrlBehaviour.
Import Monitor.
Variable sleepable : Q → bool.
Variable monitoring : Monitoring.
Variable network : nat → string → get_result.

(** One turn of the retry loop, case by case. *)
Lemma attempts_turn (url_config : Target) (attempt : Z) (rest : list Z)
    (result : Result) (w : World) :
  attempts sleepable monitoring network url_config (attempt :: rest) result w
  = match network (requests w) (url url_config) with
    | Response code elapsed_ms =>
        if (code =? expected_status url_config)%Z
        then (Returns (update "UP" elapsed_ms code result),
              after_get monitoring url_config w)
        else attempts sleepable monitoring network url_config rest
               (update "DOWN" elapsed_ms code result) (after_get monitoring url_config w)
    | GetRaises e =>
        if is_request_exception e
        then
          if (attempt <? max_retries monitoring - 1)%Z
          then
            match sleep sleepable (retry_delay_seconds monitoring)
                    (after_get monitoring url_config w) with
            | (Returns _, w') =>
                attempts sleepable monitoring network url_config rest
                  (set_error (exn_str e) result) w'
            | (Raises e', w') => (Raises e', w')
            end
          else attempts sleepable monitoring network url_config rest
                 (set_error (exn_str e) result) (after_get monitoring url_config w)
        else (Raises e, after_get monitoring url_config w)
    end.
Proof.
  cbn [attempts]. unfold bind at 1, try_except, bind at 1, session_get.
  destruct (network (requests w) (url url_config)) as [code elapsed|e].
  - cbn [ret fst snd]. destruct (code =? expected_status url_config)%Z;
      reflexivity.
  - destruct (is_request_exception e); [|reflexivity].
    unfold bind at 1.
    destruct (attempt <? max_retries monitoring - 1)%Z; [|reflexivity].
    destruct (sleep sleepable (retry_delay_seconds monitoring) _)
      as [[[]|e'] w']; reflexivity.
Qed.

Lemma sleep_keeps_requests (d : Q) (w w' : World) (r : outcome unit) :
  sleep sleepable d w = (r, w') → requests w' = requests w.
Proof.
  unfold sleep. destruct (sleep_error sleepable d);
    intros [= <- <-]; reflexivity.
Qed.

(** The loop issues at most one request per attempt, whatever the network
    does and however the loop ends. *)
Lemma attempts_requests (url_config : Target) :
  ∀ (todo : list Z) (result : Result) (w w' : World) (r : outcome Result),
    attempts sleepable monitoring network url_config todo result w = (r, w') →
    (requests w <= requests w' <= requests w + length todo)%nat.
Proof.
  induction todo as [|attempt rest IH]; intros result w w' r.
  - cbn. intros [= <- <-]. lia.
  - rewrite attempts_turn. cbn [length].
    destruct (network (requests w) (url url_config)) as [code elapsed|e].
    + destruct (code =? expected_status url_config)%Z.
      * intros [= <- <-]. cbn. lia.
      * intros Hrun. apply IH in Hrun. cbn in Hrun. lia.
    + destruct (is_request_exception e); [|intros [= <- <-]; cbn; lia].
      destruct (attempt <? max_retries monitoring - 1)%Z.
      * destruct (sleep _ _ _) as [[[]|e'] w1] eqn:Hsleep;
          apply sleep_keeps_requests in Hsleep; cbn in Hsleep.
        -- intros Hrun. apply IH in Hrun. lia.
        -- intros [= <- <-]. lia.
      * intros Hrun. apply IH in Hrun. cbn in Hrun. lia.
Qed.

Lemma length_range (n : Z) : length (range n) = Z.to_nat n.
Proof. unfold range. rewrite length_map, length_seq. reflexivity. Qed.

(** X1: whatever the network answers, and whether [check_url] returns or
    raises, it issues at most [max_retries] requests (none when
    [max_retries] is negative). *)
Theorem check_url_request_bound (url_config : Target) (w w' : World)
    (r : outcome Result) :
  check_url sleepable monitoring network url_config w = (r, w') →
  (requests w <= requests w'
   <= requests w + Z.to_nat (max_retries monitoring))%nat.
Proof.
  unfold check_url, bind at 1, get_world. intros Hrun.
  apply attempts_requests in Hrun. rewrite length_range in Hrun. exact Hrun.
Qed.
Lemma attempts_returns (url_config : Target) :
  only_transport_failures network →
  sleep_error sleepable (retry_delay_seconds monitoring) = None →
  ∀ (todo : list Z) (result : Result) (w : World),
    (status result = "DOWN"
     ∧ ∀ code, status_code result = Some code →
               code ≠ expected_status url_config) →
    ∃ result' w',
      attempts sleepable monitoring network url_config todo result w
      = (Returns result', w')
      ∧ coherent url_config result'
      ∧ result_url result' = result_url result
      ∧ result_name result' = result_name result
      ∧ timestamp result' = timestamp result.
Proof.
  intros Honly Hdelay.
  induction todo as [|attempt rest IH]; intros result w Hdown.
  - exists result, w. split; [reflexivity|]. split; [right; exact Hdown|].
    repeat split; reflexivity.
  - rewrite attempts_turn.
    destruct (network (requests w) (url url_config)) as [code elapsed|e] eqn:Hnet.
    + destruct (Z.eqb_spec code (expected_status url_config)) as [->|Hcode].
      * eexists _, _. split; [reflexivity|].
        split; [left; split; reflexivity|]. repeat split; reflexivity.
      * destruct (IH (update "DOWN" elapsed code result)
                    (after_get monitoring url_config w))
          as (result' & w' & Hrun & Hcoherent & Hu & Hn & Ht).
        { split; [reflexivity|]. cbn. intros c [= <-]. exact Hcode. }
        exists result', w'. split; [exact Hrun|]. split; [exact Hcoherent|].
        repeat split; assumption.
    + rewrite (Honly _ _ _ Hnet).
      assert (Hkept : status (set_error (exn_str e) result) = "DOWN"
                ∧ ∀ code, status_code (set_error (exn_str e) result) = Some code →
                          code ≠ expected_status url_config) by exact Hdown.
      destruct (attempt <? max_retries monitoring - 1)%Z.
      * rewrite sleep_runs by exact Hdelay.
        destruct (IH (set_error (exn_str e) result)
                    {| clock := (clock (after_get monitoring url_config w)
                                 + retry_delay_seconds monitoring)%Q;
                       requests := requests (after_get monitoring url_config w);
                       trace := trace (after_get monitoring url_config w)
                                ++ [Sleep (retry_delay_seconds monitoring)] |}
                    Hkept)
          as (result' & w' & Hrun & Hcoherent & Hu & Hn & Ht).
        exists result', w'. split; [exact Hrun|]. split; [exact Hcoherent|].
        repeat split; assumption.
      * destruct (IH (set_error (exn_str e) result)
                    (after_get monitoring url_config w) Hkept)
          as (result' & w' & Hrun & Hcoherent & Hu & Hn & Ht).
        exists result', w'. split; [exact Hrun|]. split; [exact Hcoherent|].
        repeat split; assumption.
Qed.

(** X2: when the delay is a length [time.sleep] accepts (not negative, and
    within the range of its timer) and the HTTP client only raises
    RequestExceptions, [check_url] returns for every target and world, and
    what it returns is about the target, stamped with the time of the
    call, and coherent: UP with the expected status code, or DOWN with no
    code or an unexpected one. *)
Theorem check_url_returns_coherent (url_config : Target) (w : World) :
  only_transport_failures network →
  sleep_error sleepable (retry_delay_seconds monitoring) = None →
  ∃ result w',
    check_url sleepable monitoring network url_config w = (Returns result, w')
    ∧ coherent url_config result
    ∧ result_url result = url url_config
    ∧ result_name result = name url_config
    ∧ timestamp result = clock w.
Proof.
  intros Honly Hdelay. unfold check_url, bind at 1, get_world.
  destruct (attempts_returns url_config Honly Hdelay
              (range (max_retries monitoring))
              (initial_result url_config (clock w)) w)
    as (result & w' & Hrun & Hcoherent & Hu & Hn & Ht).
  { split; [reflexivity|]. cbn. discriminate. }
  exists result, w'. split; [exact Hrun|]. split; [exact Hcoherent|].
  repeat split; assumption.
Qed.
(** The result after [count] failed attempts, the first numbered [first]. *)
Lemma attempts_after_failures (url_config : Target) (messages : nat → string) :
  sleep_error sleepable (retry_delay_seconds monitoring) = None →
  ∀ (count first : nat) (rest : list Z) (result : Result) (w : World),
    Z.of_nat (first + count) < max_retries monitoring →
    (∀ i, (i < count)%nat →
          network (requests w + i)%nat (url url_config)
          = GetRaises (Exn RequestException (messages (first + i)%nat))) →
    ∃ w',
      attempts sleepable monitoring network url_config
        (map Z.of_nat (seq first count) ++ rest) result w
      = attempts sleepable monitoring network url_config rest
          (match count with
           | O => result
           | S less => set_error (messages (first + less)%nat) result
           end) w'
      ∧ requests w' = (requests w + count)%nat
      ∧ trace w' = trace w
                   ++ failed_attempt_events monitoring url_config first count.
Proof.
  intros Hdelay. induction count as [|count IH];
    intros first rest result w Hbelow Hnet.
  - exists w. cbn. rewrite app_nil_r, Nat.add_0_r. repeat split; reflexivity.
  - change (map Z.of_nat (seq first (S count)) ++ rest)
      with (Z.of_nat first :: (map Z.of_nat (seq (S first) count) ++ rest)).
    rewrite attempts_turn.
    pose proof (Hnet O ltac:(lia)) as H0. rewrite !Nat.add_0_r in H0.
    rewrite H0. cbn [is_request_exception exn_kind exn_str].
    destruct (Z.ltb_spec (Z.of_nat first) (max_retries monitoring - 1)); [|lia].
    rewrite sleep_runs by exact Hdelay.
    edestruct (IH (S first) rest (set_error (messages first) result))
      as (w' & Hrun & Hreq & Htrace); [| |rewrite Hrun].
    + lia.
    + intros i Hi. cbn [requests after_get].
      replace (S (requests w) + i)%nat with (requests w + S i)%nat by lia.
      rewrite Hnet by lia. do 3 f_equal. lia.
    + exists w'. split.
      * destruct count as [|less]; [rewrite Nat.add_0_r; reflexivity|].
        replace (S first + less)%nat with (first + S less)%nat by lia.
        reflexivity.
      * cbn [requests trace after_get] in Hreq, Htrace. split; [lia|].
        rewrite Htrace. unfold failed_attempt_events at 2.
        change (seq first (S count)) with (first :: seq (S first) count).
        cbn [flat_map].
        destruct (Z.ltb_spec (Z.of_nat first) (max_retries monitoring - 1));
          [|lia].
        rewrite <- !app_assoc. reflexivity.
Qed.

Lemma range_split (n : Z) (k : nat) :
  (k < Z.to_nat n)%nat →
  range n = map Z.of_nat (seq 0 k)
            ++ Z.of_nat k :: map Z.of_nat (seq (S k) (Z.to_nat n - S k)).
Proof.
  intros Hk. unfold range.
  replace (Z.to_nat n) with (k + S (Z.to_nat n - S k))%nat at 1 by lia.
  rewrite seq_app, map_app. reflexivity.
Qed.

Lemma failed_attempt_events_all_sleep (url_config : Target) :
  ∀ count first,
    Z.of_nat (first + count) < max_retries monitoring →
    sleeps_of (failed_attempt_events monitoring url_config first count)
    = repeat (retry_delay_seconds monitoring) count.
Proof.
  induction count as [|count IH]; intros first Hbelow; [reflexivity|].
  rewrite failed_attempt_events_step.
  destruct (Z.ltb_spec (Z.of_nat first) (max_retries monitoring - 1)); [|lia].
  change (sleeps_of (?g :: [?s] ++ ?rest))
    with (sleeps_of [g; s] ++ sleeps_of rest).
  rewrite IH by lia. reflexivity.
Qed.

(** X3: the retry loop stops at the first success.  When the delay is a
    length [time.sleep] accepts (not negative, and within the range of its
    timer), the first [k] attempts meet a RequestException and the next
    one, still within [max_retries], is answered with the expected status,
    [check_url] issues exactly [k + 1] requests and sleeps [k] times, and
    returns UP with the code and time of that answer; the error of the
    last failed attempt, if there was one, stays in the result. *)
Theorem check_url_stops_at_first_success (url_config : Target) (w : World)
    (messages : nat → string) (k : nat) (elapsed_ms : Q) :
  sleep_error sleepable (retry_delay_seconds monitoring) = None →
  (k < Z.to_nat (max_retries monitoring))%nat →
  (∀ i, (i < k)%nat →
        network (requests w + i)%nat (url url_config)
        = GetRaises (Exn RequestException (messages i))) →
  network (requests w + k)%nat (url url_config)
  = Response (expected_status url_config) elapsed_ms →
  ∃ result w',
    check_url sleepable monitoring network url_config w = (Returns result, w')
    ∧ requests w' = (requests w + S k)%nat
    ∧ trace w' = trace w
                 ++ failed_attempt_events monitoring url_config 0 k
                 ++ [get_event monitoring url_config]
    ∧ sleeps_of (failed_attempt_events monitoring url_config 0 k)
      = repeat (retry_delay_seconds monitoring) k
    ∧ status result = "UP"
    ∧ status_code result = Some (expected_status url_config)
    ∧ response_time result = Some elapsed_ms
    ∧ error result = match k with
                     | O => None
                     | S less => Some (messages less)
                     end.
Proof.
  intros Hdelay Hk Hfail Hanswer.
  unfold check_url, bind at 1, get_world. rewrite (range_split _ k Hk).
  destruct (attempts_after_failures url_config messages Hdelay k 0
              (Z.of_nat k
               :: map Z.of_nat (seq (S k) (Z.to_nat (max_retries monitoring) - S k)))
              (initial_result url_config (clock w)) w)
    as (w1 & Hrun & Hreq & Htrace).
  { cbn. lia. }
  { intros i Hi. rewrite (Hfail i Hi). reflexivity. }
  fold (initial_result url_config (clock w)). rewrite Hrun, attempts_turn.
  rewrite Hreq, Hanswer, Z.eqb_refl.
  eexists _, _. split; [reflexivity|].
  cbn [requests trace after_get]. split; [lia|].
  split; [rewrite Htrace, <- app_assoc; reflexivity|].
  split; [apply failed_attempt_events_all_sleep; cbn; lia|].
  destruct k; repeat split; reflexivity.
Qed.

(** An answer with another status than the expected one is retried at once,
    without a sleep. *)
Lemma attempts_all_unexpected (url_config : Target)
    (codes : nat → Z) (times : nat → Q) :
  ∀ (count first : nat) (result : Result) (w : World),
    (∀ i, (i <= count)%nat →
          network (requests w + i)%nat (url url_config)
          = Response (codes (first + i)%nat) (times (first + i)%nat)
          ∧ codes (first + i)%nat ≠ expected_status url_config) →
    attempts sleepable monitoring network url_config
      (map Z.of_nat (seq first (S count))) result w
    = (Returns (update "DOWN" (times (first + count)%nat)
                  (codes (first + count)%nat) result),
       {| clock := clock w;
          requests := (requests w + S count)%nat;
          trace := trace w
                   ++ repeat (get_event monitoring url_config) (S count) |}).
Proof.
  induction count as [|count IH]; intros first result w Hnet.
  - destruct (Hnet O (Nat.le_refl _)) as [H0 Hcode].
    rewrite !Nat.add_0_r in H0. rewrite !Nat.add_0_r in Hcode.
    rewrite !Nat.add_0_r.
    cbn [seq map]. rewrite attempts_turn, H0.
    destruct (Z.eqb_spec (codes first) (expected_status url_config));
      [contradiction|].
    cbn. unfold after_get. rewrite Nat.add_1_r. reflexivity.
  - destruct (Hnet O ltac:(lia)) as [H0 Hcode].
    rewrite !Nat.add_0_r in H0. rewrite !Nat.add_0_r in Hcode.
    change (map Z.of_nat (seq first (S (S count))))
      with (Z.of_nat first :: map Z.of_nat (seq (S first) (S count))).
    rewrite attempts_turn, H0.
    destruct (Z.eqb_spec (codes first) (expected_status url_config));
      [contradiction|].
    rewrite IH.
    + replace (S first + count)%nat with (first + S count)%nat by lia.
      cbn [requests clock trace after_get]. f_equal. f_equal.
      * lia.
      * rewrite <- app_assoc. reflexivity.
    + intros i Hi. cbn [requests after_get].
      replace (S (requests w) + i)%nat with (requests w + S i)%nat by lia.
      replace (S first + i)%nat with (first + S i)%nat by lia.
      apply Hnet. lia.
Qed.

(** X4: when every attempt is answered, but never with the expected
    status, [check_url] issues its [max_retries] requests back to back: it
    never sleeps, the clock does not move, and it returns DOWN with the code
    and time of the last answer and no error. *)
Theorem check_url_unexpected_status (url_config : Target) (w : World)
    (codes : nat → Z) (times : nat → Q) :
  1 <= max_retries monitoring →
  (∀ i, (i < Z.to_nat (max_retries monitoring))%nat →
        network (requests w + i)%nat (url url_config)
        = Response (codes i) (times i)
        ∧ codes i ≠ expected_status url_config) →
  let n := Z.to_nat (max_retries monitoring) in
  ∃ result w',
    check_url sleepable monitoring network url_config w = (Returns result, w')
    ∧ requests w' = (requests w + n)%nat
    ∧ trace w' = trace w ++ repeat (get_event monitoring url_config) n
    ∧ clock w' = clock w
    ∧ status result = "DOWN"
    ∧ status_code result = Some (codes (n - 1)%nat)
    ∧ response_time result = Some (times (n - 1)%nat)
    ∧ error result = None.
Proof.
  intros Hretries Hnet n. unfold check_url, bind at 1, get_world, range.
  fold n. destruct n as [|count] eqn:En; [lia|].
  rewrite (attempts_all_unexpected url_config codes times count 0).
  - eexists _, _. split; [reflexivity|]. cbn [Nat.add].
    rewrite Nat.sub_succ, Nat.sub_0_r. repeat split; reflexivity.
  - intros i Hi. apply Hnet. lia.
Qed.

(** X5: a delay that [time.sleep] refuses turns a transport failure into
    an exception: when the first attempt meets a RequestException and
    another attempt is due, the sleep raises (ValueError for a negative
    delay, OverflowError for one beyond the range of its timer) and
    [check_url] raises the same, after that one request. *)
Theorem check_url_refused_delay_raises (url_config : Target) (w : World)
    (message : string) (refusal : exn) :
  2 <= max_retries monitoring →
  sleep_error sleepable (retry_delay_seconds monitoring) = Some refusal →
  network (requests w) (url url_config)
  = GetRaises (Exn RequestException message) →
  check_url sleepable monitoring network url_config w
  = (Raises refusal, after_get monitoring url_config w)
  ∧ (sleepable (retry_delay_seconds monitoring) = false →
     exn_kind refusal = OverflowError)
  ∧ (sleepable (retry_delay_seconds monitoring) = true →
     exn_kind refusal = ValueError
     ∧ (retry_delay_seconds monitoring < 0)%Q).
Proof.
  intros Hretries Hdelay Hnet. split.
  - unfold check_url, bind at 1, get_world, range.
    destruct (Z.to_nat (max_retries monitoring)) as [|count] eqn:En; [lia|].
    cbn [seq map]. rewrite attempts_turn, Hnet.
    cbn [is_request_exception exn_kind].
    destruct (Z.ltb_spec (Z.of_nat 0) (max_retries monitoring - 1)); [|lia].
    rewrite (sleep_refuses _ _ _ refusal) by exact Hdelay. reflexivity.
  - apply (sleep_error_kind sleepable _ _ Hdelay).
Qed.
End CheckUrlBehaviour.

(** * More on the monitoring cycle and the main loop *)

Section CycleBehaviour.
Import Monitor.
Variable sleepable : Q → bool.
Variable monitoring : Monitoring.
Variable network : nat → string → get_result.

Lemma monitor_each_requests :
  ∀ (urls : list Target) (results : list Result) (w w' : World)
    (r : outcome (list Result)),
    monitor_each sleepable monitoring network urls results w = (r, w') →
    (requests w <= requests w'
     <= requests w + length urls * Z.to_nat (max_retries monitoring))%nat.
Proof.
  induction urls as [|url_config rest IH]; intros results w w' r.
  - cbn. intros [= <- <-]. lia.
  - rewrite monitor_each_step. cbn [length].
    destruct (check_url sleepable monitoring network url_config w) as [[result|e] w1]
      eqn:Hcheck;
      unfold check_url, bind at 1, get_world in Hcheck;
      apply attempts_requests in Hcheck; rewrite length_range in Hcheck;
      intros Hrun; apply IH in Hrun; lia.
Qed.

(** X6: a cycle issues at most [max_retries] requests per configured
    target, whatever the network does. *)
Theorem monitor_urls_request_bound (urls : list Target) (w w' : World)
    (r : outcome (list Result)) :
  monitor_urls sleepable monitoring network urls w = (r, w') →
  (requests w <= requests w'
   <= requests w + length urls * Z.to_nat (max_retries monitoring))%nat.
Proof. apply monitor_each_requests. Qed.

Lemma monitor_each_without_attempts :
  max_retries monitoring <= 0 →
  ∀ (urls : list Target) (results : list Result) (w : World),
    monitor_each sleepable monitoring network urls results w
    = (Returns (results
                ++ map (λ url_config, initial_result url_config (clock w)) urls),
       w).
Proof.
  intros Hretries. induction urls as [|url_config rest IH]; intros results w.
  - cbn. rewrite app_nil_r. reflexivity.
  - rewrite monitor_each_step.
    unfold check_url, bind at 1, get_world, range.
    replace (Z.to_nat (max_retries monitoring)) with O by lia.
    cbn [seq map attempts ret]. rewrite IH, <- app_assoc. reflexivity.
Qed.

(** X7: with [max_retries <= 0] a whole cycle probes nothing: no request is
    issued, the world is left as it was, and every configured target is
    reported DOWN with no error, no status code and no response time. *)
Theorem monitor_urls_without_attempts (urls : list Target) (w : World) :
  max_retries monitoring <= 0 →
  ∃ results,
    monitor_urls sleepable monitoring network urls w = (Returns results, w)
    ∧ map result_url results = map url urls
    ∧ Forall (λ result,
                status result = "DOWN" ∧ error result = None
                ∧ status_code result = None ∧ response_time result = None)
        results.
Proof.
  intros Hretries. unfold monitor_urls.
  rewrite (monitor_each_without_attempts Hretries). cbn [app].
  eexists. split; [reflexivity|]. split.
  - rewrite map_map. reflexivity.
  - apply List.Forall_forall. intros result Hin.
    apply in_map_iff in Hin as (url_config & <- & _). repeat split.
Qed.

Lemma monitor_each_coherent :
  only_transport_failures network →
  sleep_error sleepable (retry_delay_seconds monitoring) = None →
  ∀ (urls : list Target) (results : list Result) (w : World),
    ∃ new w',
      monitor_each sleepable monitoring network urls results w
      = (Returns (results ++ new), w')
      ∧ Forall2 coherent urls new.
Proof.
  intros Honly Hdelay.
  induction urls as [|url_config rest IH]; intros results w.
  - exists [], w. rewrite app_nil_r. split; [reflexivity|constructor].
  - rewrite monitor_each_step.
    destruct (attempts_returns sleepable monitoring network url_config
                Honly Hdelay
                (range (max_retries monitoring))
                (initial_result url_config (clock w)) w)
      as (result & w1 & Hcheck & Hcoherent & _).
    { split; [reflexivity|]. cbn. discriminate. }
    unfold check_url, bind at 1, get_world.
    fold (initial_result url_config (clock w)). rewrite Hcheck.
    destruct (IH (results ++ [result]) w1) as (new & w' & Hrun & Hall).
    exists (result :: new), w'. rewrite Hrun, <- app_assoc.
    split; [reflexivity|]. constructor; assumption.
Qed.

(** X8: when the delay is a length [time.sleep] accepts (not negative, and
    within the range of its timer) and the HTTP client only raises
    RequestExceptions, no target of a cycle is reported ERROR: every
    result is UP with the expected status code of its target, or DOWN. *)
Theorem monitor_urls_never_error (urls : list Target) (w : World) :
  only_transport_failures network →
  sleep_error sleepable (retry_delay_seconds monitoring) = None →
  ∃ results w',
    monitor_urls sleepable monitoring network urls w = (Returns results, w')
    ∧ Forall2 coherent urls results
    ∧ Forall (λ result, status result ≠ "ERROR") results.
Proof.
  intros Honly Hdelay. unfold monitor_urls.
  destruct (monitor_each_coherent Honly Hdelay urls [] w)
    as (results & w' & Hrun & Hall).
  exists results, w'. split; [exact Hrun|]. split; [exact Hall|].
  clear Hrun. induction Hall as [|url_config result ? ? Hcoherent _ IH];
    constructor; [|exact IH].
  destruct Hcoherent as [[-> _]|[-> _]]; discriminate.
Qed.

(** *** The main loop *)

Lemma monitor_urls_returns (urls : list Target) (w : World) :
  ∃ results w',
    monitor_urls sleepable monitoring network urls w = (Returns results, w').
Proof.
  unfold monitor_urls.
  assert (Hany : ∀ urls results w,
            ∃ results' w',
              monitor_each sleepable monitoring network urls results w
              = (Returns results', w')).
  { clear. induction urls as [|url_config rest IH]; intros results w.
    - exists results, w. reflexivity.
    - rewrite monitor_each_step.
      destruct (check_url sleepable monitoring network url_config w) as [[result|e] w1];
        apply IH. }
  apply Hany.
Qed.

(** X9: when [interval_minutes * 60] is a length [time.sleep] accepts (not
    negative, and within the range of its timer), one turn of the main
    loop is one full cycle followed by one sleep of that length, and any
    number of turns runs without an exception. *)
Theorem run_iteration_cycle_then_sleep (interval_minutes : Q)
    (urls : list Target) (w : World) :
  sleep_error sleepable (interval_minutes * 60) = None →
  (∃ results cycled,
     monitor_urls sleepable monitoring network urls w
     = (Returns results, cycled)
     ∧ run_iteration sleepable monitoring network interval_minutes urls w
       = (Returns tt,
          {| clock := (clock cycled + interval_minutes * 60)%Q;
             requests := requests cycled;
             trace := trace cycled ++ [Sleep (interval_minutes * 60)] |}))
  ∧ ∀ turns, ∃ w',
      run_iterations sleepable monitoring network turns interval_minutes urls w
      = (Returns tt, w').
Proof.
  intros Hsleep.
  assert (Hturn : ∀ w, ∃ results cycled,
            monitor_urls sleepable monitoring network urls w
            = (Returns results, cycled)
            ∧ run_iteration sleepable monitoring network interval_minutes
                urls w
              = (Returns tt,
                 {| clock := (clock cycled + interval_minutes * 60)%Q;
                    requests := requests cycled;
                    trace := trace cycled
                             ++ [Sleep (interval_minutes * 60)] |})).
  { intros w0.
    destruct (monitor_urls_returns urls w0) as (results & cycled & Hrun).
    exists results, cycled. split; [exact Hrun|].
    unfold run_iteration, try_except, bind at 1. rewrite Hrun.
    rewrite sleep_runs by exact Hsleep. reflexivity. }
  split; [apply Hturn|].
  intros turns. revert w. induction turns as [|turns IH]; intros w.
  - exists w. reflexivity.
  - cbn [run_iterations]. unfold bind at 1.
    destruct (Hturn w) as (results & cycled & _ & Hrun). rewrite Hrun.
    apply IH.
Qed.

(** X10: when [interval_minutes * 60] is a length [time.sleep] refuses, the
    main loop ends in its first turn: after the cycle the sleep raises
    (ValueError for a negative interval, OverflowError for one beyond the
    range of its timer), the handler sleeps the same interval, which
    raises again, and [run] raises, however many turns were to follow. *)
Theorem run_refused_interval_raises (interval_minutes : Q)
    (urls : list Target) (w : World) (turns : nat) (refusal : exn) :
  sleep_error sleepable (interval_minutes * 60) = Some refusal →
  (∃ results cycled,
     monitor_urls sleepable monitoring network urls w
     = (Returns results, cycled)
     ∧ run_iterations sleepable monitoring network (S turns)
         interval_minutes urls w
       = (Raises refusal, cycled))
  ∧ (sleepable (interval_minutes * 60) = false →
     exn_kind refusal = OverflowError)
  ∧ (sleepable (interval_minutes * 60) = true →
     exn_kind refusal = ValueError ∧ (interval_minutes < 0)%Q).
Proof.
  intros Hsleep. split.
  - destruct (monitor_urls_returns urls w) as (results & cycled & Hrun).
    exists results, cycled. split; [exact Hrun|].
    cbn [run_iterations].
    unfold bind at 1, run_iteration, try_except, bind at 1.
    rewrite Hrun. rewrite !(sleep_refuses _ _ _ refusal) by exact Hsleep.
    reflexivity.
  - destruct (sleep_error_kind sleepable _ _ Hsleep) as [Hover Hneg].
    split; [exact Hover|]. intros Hfits.
    destruct (Hneg Hfits) as [Hkind Hless]. split; [exact Hkind|].
    apply Qnot_le_lt. intros Hle. apply (Qlt_not_le _ _ Hless).
    apply Qmult_le_0_compat; [exact Hle|discriminate].
Qed.
End CycleBehaviour.

(** * More on the configuration validator *)

Section ValidatorBehaviour.
Import Monitor.
Variable urlparse : string → option ParseResult.

Lemma accepts_target_parts (t : json) :
  accepts_target urlparse t = true →
  is_Some (member "name" t)
  ∧ is_Some (member "expected_status" t)
  ∧ ∃ u, member "url" t = Some u ∧ url_scheme urlparse u = Some "https".
Proof.
  unfold accepts_target. rewrite !andb_true_iff. intros [[Hname Hurl] Hstatus].
  apply has_member in Hname as (vn & Hn & _).
  apply has_member in Hstatus as (vs & Hs & _).
  apply has_member in Hurl as (u & Hu & Hvalid).
  split; [eauto|]. split; [eauto|].
  exists u. split; [exact Hu|]. apply validate_url_scheme, Hvalid.
Qed.

(** X11: loading fails closed.  [_load_config] returns a configuration only
    when the file holds a document the validator accepts; in what it
    returns, every target has a name, an expected status and a url whose
    scheme is https, and [max_retries] is an int. *)
Theorem load_config_fail_closed (file : config_file) (config : json) :
  load_config urlparse file = Returns config →
  file = Document config
  ∧ validate_config urlparse config = true
  ∧ (∀ items t,
       targets config = Some items → In t items →
       is_Some (member "name" t)
       ∧ is_Some (member "expected_status" t)
       ∧ ∃ u, member "url" t = Some u ∧ url_scheme urlparse u = Some "https")
  ∧ ∃ v, max_retries_of config = Some v ∧ isinstance_int v = true.
Proof.
  destruct file as [|message|document]; cbn; try discriminate.
  destruct (validate_config urlparse document) eqn:Hvalid; cbn;
    [|discriminate].
  intros [= ->]. split; [reflexivity|]. split; [exact Hvalid|].
  rewrite validate_config_accepts in Hvalid.
  destruct (accepts_config_inv urlparse config Hvalid)
    as (monitoring & security & items & limit & Hmon & _ & Hretries & Hurls
        & _ & _ & Hall).
  split.
  - intros items' t Htargets Hin.
    rewrite (targets_urls_of config monitoring items' Hmon Htargets) in Hurls.
    injection Hurls as ->. rewrite forallb_forall in Hall.
    apply accepts_target_parts, Hall, Hin.
  - apply has_member in Hretries as (v & Hv & Hint).
    exists v. split; [|exact Hint].
    destruct config as [| | | | | | members]; try discriminate.
    destruct monitoring as [| | | | | | mm]; try discriminate.
    cbn in Hmon, Hv |- *. rewrite Hmon. exact Hv.
Qed.

Lemma has_set_key_same (key : string) (test : json → bool) (v : json)
    (members : list (string * json)) :
  has key test (JObject (set_key key v members)) = test v.
Proof. unfold has, member. rewrite lookup_set_key_same. reflexivity. Qed.

Lemma accepts_urls_set_key_monitoring (key : string) (v : json)
    (monitoring : list (string * json)) (security : json) :
  key ≠ "urls" →
  accepts_urls urlparse (JObject (set_key key v monitoring)) security
  = accepts_urls urlparse (JObject monitoring) security.
Proof.
  intros Hkey. unfold accepts_urls, urls_of, member.
  rewrite lookup_set_key_other by congruence. reflexivity.
Qed.

Lemma accepts_urls_set_key_security (key : string) (v : json)
    (monitoring : json) (security : list (string * json)) :
  key ≠ "max_urls" →
  accepts_urls urlparse monitoring (JObject (set_key key v security))
  = accepts_urls urlparse monitoring (JObject security).
Proof.
  intros Hkey. unfold accepts_urls. cbn [member].
  rewrite lookup_set_key_other by congruence. reflexivity.
Qed.

Local Ltac settle_setting Hacc :=
  unfold accepts_sections in Hacc |- *;
  rewrite ?accepts_urls_set_key_monitoring, ?accepts_urls_set_key_security
    by discriminate;
  rewrite has_set_key_same;
  rewrite ?has_set_key_other by discriminate;
  rewrite !andb_true_iff in Hacc |- *; tauto.

(** X12: the limits are typed, never enforced.  A document the validator
    accepts stays accepted when the interval, the timeout, the retry delay,
    the maximal timeout or the maximal interval is replaced by any number,
    or the allowed schemes by any list: no value is compared with a bound,
    and the allowed schemes are not consulted. *)
Theorem validate_config_ignores_values (part key : string) (v : json)
    (config : json) :
  unchecked_setting part key v = true →
  validate_config urlparse config = true →
  validate_config urlparse (with_setting part key v config) = true.
Proof.
  intros Hsetting. rewrite !validate_config_accepts.
  unfold accepts_config, with_setting.
  destruct config as [| | | | | | members]; try discriminate. cbn [member].
  destruct (lookup_key "monitoring" members) as [monitoring|] eqn:Hmon;
    [|discriminate].
  destruct (lookup_key "security" members) as [security|] eqn:Hsec;
    [|discriminate].
  intros Hacc.
  assert (Hmonobj : ∃ mm, monitoring = JObject mm).
  { destruct monitoring; try discriminate; eauto. }
  assert (Hsecobj : ∃ sm, security = JObject sm).
  { unfold accepts_sections in Hacc. rewrite !andb_true_iff in Hacc.
    destruct security; try (cbn in Hacc; intuition discriminate); eauto. }
  destruct Hmonobj as [mm ->]. destruct Hsecobj as [sm ->].
  unfold unchecked_setting in Hsetting.
  rewrite !orb_true_iff, !andb_true_iff in Hsetting.
  destruct Hsetting as [[[[Hpart Hkey] Hv] | [[Hpart Hkey] Hv]] | [[Hpart Hkey] Hv]];
    apply String.eqb_eq in Hpart; subst part.
  - rewrite Hmon. cbn [member].
    rewrite lookup_set_key_same, lookup_set_key_other, Hsec by discriminate.
    cbn [existsb] in Hkey. rewrite !orb_true_iff in Hkey.
    destruct Hkey as [Hkey|[Hkey|[Hkey|Hkey]]]; try discriminate Hkey;
      apply String.eqb_eq in Hkey; subst key; settle_setting Hacc.
  - rewrite Hsec. cbn [member].
    rewrite lookup_set_key_same, lookup_set_key_other, Hmon by discriminate.
    cbn [existsb] in Hkey. rewrite !orb_true_iff in Hkey.
    destruct Hkey as [Hkey|[Hkey|Hkey]]; try discriminate Hkey;
      apply String.eqb_eq in Hkey; subst key; settle_setting Hacc.
  - rewrite Hsec. cbn [member].
    rewrite lookup_set_key_same, lookup_set_key_other, Hmon by discriminate.
    apply String.eqb_eq in Hkey. subst key. settle_setting Hacc.
Qed.
(** X13: a document without 'urls' is judged as the same document with an
    empty list of urls. *)
Theorem validate_config_missing_urls (config : json)
    (monitoring : list (string * json)) :
  member "monitoring" config = Some (JObject monitoring) →
  lookup_key "urls" monitoring = None →
  validate_config urlparse config
  = validate_config urlparse
      (with_setting "monitoring" "urls" (JList []) config).
Proof.
  intros Hmon Hurls. rewrite !validate_config_accepts.
  unfold accepts_config, with_setting.
  destruct config as [| | | | | | members]; try discriminate.
  cbn [member] in Hmon |- *. rewrite Hmon. cbn [member].
  rewrite lookup_set_key_same, lookup_set_key_other by discriminate.
  destruct (lookup_key "security" members) as [security|]; [|reflexivity].
  unfold accepts_sections.
  rewrite !(has_set_key_other "urls") by discriminate.
  unfold accepts_urls, urls_of, member.
  rewrite lookup_set_key_same, Hurls. reflexivity.
Qed.
End ValidatorBehaviour.

Lemma check_url_request_bound_witness :
  ∃ r w',
    Monitor.check_url Monitor.int64_nanoseconds Monitor.sample_monitoring
      Monitor.second_request_breaks Monitor.other_target Monitor.fresh_world
    = (r, w')
    ∧ (Monitor.requests w' <= 3)%nat.
Proof.
  destruct (Monitor.check_url Monitor.int64_nanoseconds
              Monitor.sample_monitoring Monitor.second_request_breaks
              Monitor.other_target Monitor.fresh_world) as [r w'] eqn:Hrun.
  exists r, w'. split; [reflexivity|].
  apply (check_url_request_bound Monitor.int64_nanoseconds
           Monitor.sample_monitoring Monitor.second_request_breaks
           Monitor.other_target Monitor.fresh_world w' r Hrun).
Defined.

Lemma check_url_returns_coherent_witness :
  Monitor.only_transport_failures Monitor.third_time_lucky
  ∧ Monitor.sleep_error Monitor.int64_nanoseconds
      (Monitor.retry_delay_seconds Monitor.sample_monitoring) = None
  ∧ ∃ result w',
      Monitor.check_url Monitor.int64_nanoseconds Monitor.sample_monitoring
        Monitor.third_time_lucky Monitor.sample_target Monitor.fresh_world
      = (Returns result, w')
      ∧ Monitor.coherent Monitor.sample_target result.
Proof.
  assert (Honly : Monitor.only_transport_failures Monitor.third_time_lucky).
  { intros n u e. unfold Monitor.third_time_lucky.
    destruct (n <? 2)%nat; [intros [= <-]; reflexivity|discriminate]. }
  assert (Hdelay : Monitor.sleep_error Monitor.int64_nanoseconds
                     (Monitor.retry_delay_seconds Monitor.sample_monitoring)
                   = None) by (vm_compute; reflexivity).
  split; [exact Honly|]. split; [exact Hdelay|].
  destruct (check_url_returns_coherent Monitor.int64_nanoseconds
              Monitor.sample_monitoring Monitor.third_time_lucky
              Monitor.sample_target Monitor.fresh_world Honly Hdelay)
    as (result & w' & Hrun & Hcoherent & _).
  exists result, w'. split; [exact Hrun|exact Hcoherent].
Defined.

Lemma check_url_stops_at_first_success_witness :
  (2 < Z.to_nat (Monitor.max_retries Monitor.sample_monitoring))%nat
  ∧ Monitor.sleep_error Monitor.int64_nanoseconds
      (Monitor.retry_delay_seconds Monitor.sample_monitoring) = None
  ∧ ∃ result w',
      Monitor.check_url Monitor.int64_nanoseconds Monitor.sample_monitoring
        Monitor.third_time_lucky Monitor.sample_target Monitor.fresh_world
      = (Returns result, w')
      ∧ Monitor.requests w' = 3%nat
      ∧ Monitor.status result = "UP"
      ∧ Monitor.error result = Some "timeout 1".
Proof.
  assert (Hdelay : Monitor.sleep_error Monitor.int64_nanoseconds
                     (Monitor.retry_delay_seconds Monitor.sample_monitoring)
                   = None) by (vm_compute; reflexivity).
  split; [cbn; lia|]. split; [exact Hdelay|].
  destruct (check_url_stops_at_first_success Monitor.int64_nanoseconds
              Monitor.sample_monitoring Monitor.third_time_lucky
              Monitor.sample_target Monitor.fresh_world
              (λ i, "timeout " +:+ pretty i) 2 (4321 # 100) Hdelay)
    as (result & w' & Hrun & Hreq & _ & _ & Hstatus & _ & _ & Herror).
  - cbn; lia.
  - intros [|[|i]] Hi; [reflexivity|reflexivity|lia].
  - reflexivity.
  - exists result, w'. split; [exact Hrun|]. split; [exact Hreq|].
    split; [exact Hstatus|exact Herror].
Defined.

Lemma check_url_unexpected_status_witness :
  1 <= Monitor.max_retries Monitor.sample_monitoring
  ∧ ∃ result w',
      Monitor.check_url Monitor.int64_nanoseconds Monitor.sample_monitoring
        Monitor.always_unavailable Monitor.sample_target Monitor.fresh_world
      = (Returns result, w')
      ∧ Monitor.requests w' = 3%nat
      ∧ Monitor.sleeps_of (Monitor.trace w') = []
      ∧ Monitor.status result = "DOWN"
      ∧ Monitor.status_code result = Some 503
      ∧ Monitor.error result = None.
Proof.
  split; [cbn; lia|].
  destruct (check_url_unexpected_status Monitor.int64_nanoseconds
              Monitor.sample_monitoring Monitor.always_unavailable
              Monitor.sample_target Monitor.fresh_world
              (λ _, 503) (λ _, (1500 # 100)%Q))
    as (result & w' & Hrun & Hreq & Htrace & _ & Hstatus & Hcode & _ & Herror).
  - cbn; lia.
  - intros i _. split; [reflexivity|discriminate].
  - exists result, w'. split; [exact Hrun|]. split; [exact Hreq|].
    split; [rewrite Htrace; reflexivity|].
    split; [exact Hstatus|]. split; [exact Hcode|exact Herror].
Defined.

Lemma check_url_refused_delay_raises_witness :
  Monitor.check_url Monitor.int64_nanoseconds
    Monitor.negative_delay_monitoring Monitor.always_timeout
    Monitor.sample_target Monitor.fresh_world
  = (Raises (Exn ValueError "sleep length must be non-negative"),
     Monitor.after_get Monitor.negative_delay_monitoring
       Monitor.sample_target Monitor.fresh_world)
  ∧ Monitor.check_url Monitor.int64_nanoseconds
      Monitor.huge_delay_monitoring Monitor.always_timeout
      Monitor.sample_target Monitor.fresh_world
    = (Raises (Exn OverflowError
                 "timestamp too large to convert to C _PyTime_t"),
       Monitor.after_get Monitor.huge_delay_monitoring
         Monitor.sample_target Monitor.fresh_world).
Proof.
  split.
  - destruct (check_url_refused_delay_raises Monitor.int64_nanoseconds
                Monitor.negative_delay_monitoring Monitor.always_timeout
                Monitor.sample_target Monitor.fresh_world "timeout 0"
                (Exn ValueError "sleep length must be non-negative"))
      as [Hrun _].
    + cbn; lia.
    + vm_compute. reflexivity.
    + reflexivity.
    + exact Hrun.
  - destruct (check_url_refused_delay_raises Monitor.int64_nanoseconds
                Monitor.huge_delay_monitoring Monitor.always_timeout
                Monitor.sample_target Monitor.fresh_world "timeout 0"
                (Exn OverflowError
                   "timestamp too large to convert to C _PyTime_t"))
      as [Hrun _].
    + cbn; lia.
    + vm_compute. reflexivity.
    + reflexivity.
    + exact Hrun.
Defined.

Lemma monitor_urls_request_bound_witness :
  ∃ r w',
    Monitor.monitor_urls Monitor.int64_nanoseconds Monitor.sample_monitoring
      Monitor.always_timeout [Monitor.sample_target; Monitor.other_target]
      Monitor.fresh_world
    = (r, w')
    ∧ (Monitor.requests w' <= 6)%nat.
Proof.
  destruct (Monitor.monitor_urls Monitor.int64_nanoseconds
              Monitor.sample_monitoring Monitor.always_timeout
              [Monitor.sample_target; Monitor.other_target]
              Monitor.fresh_world) as [r w'] eqn:Hrun.
  exists r, w'. split; [reflexivity|].
  apply (monitor_urls_request_bound Monitor.int64_nanoseconds
           Monitor.sample_monitoring Monitor.always_timeout
           [Monitor.sample_target; Monitor.other_target]
           Monitor.fresh_world w' r Hrun).
Defined.

Lemma monitor_urls_without_attempts_witness :
  Monitor.max_retries Monitor.no_attempt_monitoring <= 0
  ∧ ∃ results,
      Monitor.monitor_urls Monitor.int64_nanoseconds
        Monitor.no_attempt_monitoring Monitor.always_timeout
        [Monitor.sample_target; Monitor.other_target] Monitor.fresh_world
      = (Returns results, Monitor.fresh_world)
      ∧ map Monitor.status results = ["DOWN"; "DOWN"].
Proof.
  split; [cbn; lia|].
  destruct (monitor_urls_without_attempts Monitor.int64_nanoseconds
              Monitor.no_attempt_monitoring Monitor.always_timeout
              [Monitor.sample_target; Monitor.other_target]
              Monitor.fresh_world) as (results & Hrun & Hurls & Hall).
  - cbn; lia.
  - exists results. split; [exact Hrun|].
    destruct results as [|r1 [|r2 [|]]]; try discriminate Hurls.
    inversion Hall as [|? ? (H1 & _) Hrest]; subst.
    inversion Hrest as [|? ? (H2 & _) _]; subst.
    cbn. rewrite H1, H2. reflexivity.
Defined.

Lemma monitor_urls_never_error_witness :
  Monitor.only_transport_failures Monitor.always_timeout
  ∧ Monitor.sleep_error Monitor.int64_nanoseconds
      (Monitor.retry_delay_seconds Monitor.sample_monitoring) = None
  ∧ ∃ results w',
      Monitor.monitor_urls Monitor.int64_nanoseconds Monitor.sample_monitoring
        Monitor.always_timeout [Monitor.sample_target; Monitor.other_target]
        Monitor.fresh_world
      = (Returns results, w')
      ∧ Forall (λ result, Monitor.status result ≠ "ERROR") results.
Proof.
  assert (Honly : Monitor.only_transport_failures Monitor.always_timeout)
    by (intros n u e [= <-]; reflexivity).
  assert (Hdelay : Monitor.sleep_error Monitor.int64_nanoseconds
                     (Monitor.retry_delay_seconds Monitor.sample_monitoring)
                   = None) by (vm_compute; reflexivity).
  split; [exact Honly|]. split; [exact Hdelay|].
  destruct (monitor_urls_never_error Monitor.int64_nanoseconds
              Monitor.sample_monitoring Monitor.always_timeout
              [Monitor.sample_target; Monitor.other_target]
              Monitor.fresh_world Honly Hdelay)
    as (results & w' & Hrun & _ & Hall).
  exists results, w'. split; [exact Hrun|exact Hall].
Defined.

Lemma run_iteration_cycle_then_sleep_witness :
  Monitor.sleep_error Monitor.int64_nanoseconds (5 * 60) = None
  ∧ ∃ w',
      Monitor.run_iterations Monitor.int64_nanoseconds
        Monitor.sample_monitoring Monitor.third_time_lucky
        2 5 [Monitor.sample_target] Monitor.fresh_world = (Returns tt, w').
Proof.
  assert (Hsleep : Monitor.sleep_error Monitor.int64_nanoseconds (5 * 60)
                   = None) by (vm_compute; reflexivity).
  split; [exact Hsleep|].
  destruct (run_iteration_cycle_then_sleep Monitor.int64_nanoseconds
              Monitor.sample_monitoring Monitor.third_time_lucky 5
              [Monitor.sample_target] Monitor.fresh_world Hsleep)
    as [_ Hturns].
  exact (Hturns 2%nat).
Defined.

Lemma run_refused_interval_raises_witness :
  (∃ results cycled,
     Monitor.monitor_urls Monitor.int64_nanoseconds Monitor.sample_monitoring
       Monitor.third_time_lucky [Monitor.sample_target] Monitor.fresh_world
     = (Returns results, cycled)
     ∧ Monitor.run_iterations Monitor.int64_nanoseconds
         Monitor.sample_monitoring Monitor.third_time_lucky 3 (-(5))
         [Monitor.sample_target] Monitor.fresh_world
       = (Raises (Exn ValueError "sleep length must be non-negative"),
          cycled))
  ∧ (∃ results cycled,
       Monitor.monitor_urls Monitor.int64_nanoseconds
         Monitor.sample_monitoring Monitor.third_time_lucky
         [Monitor.sample_target] Monitor.fresh_world
       = (Returns results, cycled)
       ∧ Monitor.run_iterations Monitor.int64_nanoseconds
           Monitor.sample_monitoring Monitor.third_time_lucky 3 1000000000
           [Monitor.sample_target] Monitor.fresh_world
         = (Raises (Exn OverflowError
                      "timestamp too large to convert to C _PyTime_t"),
            cycled)).
Proof.
  split.
  - destruct (run_refused_interval_raises Monitor.int64_nanoseconds
                Monitor.sample_monitoring Monitor.third_time_lucky (-(5))
                [Monitor.sample_target] Monitor.fresh_world 2
                (Exn ValueError "sleep length must be non-negative"))
      as [Hrun _]; [vm_compute; reflexivity|exact Hrun].
  - destruct (run_refused_interval_raises Monitor.int64_nanoseconds
                Monitor.sample_monitoring Monitor.third_time_lucky 1000000000
                [Monitor.sample_target] Monitor.fresh_world 2
                (Exn OverflowError
                   "timestamp too large to convert to C _PyTime_t"))
      as [Hrun _]; [vm_compute; reflexivity|exact Hrun].
Defined.

Lemma load_config_fail_closed_witness :
  Monitor.load_config Monitor.urlparse_model
    (Monitor.Document Monitor.sample_config) = Returns Monitor.sample_config
  ∧ Monitor.validate_config Monitor.urlparse_model Monitor.sample_config = true
  ∧ Monitor.load_config Monitor.urlparse_model
      (Monitor.Document Monitor.plain_http_config)
    = Raises (Exn ValueError "Invalid configuration format or values").
Proof.
  assert (Hload : Monitor.load_config Monitor.urlparse_model
                    (Monitor.Document Monitor.sample_config)
                  = Returns Monitor.sample_config) by reflexivity.
  split; [exact Hload|].
  destruct (load_config_fail_closed Monitor.urlparse_model _ _ Hload)
    as (_ & Hvalid & _).
  split; [exact Hvalid|reflexivity].
Defined.

Lemma validate_config_ignores_values_witness :
  Monitor.unchecked_setting "monitoring" "timeout_seconds"
    (Monitor.JInt 1000000) = true
  ∧ Monitor.validate_config Monitor.urlparse_model Monitor.sample_config = true
  ∧ Monitor.validate_config Monitor.urlparse_model
      (Monitor.with_setting "monitoring" "timeout_seconds"
         (Monitor.JInt 1000000) Monitor.sample_config) = true.
Proof.
  split; [reflexivity|]. split; [reflexivity|].
  apply (validate_config_ignores_values Monitor.urlparse_model
           "monitoring" "timeout_seconds" (Monitor.JInt 1000000)
           Monitor.sample_config); reflexivity.
Defined.

Lemma validate_config_missing_urls_witness :
  Monitor.validate_config Monitor.urlparse_model Monitor.no_urls_config
  = Monitor.validate_config Monitor.urlparse_model
      (Monitor.with_setting "monitoring" "urls" (Monitor.JList [])
         Monitor.no_urls_config)
  ∧ Monitor.validate_config Monitor.urlparse_model Monitor.no_urls_config
    = true.
Proof.
  split; [|reflexivity].
  eapply (validate_config_missing_urls Monitor.urlparse_model
            Monitor.no_urls_config); reflexivity.
Defined.

(** * More on the cooldown store *)

Section StoreBehaviour.
Import AlertFunction.
Variable env : Settings.
Variable storage_fault : nat → option exn.

(** X14: whatever the store does, [is_in_cooldown] never raises and never
    moves the clock; it answers True only when the url has a record still
    within the window, and then leaves the store as it was; and the only
    change it ever makes to the store is to delete the record of the url
    once it has expired. *)
Theorem is_in_cooldown_sound (u : string) (w w' : World) (r : outcome bool) :
  is_in_cooldown env storage_fault u w = (r, w') →
  (∃ answer, r = Returns answer)
  ∧ (r = Returns true →
     live_record env (blob_name u) w ∧ blobs w' = blobs w)
  ∧ (blobs w' = blobs w
     ∨ ∃ written,
         blobs w !! blob_name u = Some written
         ∧ written + cooldown_window env <= clock w
         ∧ blobs w' = delete (blob_name u) (blobs w))
  ∧ clock w' = clock w.
Proof.
  intros Hrun. unfold live_record.
  destruct (is_in_cooldown_effect env storage_fault u w w' r Hrun)
    as [Hclock [[-> Hblobs]
               | (written & Hblob & _
                  & [(Hlive & -> & Hblobs) | (Hexpired & -> & Hblobs)])]].
  - split; [eauto|]. split; [discriminate|]. split; [left; exact Hblobs|].
    exact Hclock.
  - split; [eauto|]. split; [intros _; eauto|].
    split; [left; exact Hblobs|]. exact Hclock.
  - split; [eauto|]. split; [discriminate|].
    split; [right; eauto|]. exact Hclock.
Qed.
End StoreBehaviour.

(** * More on the failure analysis *)

Section AnalysisBehaviour.
Import AlertFunction.
Variable env : Settings.
Variable storage_fault : nat → option exn.

(** The alerts about a url of the input, for the whole of [analyze_logs]. *)
Lemma analyze_logs_about (logs : list Log) (w : World) (u : string) :
  In u (map url logs) →
  ∃ alerts w',
    analyze_logs env storage_fault logs w = (Returns alerts, w')
    ∧ alerts_about u alerts
      = emitted env storage_fault u (logs_of u logs)
          (world_reaching env storage_fault u (group_by_url logs) [] w).
Proof.
  intros Hoccurs.
  destruct (group_by_url_groups logs) as (Hdistinct & Hnonempty & Hgroups).
  assert (Hgroup : group_of u (group_by_url logs) = Some (logs_of u logs)).
  { rewrite Hgroups. pose proof (logs_of_occurs u logs Hoccurs).
    destruct (logs_of u logs); congruence. }
  apply (analyze_each_about env storage_fault u (logs_of u logs)
           (group_by_url logs) [] w Hnonempty Hdistinct Hgroup).
Qed.

Lemma in_cooldown_storage_down (u : string) (w : World) :
  storage_down storage_fault →
  in_cooldown env storage_fault u w = false
  ∧ blobs (snd (is_in_cooldown env storage_fault u w)) = blobs w.
Proof.
  intros Hdown. unfold in_cooldown, is_in_cooldown.
  destruct (blob_service_client env); cbn [negb]; [|split; reflexivity].
  destruct (Hdown (storage_calls w)) as [e Hfault].
  split; unfold try_except, exists_, bind at 1, bind at 1, storage_call;
    rewrite Hfault; reflexivity.
Qed.

Lemma set_cooldown_storage_down (u : string) (w : World) :
  storage_down storage_fault →
  blobs (snd (set_cooldown env storage_fault u w)) = blobs w.
Proof.
  intros Hdown. unfold set_cooldown.
  destruct (blob_service_client env); cbn [negb]; [|reflexivity].
  unfold try_except, upload_blob, bind, storage_call.
  destruct (Hdown (storage_calls w)) as [e ->]. reflexivity.
Qed.

Lemma analyze_each_storage_down :
  storage_down storage_fault →
  ∀ (url_logs : list (string * list Log)) (alerts : list Alert) (w : World),
    blobs (snd (analyze_each env storage_fault url_logs alerts w)) = blobs w.
Proof.
  intros Hdown. induction url_logs as [|[u g] rest IH]; intros alerts w;
    [reflexivity|].
  cbn [analyze_each]. unfold bind at 1.
  assert (Hone : blobs (snd (analyze_url env storage_fault u g alerts w))
                 = blobs w).
  { unfold analyze_url.
    destruct (CONSECUTIVE_FAILURES_THRESHOLD env <=? _)%Z; [|reflexivity].
    unfold bind at 1.
    destruct (in_cooldown_storage_down u w Hdown) as [_ Hcheck].
    destruct (is_in_cooldown env storage_fault u w) as [[answer|e] w1];
      cbn [snd] in Hcheck |- *; [|exact Hcheck].
    destruct answer; [exact Hcheck|].
    destruct (head _); [|exact Hcheck]. destruct (last _); [|exact Hcheck].
    unfold bind at 1.
    pose proof (set_cooldown_storage_down u w1 Hdown) as Hset.
    destruct (set_cooldown env storage_fault u w1) as [[[]|e] w2];
      cbn [snd ret] in Hset |- *; congruence. }
  destruct (analyze_url env storage_fault u g alerts w) as [[alerts'|e] w1];
    cbn [snd] in Hone |- *; [|exact Hone].
  rewrite IH. exact Hone.
Qed.

(** X15: a store that is down never holds an alert back.  When every
    storage call raises, [analyze_logs] still returns, leaves the records as
    they were, and alerts about every url of the input whose count of
    trailing failures reaches the threshold, whatever the store holds. *)
Theorem analyze_logs_storage_down (logs : list Log) (w : World) (u : string) :
  storage_down storage_fault →
  In u (map url logs) →
  let failures :=
    count_consecutive_failures (sort_by_timestamp (logs_of u logs)) in
  ∃ alerts w',
    analyze_logs env storage_fault logs w = (Returns alerts, w')
    ∧ blobs w' = blobs w
    ∧ (CONSECUTIVE_FAILURES_THRESHOLD env <= failures →
       ∃ alert,
         alerts_about u alerts = [alert]
         ∧ consecutive_failures alert = failures)
    ∧ (failures < CONSECUTIVE_FAILURES_THRESHOLD env →
       alerts_about u alerts = []).
Proof.
  intros Hdown Hoccurs failures.
  destruct (analyze_logs_about logs w u Hoccurs) as (alerts & w' & Hrun & Habout).
  exists alerts, w'. split; [exact Hrun|]. split.
  - pose proof (analyze_each_storage_down Hdown (group_by_url logs) [] w)
      as Hkept.
    unfold analyze_logs in Hrun. rewrite Hrun in Hkept. exact Hkept.
  - unfold emitted in Habout. fold failures in Habout.
    rewrite (proj1 (in_cooldown_storage_down u _ Hdown)) in Habout.
    cbn [negb] in Habout. rewrite andb_true_r in Habout.
    destruct (candidate_nonempty u (logs_of u logs)
                (logs_of_occurs u logs Hoccurs))
      as (first & latest & _ & _ & Hcandidate).
    fold failures in Hcandidate. split.
    + intros Hreached. apply Z.leb_le in Hreached.
      rewrite Hreached, Hcandidate in Habout.
      eexists. split; [exact Habout|reflexivity].
    + intros Hbelow. apply Z.leb_gt in Hbelow.
      rewrite Hbelow in Habout. exact Habout.
Qed.
(** What the loop appends for one url: nothing, or the candidate of the
    url, whose count reaches the threshold. *)
Lemma emitted_cases (u : string) (g : list Log) (w : World) :
  g ≠ [] →
  emitted env storage_fault u g w = []
  ∨ ∃ alert,
      emitted env storage_fault u g w = [alert]
      ∧ candidate u g = [alert]
      ∧ alert_url alert = u
      ∧ CONSECUTIVE_FAILURES_THRESHOLD env <= consecutive_failures alert
      ∧ in_cooldown env storage_fault u w = false.
Proof.
  intros Hnonempty. unfold emitted.
  destruct (candidate_nonempty u g Hnonempty)
    as (first & latest & _ & _ & Hcandidate).
  destruct (Z.leb_spec (CONSECUTIVE_FAILURES_THRESHOLD env)
              (count_consecutive_failures (sort_by_timestamp g)));
    [|left; reflexivity].
  destruct (in_cooldown env storage_fault u w); [left; reflexivity|].
  right. rewrite Hcandidate. eexists. repeat split; assumption.
Qed.

Lemma analyze_each_structure :
  ∀ (url_logs : list (string * list Log)) (alerts : list Alert) (w : World),
    Forall (λ group, snd group ≠ []) url_logs →
    ∃ new w',
      analyze_each env storage_fault url_logs alerts w
      = (Returns (alerts ++ new), w')
      ∧ map alert_url new `sublist_of` map fst url_logs
      ∧ ∀ alert, In alert new →
          CONSECUTIVE_FAILURES_THRESHOLD env <= consecutive_failures alert
          ∧ ∃ g, In (alert_url alert, g) url_logs
                 ∧ candidate (alert_url alert) g = [alert].
Proof.
  induction url_logs as [|[u g] rest IH]; intros alerts w Hnonempty.
  - exists [], w. rewrite app_nil_r. split; [reflexivity|].
    split; [constructor|]. intros alert [].
  - inversion Hnonempty as [|? ? Hg Hrest]; subst. cbn in Hg.
    cbn [analyze_each]. unfold bind at 1.
    destruct (analyze_url_spec env storage_fault u g alerts w Hg)
      as (w1 & events & Hrun1 & _).
    rewrite Hrun1.
    destruct (IH (alerts ++ emitted env storage_fault u g w) w1 Hrest)
      as (new & w' & Hrun & Hsub & Hfrom).
    exists (emitted env storage_fault u g w ++ new), w'.
    split; [rewrite Hrun, <- app_assoc; reflexivity|].
    destruct (emitted_cases u g w Hg)
      as [-> | (alert & -> & Hcandidate & Hurl & Hreached & _)].
    + split; [cbn; apply sublist_cons, Hsub|].
      intros alert Hin. destruct (Hfrom alert Hin) as (Hthr & g' & Hin' & Hc).
      split; [exact Hthr|]. exists g'. split; [right; exact Hin'|exact Hc].
    + split; [cbn; rewrite Hurl; apply sublist_skip, Hsub|].
      intros alert' [<-|Hin].
      * split; [exact Hreached|]. exists g. rewrite Hurl.
        split; [left; reflexivity|exact Hcandidate].
      * destruct (Hfrom alert' Hin) as (Hthr & g' & Hin' & Hc).
        split; [exact Hthr|]. exists g'. split; [right; exact Hin'|exact Hc].
Qed.




(** X17: with a threshold of at least one, every alert reports a url whose
    most recent record is DOWN. *)
Theorem analyze_logs_last_status_down (logs : list Log) (w : World) :
  1 <= CONSECUTIVE_FAILURES_THRESHOLD env →
  ∃ alerts w',
    analyze_logs env storage_fault logs w = (Returns alerts, w')
    ∧ Forall (λ alert,
                last_status alert = "DOWN"
                ∧ 1 <= consecutive_failures alert) alerts.
Proof.
  intros Hthreshold.
  destruct (group_by_url_groups logs) as (_ & Hnonempty & _).
  destruct (analyze_each_structure (group_by_url logs) [] w Hnonempty)
    as (alerts & w' & Hrun & _ & Hfrom).
  exists alerts, w'. split; [exact Hrun|].
  apply List.Forall_forall. intros alert Hin.
  destruct (Hfrom alert Hin) as (Hthr & g & _ & Hc).
  split; [|lia].
  unfold candidate in Hc.
  destruct (head (sort_by_timestamp g)) as [first|]; [|discriminate].
  destruct (last (sort_by_timestamp g)) as [latest|] eqn:Hlast; [|discriminate].
  injection Hc as Hc.
  pose proof (f_equal consecutive_failures Hc) as Hfailures.
  pose proof (f_equal last_status Hc) as Hstatus.
  cbn [consecutive_failures last_status] in Hfailures, Hstatus.
  rewrite <- Hstatus. rewrite <- Hfailures in Hthr.
  destruct (count_consecutive_failures_spec (sort_by_timestamp g))
    as (older & trailing & Hsplit & Hall & Hcount & _).
  rewrite Hsplit, last_app in Hlast.
  destruct (last trailing) as [l|] eqn:Htrailing.
  - injection Hlast as <-. rewrite List.Forall_forall in Hall.
    apply Hall, last_In, Htrailing.
  - apply last_None in Htrailing. subst trailing.
    rewrite Hcount in Hthr. cbn in Hthr. lia.
Qed.

(** *** Two runs within the cooldown window *)

Lemma record_since_in_cooldown (since : Z) (u : string) (w : World) :
  storage_healthy storage_fault →
  blob_service_client env = true →
  record_since env since (blob_name u) w →
  in_cooldown env storage_fault u w = true.
Proof.
  intros Hhealthy Hclient (written & Hblob & _ & Hend & Hlive).
  rewrite in_cooldown_healthy by exact Hhealthy.
  rewrite Hclient, Hblob, Hend. cbn. apply Z.ltb_lt. exact Hlive.
Qed.

Lemma is_in_cooldown_keeps_record (since : Z) (blob u : string) (w : World) :
  storage_healthy storage_fault →
  blob_service_client env = true →
  record_since env since blob w →
  record_since env since blob (snd (is_in_cooldown env storage_fault u w)).
Proof.
  intros Hhealthy Hclient (written & Hblob & Hsince & Hend & Hlive).
  destruct (is_in_cooldown_total env storage_fault u w)
    as (answer & w' & events & Hrun & _ & _ & _ & Hclock).
  destruct (decide (blob = blob_name u)) as [->|Hother].
  - destruct (is_in_cooldown_within_window env storage_fault u w written
                Hclient (Hhealthy _) (Hhealthy _) Hblob Hend Hlive)
      as (w'' & Hrun' & Hblobs).
    rewrite Hrun' in Hrun. injection Hrun as _ <-. rewrite Hrun'. cbn [snd].
    exists written. rewrite Hblobs, Hclock. auto.
  - pose proof (is_in_cooldown_other_blobs env storage_fault u w blob Hother)
      as Hkept.
    rewrite Hrun in Hkept |- *. cbn [snd] in Hkept |- *.
    exists written. rewrite Hkept, Hclock. auto.
Qed.

Lemma set_cooldown_keeps_record (since : Z) (blob u : string) (w : World) :
  storage_healthy storage_fault →
  blob_service_client env = true →
  0 < cooldown_window env →
  since <= clock w →
  window_representable env (clock w) →
  (record_since env since blob w →
   record_since env since blob (snd (set_cooldown env storage_fault u w)))
  ∧ record_since env since (blob_name u)
      (snd (set_cooldown env storage_fault u w))
  ∧ clock (snd (set_cooldown env storage_fault u w)) = clock w.
Proof.
  intros Hhealthy Hclient Hwindow Hsince Hend.
  rewrite (set_cooldown_writes env storage_fault u w Hclient (Hhealthy _)).
  cbn [snd]. split; [|split; [|reflexivity]].
  - intros (written & Hblob & Hsince' & Hend' & Hlive).
    destruct (decide (blob = blob_name u)) as [->|Hother].
    + exists (clock w). cbn. rewrite lookup_insert_eq.
      split; [reflexivity|]. split; [exact Hsince|]. split; [exact Hend|lia].
    + exists written. cbn. rewrite lookup_insert_ne by congruence. auto.
  - exists (clock w). cbn. rewrite lookup_insert_eq.
    split; [reflexivity|]. split; [exact Hsince|]. split; [exact Hend|lia].
Qed.

Lemma analyze_url_records (since : Z) (u : string) (g : list Log)
    (alerts : list Alert) (w : World) :
  storage_healthy storage_fault →
  blob_service_client env = true →
  0 < cooldown_window env →
  since <= clock w →
  window_representable env (clock w) →
  g ≠ [] →
  ∃ w',
    analyze_url env storage_fault u g alerts w
    = (Returns (alerts ++ emitted env storage_fault u g w), w')
    ∧ clock w' = clock w
    ∧ (∀ blob, record_since env since blob w → record_since env since blob w')
    ∧ (emitted env storage_fault u g w ≠ [] →
       record_since env since (blob_name u) w').
Proof.
  intros Hhealthy Hclient Hwindow Hsince Hend Hnonempty.
  destruct (analyze_url_spec env storage_fault u g alerts w Hnonempty)
    as (w' & events & Hrun & _ & _ & _ & Hclock & _).
  exists w'. split; [exact Hrun|]. split; [exact Hclock|].
  revert Hrun. unfold analyze_url, emitted, in_cooldown.
  destruct (CONSECUTIVE_FAILURES_THRESHOLD env <=? _)%Z; cbn [andb].
  - unfold bind at 1.
    destruct (is_in_cooldown_total env storage_fault u w)
      as (answer & w1 & events1 & Hcheck & _ & _ & _ & Hclock1).
    assert (Hkeep1 : ∀ blob, record_since env since blob w →
                             record_since env since blob w1).
    { intros blob Hrecord.
      pose proof (is_in_cooldown_keeps_record since blob u w Hhealthy Hclient
                    Hrecord) as Hkept.
      rewrite Hcheck in Hkept. exact Hkept. }
    rewrite Hcheck. cbn [fst].
    destruct answer; cbn [negb].
    + intros [= _ <-]. split; [exact Hkeep1|]. intros Habsurd. contradiction.
    + destruct (candidate_nonempty u g Hnonempty)
        as (first & latest & Hhead & Hlast & Hcandidate).
      rewrite Hhead, Hlast. unfold bind at 1.
      assert (Hend1 : window_representable env (clock w1))
        by (rewrite Hclock1; exact Hend).
      destruct (set_cooldown_keeps_record since (blob_name u) u w1
                  Hhealthy Hclient Hwindow ltac:(lia) Hend1)
        as (_ & Hset & _).
      destruct (set_cooldown env storage_fault u w1) as [[[]|e] w2] eqn:Hwrite;
        cbn [snd ret] in Hset |- *; intros [= _ <-].
      split; [|intros _; exact Hset].
      intros blob Hrecord.
      destruct (set_cooldown_keeps_record since blob u w1
                  Hhealthy Hclient Hwindow ltac:(lia) Hend1) as (Hkeep2 & _).
      rewrite Hwrite in Hkeep2. apply Hkeep2, Hkeep1, Hrecord.
  - intros [= _ <-]. split; [auto|]. intros Habsurd. contradiction.
Qed.

Lemma analyze_each_records (since : Z) :
  storage_healthy storage_fault →
  blob_service_client env = true →
  0 < cooldown_window env →
  ∀ (url_logs : list (string * list Log)) (alerts : list Alert) (w : World),
    since <= clock w →
    window_representable env (clock w) →
    Forall (λ group, snd group ≠ []) url_logs →
    ∃ new w',
      analyze_each env storage_fault url_logs alerts w
      = (Returns (alerts ++ new), w')
      ∧ clock w' = clock w
      ∧ (∀ blob, record_since env since blob w →
                 record_since env since blob w')
      ∧ (∀ alert, In alert new →
           record_since env since (blob_name (alert_url alert)) w'
           ∧ ¬ record_since env since (blob_name (alert_url alert)) w).
Proof.
  intros Hhealthy Hclient Hwindow.
  induction url_logs as [|[u g] rest IH];
    intros alerts w Hsince Hend Hnonempty.
  - exists [], w. rewrite app_nil_r. split; [reflexivity|].
    split; [reflexivity|]. split; [auto|]. intros alert [].
  - inversion Hnonempty as [|? ? Hg Hrest]; subst. cbn in Hg.
    cbn [analyze_each]. unfold bind at 1.
    destruct (analyze_url_records since u g alerts w
                Hhealthy Hclient Hwindow Hsince Hend Hg)
      as (w1 & Hrun1 & Hclock1 & Hkeep1 & Hnew1).
    rewrite Hrun1.
    destruct (IH (alerts ++ emitted env storage_fault u g w) w1
                ltac:(lia) ltac:(rewrite Hclock1; exact Hend) Hrest)
      as (new & w' & Hrun & Hclock & Hkeep & Hnew).
    exists (emitted env storage_fault u g w ++ new), w'.
    split; [rewrite Hrun, <- app_assoc; reflexivity|].
    split; [lia|]. split; [auto|].
    intros alert [Hin|Hin]%in_app_or.
    + destruct (emitted_cases u g w Hg)
        as [Hnone | (alert' & Hone & _ & Hurl & _ & Hcool)].
      * rewrite Hnone in Hin. contradiction.
      * rewrite Hone in Hin. destruct Hin as [<-|[]]. rewrite Hurl. split.
        -- apply Hkeep, Hnew1. rewrite Hone. discriminate.
        -- intros Hrecord.
           rewrite (record_since_in_cooldown since u w Hhealthy Hclient Hrecord)
             in Hcool.
           discriminate.
    + destruct (Hnew alert Hin) as [Hafter Hbefore].
      split; [exact Hafter|]. intros Hrecord. apply Hbefore, Hkeep1, Hrecord.
Qed.

(** X19: no url is alerted twice within the cooldown window.  With a store
    configured and answering, and when the windows of both runs end at
    instants a [datetime] can hold, after one run of [analyze_logs] a
    second run, on any logs, started before the window has elapsed returns
    no alert for a url the first run alerted about (nor for a url that
    shares its record). *)
Theorem analyze_logs_twice (logs again : list Log) (w : World) (elapsed : Z) :
  storage_healthy storage_fault →
  blob_service_client env = true →
  0 <= elapsed < cooldown_window env →
  window_representable env (clock w) →
  window_representable env (clock w + elapsed) →
  ∃ first_alerts w1 second_alerts w2,
    analyze_logs env storage_fault logs w = (Returns first_alerts, w1)
    ∧ analyze_logs env storage_fault again (advance elapsed w1)
      = (Returns second_alerts, w2)
    ∧ ∀ a1 a2,
        In a1 first_alerts → In a2 second_alerts →
        blob_name (alert_url a1) ≠ blob_name (alert_url a2)
        ∧ alert_url a1 ≠ alert_url a2.
Proof.
  intros Hhealthy Hclient [Hpos Hwithin] Hend1 Hend2.
  assert (Hwindow : 0 < cooldown_window env) by lia.
  destruct (group_by_url_groups logs) as (_ & Hnonempty1 & _).
  destruct (group_by_url_groups again) as (_ & Hnonempty2 & _).
  destruct (analyze_each_records (clock w) Hhealthy Hclient Hwindow
              (group_by_url logs) [] w ltac:(lia) Hend1 Hnonempty1)
    as (first_alerts & w1 & Hrun1 & Hclock1 & _ & Hnew1).
  destruct (analyze_each_records (clock w) Hhealthy Hclient Hwindow
              (group_by_url again) [] (advance elapsed w1)
              ltac:(cbn; lia)
              ltac:(cbn [clock advance]; rewrite Hclock1; exact Hend2)
              Hnonempty2)
    as (second_alerts & w2 & Hrun2 & _ & _ & Hnew2).
  exists first_alerts, w1, second_alerts, w2.
  split; [exact Hrun1|]. split; [exact Hrun2|].
  intros a1 a2 Hin1 Hin2.
  assert (Hblob : blob_name (alert_url a1) ≠ blob_name (alert_url a2)).
  { intros Hsame.
    destruct (Hnew1 a1 Hin1) as [(written & Hblob & Hsince & Hend & Hlive) _].
    destruct (Hnew2 a2 Hin2) as [_ Hfresh]. apply Hfresh.
    exists written. rewrite <- Hsame. cbn. split; [exact Hblob|].
    split; [exact Hsince|]. split; [exact Hend|]. lia. }
  split; [exact Hblob|]. intros Hsame. apply Hblob. rewrite Hsame. reflexivity.
Qed.
End AnalysisBehaviour.

(** * More on the dispatcher and the invocation *)

Section DispatchBehaviour.
Import AlertFunction.
Variable env : Settings.
Variable storage_fault : nat → option exn.
Variable webhook_answer : nat → post_result.

Lemma sleeps_of_app (a b : list event) :
  sleeps_of (a ++ b) = sleeps_of a ++ sleeps_of b.
Proof. apply flat_map_app. Qed.

Lemma deliveries_S (first count : nat) :
  deliveries webhook_answer first (S count)
  = ((if delivered webhook_answer first then 1 else 0)
     + deliveries webhook_answer (S first) count)%nat.
Proof.
  unfold deliveries. cbn [seq]. rewrite filter_cons.
  destruct (delivered webhook_answer first) eqn:Hfirst;
    destruct (decide _) as [Hyes|Hno]; cbn; congruence.
Qed.

(** One pass of the loop body: always one POST, a pause of one second
    exactly when the POST went through, and an exception only when the
    POST raised one that is no RequestException. *)
Lemma send_one_pace (alert : Alert) (w : World) :
  ∃ r w',
    send_one env webhook_answer alert w = (r, w')
    ∧ posts w' = S (posts w)
    ∧ posts_of (trace w') = posts_of (trace w) ++ [format_alert alert]
    ∧ clock w'
      = clock w + (if delivered webhook_answer (posts w)
                   then micros_per_second else 0)
    ∧ sleeps_of (trace w')
      = sleeps_of (trace w)
        ++ (if delivered webhook_answer (posts w) then [1] else [])
    ∧ match webhook_answer (posts w) with
      | PostRaises e =>
          r = if is_request_exception e then Returns tt else Raises e
      | Response _ => r = Returns tt
      end.
Proof.
  unfold send_one, try_except, bind at 1, requests_post, delivered,
    is_error_status.
  destruct (webhook_answer (posts w)) as [status_code|e] eqn:Hanswer.
  - unfold bind at 1, raise_for_status.
    destruct ((400 <=? status_code) && (status_code <? 600))%Z.
    + eexists _, _. split; [reflexivity|]. cbn.
      rewrite posts_of_app, sleeps_of_app, app_nil_r. cbn.
      rewrite app_nil_r, Z.add_0_r. auto.
    + eexists _, _. split; [reflexivity|]. cbn.
      rewrite !posts_of_app, !sleeps_of_app. cbn.
      rewrite !app_nil_r, Z.mul_1_l. auto.
  - destruct (is_request_exception e) eqn:Hclass.
    + eexists _, _. split; [reflexivity|]. cbn.
      rewrite posts_of_app, sleeps_of_app, app_nil_r. cbn.
      rewrite app_nil_r, Z.add_0_r. auto.
    + eexists _, _. split; [reflexivity|]. cbn.
      rewrite posts_of_app, sleeps_of_app, app_nil_r. cbn.
      rewrite app_nil_r, Z.add_0_r. auto.
Qed.

Lemma send_each_pace :
  ∀ (alerts : list Alert) (w : World),
    ∃ r w' sent,
      send_each env webhook_answer alerts w = (r, w')
      ∧ (sent <= length alerts)%nat
      ∧ posts w' = (posts w + sent)%nat
      ∧ posts_of (trace w')
        = posts_of (trace w) ++ map format_alert (take sent alerts)
      ∧ clock w'
        = clock w
          + Z.of_nat (deliveries webhook_answer (posts w) sent)
            * micros_per_second
      ∧ sleeps_of (trace w')
        = sleeps_of (trace w)
          ++ repeat 1 (deliveries webhook_answer (posts w) sent)
      ∧ (r = Returns tt ∧ sent = length alerts
         ∨ ∃ e n, r = Raises e ∧ sent = S n
                  ∧ webhook_answer (posts w + n)%nat = PostRaises e
                  ∧ is_request_exception e = false).
Proof.
  induction alerts as [|alert rest IH]; intros w.
  - exists (Returns tt), w, 0%nat. cbn. rewrite !app_nil_r, Nat.add_0_r.
    repeat split; auto; lia.
  - cbn [send_each]. unfold bind at 1.
    destruct (send_one_pace alert w)
      as (r & w1 & Hstep & Hposts & Hsent & Hclock & Hsleeps & Hr).
    rewrite Hstep.
    assert (Hcases : r = Returns tt
                     ∨ ∃ e, r = Raises e
                            ∧ webhook_answer (posts w) = PostRaises e
                            ∧ is_request_exception e = false).
    { destruct (webhook_answer (posts w)) as [code|e]; [left; exact Hr|].
      destruct (is_request_exception e) eqn:Hclass; [left; exact Hr|].
      right. exists e. auto. }
    destruct Hcases as [-> | (e & -> & Hanswer & Hclass)].
    + destruct (IH w1)
        as (r' & w' & sent & Hrun & Hle & Hposts' & Hsent' & Hclock' & Hsleeps'
            & Hr').
      exists r', w', (S sent). split; [exact Hrun|].
      split; [cbn; lia|]. split; [lia|].
      rewrite Hposts in Hclock', Hsleeps'.
      split; [rewrite Hsent', Hsent, <- app_assoc; reflexivity|].
      rewrite deliveries_S.
      split.
      { rewrite Hclock', Hclock.
        destruct (delivered webhook_answer (posts w)); lia. }
      split.
      { rewrite Hsleeps', Hsleeps, <- app_assoc.
        destruct (delivered webhook_answer (posts w)); reflexivity. }
      destruct Hr' as [[-> ->] | (e & n & -> & -> & Hanswer & Hclass)].
      * left. auto.
      * right. exists e, (S n). rewrite Hposts in Hanswer.
        replace (posts w + S n)%nat with (S (posts w) + n)%nat by lia. auto.
    + exists (Raises e), w1, 1%nat. split; [reflexivity|].
      split; [cbn; lia|]. split; [lia|].
      split; [exact Hsent|].
      rewrite deliveries_S. unfold deliveries at 1. cbn [seq].
      rewrite filter_nil. cbn [length]. rewrite Nat.add_0_r.
      split; [rewrite Hclock; destruct (delivered _ _); lia|].
      split; [rewrite Hsleeps; destruct (delivered _ _); reflexivity|].
      right. exists e, 0%nat. rewrite Nat.add_0_r. auto.
Qed.

(** X20: the dispatcher pauses one second after each notification that went
    through and never otherwise.  Whatever the webhook answers,
    [send_alerts] posts the notifications of a prefix of the candidates,
    and the time it takes and the pauses it makes are one second for each
    of those POSTs that was answered without an error status; it raises
    only an exception of a POST that is no RequestException. *)
Theorem send_alerts_pacing (alerts : list Alert) (w : World) :
  ∃ r w' sent,
    send_alerts env webhook_answer alerts w = (r, w')
    ∧ (sent <= length alerts)%nat
    ∧ posts w' = (posts w + sent)%nat
    ∧ posts_of (trace w')
      = posts_of (trace w) ++ map format_alert (take sent alerts)
    ∧ clock w'
      = clock w
        + Z.of_nat (deliveries webhook_answer (posts w) sent)
          * micros_per_second
    ∧ sleeps_of (trace w')
      = sleeps_of (trace w)
        ++ repeat 1 (deliveries webhook_answer (posts w) sent)
    ∧ (r = Returns tt
       ∨ ∃ e n, r = Raises e ∧ sent = S n
                ∧ webhook_answer (posts w + n)%nat = PostRaises e
                ∧ is_request_exception e = false).
Proof.
  unfold send_alerts.
  destruct (String.eqb (DISCORD_WEBHOOK_URL env) "").
  - exists (Returns tt), w, 0%nat. cbn. rewrite !app_nil_r, Nat.add_0_r.
    repeat split; auto; lia.
  - destruct (send_each_pace alerts w)
      as (r & w' & sent & Hrun & Hle & Hposts & Hsent & Hclock & Hsleeps & Hr).
    exists r, w', sent. repeat (split; [assumption|]).
    destruct Hr as [[-> _] | Hcrash]; [left; reflexivity|right; exact Hcrash].
Qed.

Lemma send_each_crash :
  ∀ (alerts : list Alert) (i : nat) (w : World) (e : exn),
    (i < length alerts)%nat →
    webhook_answer (posts w + i)%nat = PostRaises e →
    is_request_exception e = false →
    (∀ j e', (j < i)%nat →
             webhook_answer (posts w + j)%nat = PostRaises e' →
             is_request_exception e' = true) →
    ∃ w',
      send_each env webhook_answer alerts w = (Raises e, w')
      ∧ posts w' = (posts w + S i)%nat
      ∧ posts_of (trace w')
        = posts_of (trace w) ++ map format_alert (take (S i) alerts).
Proof.
  induction alerts as [|alert rest IH]; intros i w e Hi Hcrash Hclass Hbefore.
  - cbn in Hi. lia.
  - cbn [send_each]. unfold bind at 1.
    destruct (send_one_pace alert w)
      as (r & w1 & Hstep & Hposts & Hsent & _ & _ & Hr).
    rewrite Hstep. destruct i as [|i].
    + rewrite Nat.add_0_r in Hcrash. rewrite Hcrash, Hclass in Hr. subst r.
      exists w1. split; [reflexivity|]. split; [lia|exact Hsent].
    + assert (Hfine : r = Returns tt).
      { destruct (webhook_answer (posts w)) as [code|e'] eqn:Hanswer;
          [exact Hr|].
        rewrite (Hbefore 0%nat e') in Hr;
          [exact Hr|lia|rewrite Nat.add_0_r; exact Hanswer]. }
      subst r.
      destruct (IH i w1 e) as (w' & Hrun & Hposts' & Hsent').
      * cbn in Hi. lia.
      * rewrite Hposts.
        replace (S (posts w) + i)%nat with (posts w + S i)%nat by lia.
        exact Hcrash.
      * exact Hclass.
      * intros j e' Hj Hanswer. apply (Hbefore (S j) e'); [lia|].
        rewrite Hposts in Hanswer.
        replace (posts w + S j)%nat with (S (posts w) + j)%nat by lia.
        exact Hanswer.
      * exists w'. split; [exact Hrun|]. split; [lia|].
        rewrite Hsent', Hsent, <- app_assoc. reflexivity.
Qed.

(** X21: an exception of a POST that is no RequestException ends the
    dispatch.  With a sink configured, when the POST for the candidate
    number [i] raises such an exception and none before it did,
    [send_alerts] raises it after exactly [i + 1] POSTs: the candidates
    after it get no notification. *)
Theorem send_alerts_stops_at_crash (alerts : list Alert) (i : nat)
    (w : World) (e : exn) :
  DISCORD_WEBHOOK_URL env ≠ "" →
  (i < length alerts)%nat →
  webhook_answer (posts w + i)%nat = PostRaises e →
  is_request_exception e = false →
  (∀ j e', (j < i)%nat →
           webhook_answer (posts w + j)%nat = PostRaises e' →
           is_request_exception e' = true) →
  ∃ w',
    send_alerts env webhook_answer alerts w = (Raises e, w')
    ∧ posts w' = (posts w + S i)%nat
    ∧ posts_of (trace w')
      = posts_of (trace w) ++ map format_alert (take (S i) alerts).
Proof.
  intros Hsink Hi Hcrash Hclass Hbefore. unfold send_alerts.
  destruct (String.eqb_spec (DISCORD_WEBHOOK_URL env) "") as [Hnone|_];
    [contradiction|].
  apply send_each_crash; assumption.
Qed.

(** X22: an invocation never raises, and one that got no logs does nothing.
    Whatever the backend, the store and the webhook answer, [main] returns;
    when the GET of the logs raises, is answered with an error status, or
    its body fails to decode or holds no record, the store is not called
    and nothing is posted. *)
Theorem timer_main_contained (answer : backend_answer) (w : World) :
  ∃ w',
    timer_main env storage_fault webhook_answer answer w = (Returns tt, w')
    ∧ (match answer with
       | BackendRaises _ => True
       | BackendResponse status_code body =>
           is_error_status status_code = true
           ∨ body = Returns []
           ∨ ∃ e, body = Raises e
       end → w' = w).
Proof.
  unfold timer_main.
  assert (Hmain : ∀ logs,
            ∃ w', main env storage_fault webhook_answer logs w
                  = (Returns tt, w') ∧ (logs = [] → w' = w)).
  { intros logs. unfold main, try_except, any_exception.
    destruct logs as [|log logs].
    - exists w. split; [reflexivity|]. reflexivity.
    - match goal with
      | |- context [match ?body w with _ => _ end] =>
          destruct (body w) as [[[]|e] w']
      end; exists w'; (split; [reflexivity|discriminate]). }
  assert (Hfailed : ∀ e,
            ∃ w', match fetch_failed e with
                  | Returns logs =>
                      main env storage_fault webhook_answer logs
                  | Raises _ => ret tt
                  end w = (Returns tt, w') ∧ w' = w).
  { intros e. unfold fetch_failed. destruct (is_request_exception e).
    - exists w. split; reflexivity.
    - exists w. split; reflexivity. }
  destruct answer as [status_code body|e]; cbn [fetch_recent_logs].
  - destruct (is_error_status status_code).
    + destruct (Hfailed (Exn RequestException
                           ("HTTPError " +:+ pretty status_code)))
        as (w' & Hrun & ->).
      exists w. split; [exact Hrun|reflexivity].
    + destruct body as [logs|e].
      * destruct (Hmain logs) as (w' & Hrun & Hnone).
        exists w'. split; [exact Hrun|].
        intros [Habsurd | [[= ->] | [e [=]]]];
          [discriminate|apply Hnone; reflexivity].
      * destruct (Hfailed e) as (w' & Hrun & ->).
        exists w. split; [exact Hrun|reflexivity].
  - destruct (Hfailed e) as (w' & Hrun & ->).
    exists w. split; [exact Hrun|reflexivity].
Qed.
End DispatchBehaviour.

(** * More on the names of the cooldown records *)

Section RecordNames.
Import AlertFunction.

Lemma replace_removes_slash (s : string) :
  is_substring "/" (replace "/" "_" s) = false.
Proof.
  unfold replace. induction s as [|c rest IH]; [reflexivity|].
  cbn [replace_from String.prefix].
  destruct (ascii_dec "/" c) as [<-|Hother].
  - destruct rest; cbn [String.prefix String.length Nat.sub];
      cbn [String.app is_substring String.prefix];
      destruct (ascii_dec "/" "_"); try discriminate; exact IH.
  - cbn [is_substring String.prefix].
    destruct (ascii_dec "/" c); [contradiction|]. exact IH.
Qed.

Lemma prefix_app (s t : string) : String.prefix s (s +:+ t) = true.
Proof.
  induction s as [|c s IH].
  - destruct t; reflexivity.
  - change (String c s +:+ t) with (String c (s +:+ t)).
    cbn [String.prefix]. destruct (ascii_dec c c); [exact IH|contradiction].
Qed.

Lemma no_slash_app (s t : string) :
  is_substring "/" s = false →
  is_substring "/" t = false →
  is_substring "/" (s +:+ t) = false.
Proof.
  intros Hs Ht. induction s as [|c s IH].
  - exact Ht.
  - change (String c s +:+ t) with (String c (s +:+ t)).
    cbn [is_substring String.prefix] in Hs |- *.
    destruct (ascii_dec "/" c).
    + destruct s; discriminate Hs.
    + apply IH. exact Hs.
Qed.

(** X23: the name of a cooldown record starts with [cooldown_] and holds
    no slash, whatever the url. *)
Theorem blob_name_flat (url : string) :
  String.prefix "cooldown_" (blob_name url) = true
  ∧ is_substring "/" (blob_name url) = false.
Proof.
  unfold blob_name. split; [apply prefix_app|].
  apply no_slash_app; [reflexivity|apply replace_removes_slash].
Qed.
End RecordNames.

(** * Properties of the dashboard *)

Section DashboardProperties.
Import Dashboard.

Lemma first_seen_snoc (l : list string) (x : string) :
  first_seen (l ++ [x])
  = first_seen l ++ (if existsb (String.eqb x) l then [] else [x]).
Proof.
  induction l as [|a l IH]; [reflexivity|].
  cbn [app first_seen existsb]. rewrite IH, List.filter_app. f_equal.
  f_equal.
  destruct (String.eqb_spec x a) as [->|Hother]; cbn [orb].
  - destruct (existsb (String.eqb a) l); cbn; [reflexivity|].
    rewrite String.eqb_refl. reflexivity.
  - destruct (existsb (String.eqb x) l); cbn; [reflexivity|].
    destruct (String.eqb_spec x a); [contradiction|]. reflexivity.
Qed.

Lemma first_seen_In (l : list string) (x : string) :
  In x (first_seen l) ↔ In x l.
Proof.
  induction l as [|a l IH]; [reflexivity|].
  cbn [first_seen In]. rewrite List.filter_In, IH.
  destruct (String.eqb_spec x a) as [->|Hother]; cbn; intuition congruence.
Qed.

Lemma first_seen_NoDup (l : list string) : List.NoDup (first_seen l).
Proof.
  induction l as [|a l IH]; [constructor|].
  cbn [first_seen]. constructor.
  - rewrite List.filter_In, String.eqb_refl. cbn. intuition discriminate.
  - apply List.NoDup_filter, IH.
Qed.

Lemma contains_map (h : string → Series) (keys : list string) (x : string) :
  contains x (map (λ u, (u, h u)) keys) = existsb (String.eqb x) keys.
Proof.
  unfold contains. induction keys as [|k keys IH]; [reflexivity|].
  cbn. rewrite IH, (String.eqb_sym k x). reflexivity.
Qed.

Lemma update_app_absent (x : string) (f : Series → Series)
    (before after : list (string * Series)) :
  contains x before = false →
  update x f (before ++ after) = before ++ update x f after.
Proof.
  unfold contains. induction before as [|[k series] before IH]; intros Habsent;
    [reflexivity|].
  cbn in Habsent |- *. apply orb_false_elim in Habsent as [Hk Hrest].
  rewrite Hk, IH by exact Hrest. reflexivity.
Qed.

Lemma update_map (h : string → Series) (f : Series → Series)
    (keys : list string) (x : string) :
  List.NoDup keys →
  update x f (map (λ u, (u, h u)) keys)
  = map (λ u, (u, if String.eqb u x then f (h u) else h u)) keys.
Proof.
  induction 1 as [|k keys Hfresh Hnodup IH]; [reflexivity|].
  cbn [map update]. destruct (String.eqb_spec k x) as [->|Hother].
  - f_equal. apply map_ext_in. intros u Hu.
    destruct (String.eqb_spec u x) as [->|_]; [contradiction|reflexivity].
  - f_equal. exact IH.
Qed.

Lemma points_of_snoc (u : string) (logs : list Log) (log : Log) :
  points_of u (logs ++ [log])
  = points_of u logs ++ (if String.eqb (url log) u then [log] else []).
Proof. unfold points_of. rewrite List.filter_app. reflexivity. Qed.

Lemma points_of_unseen (u : string) (logs : list Log) :
  existsb (String.eqb u) (map url logs) = false → points_of u logs = [].
Proof.
  unfold points_of. induction logs as [|log logs IH]; [reflexivity|].
  cbn. intros [Hlog Hrest]%orb_false_elim.
  rewrite (String.eqb_sym (url log) u), Hlog. exact (IH Hrest).
Qed.

Lemma points_of_seen (u : string) (logs : list Log) :
  existsb (String.eqb u) (map url logs) = true → points_of u logs ≠ [].
Proof.
  unfold points_of. induction logs as [|log logs IH]; [discriminate|].
  cbn. rewrite (String.eqb_sym (url log) u).
  destruct (String.eqb u (url log)); [discriminate|exact IH].
Qed.

Lemma series_of_snoc_other (u : string) (logs : list Log) (log : Log) :
  u ≠ url log → series_of u (logs ++ [log]) = series_of u logs.
Proof.
  intros Hother. unfold series_of. rewrite points_of_snoc.
  destruct (String.eqb_spec (url log) u); [congruence|].
  rewrite app_nil_r. reflexivity.
Qed.

Lemma series_of_snoc_seen (logs : list Log) (log : Log) :
  points_of (url log) logs ≠ [] →
  series_of (url log) (logs ++ [log])
  = append_point log (series_of (url log) logs).
Proof.
  intros Hseen. unfold series_of, append_point. cbn.
  rewrite points_of_snoc, String.eqb_refl, !map_app.
  destruct (points_of (url log) logs); [contradiction|reflexivity].
Qed.

Lemma series_of_snoc_unseen (logs : list Log) (log : Log) :
  points_of (url log) logs = [] →
  series_of (url log) (logs ++ [log]) = append_point log (new_series log).
Proof.
  intros Hunseen. unfold series_of, append_point.
  rewrite points_of_snoc, String.eqb_refl, Hunseen. reflexivity.
Qed.

Lemma fold_add_log (logs : list Log) :
  fold_left add_log logs []
  = map (λ u, (u, series_of u logs)) (first_seen (map url logs)).
Proof.
  induction logs as [|log logs IH] using rev_ind; [reflexivity|].
  rewrite fold_left_app, map_app. cbn [fold_left map].
  rewrite first_seen_snoc, IH. unfold add_log. rewrite contains_map.
  assert (Hseen : existsb (String.eqb (url log)) (first_seen (map url logs))
                  = existsb (String.eqb (url log)) (map url logs)).
  { apply eq_true_iff_eq. rewrite !existsb_exists.
    split; intros (u & Hin & Heq); exists u; (split; [|exact Heq]);
      apply first_seen_In; exact Hin. }
  rewrite Hseen.
  destruct (existsb (String.eqb (url log)) (map url logs)) eqn:Hurl.
  - rewrite app_nil_r, update_map by apply first_seen_NoDup.
    apply map_ext_in. intros u _. f_equal.
    destruct (String.eqb_spec u (url log)) as [->|Hother].
    + symmetry. apply series_of_snoc_seen, points_of_seen, Hurl.
    + symmetry. apply series_of_snoc_other, Hother.
  - rewrite update_app_absent by (rewrite contains_map; exact Hseen).
    rewrite map_app. f_equal.
    + apply map_ext_in. intros u Hin. f_equal. symmetry.
      apply series_of_snoc_other. intros ->.
      rewrite first_seen_In in Hin.
      assert (Habsurd : existsb (String.eqb (url log)) (map url logs) = true).
      { apply existsb_exists. exists (url log).
        split; [exact Hin|apply String.eqb_refl]. }
      congruence.
    + cbn. rewrite String.eqb_refl. f_equal. f_equal. symmetry.
      apply series_of_snoc_unseen, points_of_unseen, Hurl.
Qed.

(** X24: [process_logs] splits the log by url.  The urls come out once
    each, in the order in which they first occur in the log; the entry of
    a url carries the name of the first record of that url and, in three
    columns, the timestamps, response times and statuses of all its
    records in the order of the log. *)
Theorem process_logs_series (logs : list Log) :
  urls (process_logs logs) = first_seen (map url logs)
  ∧ data (process_logs logs)
    = map (λ u, (u, series_of u logs)) (urls (process_logs logs))
  ∧ List.NoDup (urls (process_logs logs))
  ∧ ∀ u, In u (urls (process_logs logs)) ↔ ∃ log, In log logs ∧ url log = u.
Proof.
  assert (Hurls : urls (process_logs logs) = first_seen (map url logs)).
  { unfold process_logs. cbn [urls]. rewrite fold_add_log, map_map. cbn.
    apply map_id. }
  split; [exact Hurls|]. rewrite Hurls.
  split; [apply fold_add_log|]. split; [apply first_seen_NoDup|].
  intros u. rewrite first_seen_In, in_map_iff.
  split; intros (log & H1 & H2); exists log; auto.
Qed.

Lemma points_app (before after : list (string * Series)) :
  points (before ++ after) = (points before + points after)%nat.
Proof. unfold points. rewrite map_app, list_sum_app. reflexivity. Qed.

Lemma points_update (log : Log) (url_data : list (string * Series)) :
  contains (url log) url_data = true →
  points (update (url log) (append_point log) url_data) = S (points url_data).
Proof.
  unfold contains, points.
  induction url_data as [|[k series] rest IH]; [discriminate|].
  cbn [existsb fst update]. destruct (String.eqb k (url log)); cbn [orb].
  - intros _. cbn. rewrite length_app. cbn. lia.
  - intros Hrest. specialize (IH Hrest). unfold list_sum in *.
    cbn [map fold_right snd]. rewrite IH. lia.
Qed.

Lemma points_add_log (url_data : list (string * Series)) (log : Log) :
  points (add_log url_data log) = S (points url_data).
Proof.
  unfold add_log. destruct (contains (url log) url_data) eqn:Hseen.
  - apply points_update, Hseen.
  - rewrite update_app_absent by exact Hseen. rewrite points_app.
    cbn. rewrite String.eqb_refl. cbn. lia.
Qed.

Lemma points_fold :
  ∀ (logs : list Log) (url_data : list (string * Series)),
    points (fold_left add_log logs url_data)
    = (points url_data + length logs)%nat.
Proof.
  induction logs as [|log logs IH]; intros url_data; cbn [fold_left length].
  - lia.
  - rewrite IH, points_add_log. lia.
Qed.

(** X25: [process_logs] neither drops nor repeats a record.  The series
    it returns hold as many points as the log has records, and in every
    series the three columns have the same length. *)
Theorem process_logs_keeps_every_record (logs : list Log) :
  points (data (process_logs logs)) = length logs
  ∧ ∀ u series,
      In (u, series) (data (process_logs logs)) →
      length (timestamps series) = length (points_of u logs)
      ∧ length (response_times series) = length (points_of u logs)
      ∧ length (statuses series) = length (points_of u logs)
      ∧ (0 < length (points_of u logs))%nat.
Proof.
  split.
  - unfold process_logs. cbn [data]. rewrite points_fold. reflexivity.
  - intros u series Hin. unfold process_logs in Hin. cbn [data] in Hin.
    rewrite fold_add_log in Hin.
    apply in_map_iff in Hin as (u' & [= -> <-] & Hseen).
    cbn. rewrite !length_map. repeat split.
    rewrite first_seen_In in Hseen.
    assert (Hpoints : points_of u logs ≠ []).
    { apply points_of_seen, existsb_exists. exists u.
      split; [exact Hseen|apply String.eqb_refl]. }
    destruct (points_of u logs); [contradiction|cbn; lia].
Qed.
End DashboardProperties.

(** * More on fetching the logs *)

Section FetchBehaviour.
Import AlertFunction.

(** X26: [fetch_recent_logs] absorbs every RequestException and makes up no
    record.  It never raises a RequestException, and it returns records
    only when the backend answered without an error status and the body
    decoded to exactly those records. *)
Theorem fetch_recent_logs_absorbs (answer : backend_answer) :
  (∀ e, fetch_recent_logs answer = Raises e → is_request_exception e = false)
  ∧ (∀ logs,
       fetch_recent_logs answer = Returns logs →
       logs ≠ [] →
       ∃ status_code,
         answer = BackendResponse status_code (Returns logs)
         ∧ is_error_status status_code = false).
Proof.
  assert (Hfailed : ∀ e,
            (∀ e', fetch_failed e = Raises e' → is_request_exception e' = false)
            ∧ (∀ logs, fetch_failed e = Returns logs → logs = [])).
  { intros e. unfold fetch_failed.
    destruct (is_request_exception e) eqn:Hclass; split.
    - discriminate.
    - intros logs [= <-]. reflexivity.
    - intros e' [= <-]. exact Hclass.
    - discriminate. }
  destruct answer as [status_code body|e]; cbn [fetch_recent_logs].
  - destruct (is_error_status status_code) eqn:Hstatus.
    + destruct (Hfailed (Exn RequestException
                           ("HTTPError " +:+ pretty status_code)))
        as [Hraises Hreturns].
      split; [exact Hraises|].
      intros logs Hrun Hsome. apply Hreturns in Hrun. contradiction.
    + destruct body as [logs'|e].
      * split; [discriminate|].
        intros logs [= <-] _. exists status_code. auto.
      * destruct (Hfailed e) as [Hraises Hreturns].
        split; [exact Hraises|].
        intros logs Hrun Hsome. apply Hreturns in Hrun. contradiction.
  - destruct (Hfailed e) as [Hraises Hreturns].
    split; [exact Hraises|].
    intros logs Hrun Hsome. apply Hreturns in Hrun. contradiction.
Qed.
End FetchBehaviour.

(** * Instances of the properties of the cooldown, analysis and dispatch *)

Lemma is_in_cooldown_sound_witness :
  ∃ w',
    AlertFunction.is_in_cooldown AlertFunction.sample_settings
      AlertFunction.no_fault "https://example.com/"
      AlertFunction.recently_alerted = (Returns true, w')
    ∧ AlertFunction.live_record AlertFunction.sample_settings
        (AlertFunction.blob_name "https://example.com/")
        AlertFunction.recently_alerted
    ∧ AlertFunction.blobs w'
      = AlertFunction.blobs AlertFunction.recently_alerted
    ∧ AlertFunction.clock w'
      = AlertFunction.clock AlertFunction.recently_alerted.
Proof.
  destruct (AlertFunction.is_in_cooldown AlertFunction.sample_settings
              AlertFunction.no_fault "https://example.com/"
              AlertFunction.recently_alerted) as [r w'] eqn:Hrun.
  assert (Hr : fst (AlertFunction.is_in_cooldown AlertFunction.sample_settings
                      AlertFunction.no_fault "https://example.com/"
                      AlertFunction.recently_alerted) = Returns true)
    by (vm_compute; reflexivity).
  rewrite Hrun in Hr. cbn [fst] in Hr. subst r.
  destruct (is_in_cooldown_sound AlertFunction.sample_settings
              AlertFunction.no_fault "https://example.com/"
              AlertFunction.recently_alerted w' (Returns true) Hrun)
    as (_ & Htrue & _ & Hclock).
  destruct (Htrue eq_refl) as [Hlive Hblobs].
  exists w'. split; [reflexivity|]. split; [exact Hlive|].
  split; [exact Hblobs|exact Hclock].
Defined.

Lemma analyze_logs_storage_down_witness :
  AlertFunction.storage_down AlertFunction.always_fault
  ∧ In "https://example.com/"
      (map AlertFunction.url AlertFunction.three_failures)
  ∧ ∃ alerts w' alert,
      AlertFunction.analyze_logs AlertFunction.sample_settings
        AlertFunction.always_fault AlertFunction.three_failures
        AlertFunction.recently_alerted = (Returns alerts, w')
      ∧ AlertFunction.blobs w'
        = AlertFunction.blobs AlertFunction.recently_alerted
      ∧ AlertFunction.alerts_about "https://example.com/" alerts = [alert]
      ∧ AlertFunction.consecutive_failures alert = 3.
Proof.
  assert (Hdown : AlertFunction.storage_down AlertFunction.always_fault)
    by (intros n; eexists; reflexivity).
  assert (Hoccurs : In "https://example.com/"
                      (map AlertFunction.url AlertFunction.three_failures))
    by (left; reflexivity).
  split; [exact Hdown|]. split; [exact Hoccurs|].
  destruct (analyze_logs_storage_down AlertFunction.sample_settings
              AlertFunction.always_fault AlertFunction.three_failures
              AlertFunction.recently_alerted "https://example.com/"
              Hdown Hoccurs)
    as (alerts & w' & Hrun & Hblobs & Hreached & _).
  destruct Hreached as (alert & Habout & Hcount).
  { vm_compute. congruence. }
  exists alerts, w', alert. split; [exact Hrun|]. split; [exact Hblobs|].
  split; [exact Habout|exact Hcount].
Defined.

Lemma analyze_logs_last_status_down_witness :
  1 <= AlertFunction.CONSECUTIVE_FAILURES_THRESHOLD
         AlertFunction.sample_settings
  ∧ ∃ alerts w',
      AlertFunction.analyze_logs AlertFunction.sample_settings
        AlertFunction.no_fault AlertFunction.two_endpoints_down
        AlertFunction.empty_world = (Returns alerts, w')
      ∧ Forall (λ alert,
                  AlertFunction.last_status alert = "DOWN"
                  ∧ 1 <= AlertFunction.consecutive_failures alert) alerts.
Proof.
  assert (Hthreshold : 1 <= AlertFunction.CONSECUTIVE_FAILURES_THRESHOLD
                              AlertFunction.sample_settings)
    by (vm_compute; congruence).
  split; [exact Hthreshold|].
  exact (analyze_logs_last_status_down AlertFunction.sample_settings
           AlertFunction.no_fault AlertFunction.two_endpoints_down
           AlertFunction.empty_world Hthreshold).
Defined.


Lemma analyze_logs_twice_witness :
  0 <= 10 * AlertFunction.micros_per_minute
    < AlertFunction.cooldown_window AlertFunction.sample_settings
  ∧ AlertFunction.window_representable AlertFunction.sample_settings
      (AlertFunction.clock AlertFunction.empty_world
       + 10 * AlertFunction.micros_per_minute)
  ∧ ∃ first_alerts w1 second_alerts w2,
      AlertFunction.analyze_logs AlertFunction.sample_settings
        AlertFunction.no_fault AlertFunction.three_failures
        AlertFunction.empty_world = (Returns first_alerts, w1)
      ∧ AlertFunction.analyze_logs AlertFunction.sample_settings
          AlertFunction.no_fault AlertFunction.three_failures
          (AlertFunction.advance (10 * AlertFunction.micros_per_minute) w1)
        = (Returns second_alerts, w2)
      ∧ ∀ a1 a2,
          In a1 first_alerts → In a2 second_alerts →
          AlertFunction.alert_url a1 ≠ AlertFunction.alert_url a2.
Proof.
  assert (Hwithin : 0 <= 10 * AlertFunction.micros_per_minute
                    < AlertFunction.cooldown_window
                        AlertFunction.sample_settings)
    by (split; vm_compute; congruence).
  split; [exact Hwithin|]. split; [reflexivity|].
  destruct (analyze_logs_twice AlertFunction.sample_settings
              AlertFunction.no_fault AlertFunction.three_failures
              AlertFunction.three_failures AlertFunction.empty_world
              (10 * AlertFunction.micros_per_minute))
    as (first_alerts & w1 & second_alerts & w2 & Hrun1 & Hrun2 & Hapart).
  { intros n. reflexivity. }
  { reflexivity. }
  { exact Hwithin. }
  { reflexivity. }
  { reflexivity. }
  exists first_alerts, w1, second_alerts, w2.
  split; [exact Hrun1|]. split; [exact Hrun2|].
  intros a1 a2 Hin1 Hin2. apply (Hapart a1 a2 Hin1 Hin2).
Defined.

Lemma send_alerts_stops_at_crash_witness :
  ∃ w',
    AlertFunction.send_alerts AlertFunction.sample_settings
      AlertFunction.second_post_breaks AlertFunction.three_alerts
      AlertFunction.empty_world
    = (Raises (Exn OtherException "boom"), w')
    ∧ AlertFunction.posts w' = 2%nat
    ∧ AlertFunction.posts_of (AlertFunction.trace w')
      = map AlertFunction.format_alert AlertFunction.sample_alerts.
Proof.
  destruct (send_alerts_stops_at_crash AlertFunction.sample_settings
              AlertFunction.second_post_breaks AlertFunction.three_alerts
              1%nat AlertFunction.empty_world (Exn OtherException "boom"))
    as (w' & Hrun & Hposts & Hsent).
  { discriminate. }
  { cbn. lia. }
  { reflexivity. }
  { reflexivity. }
  { intros j e' Hj. assert (j = 0%nat) as -> by lia. discriminate. }
  exists w'. split; [exact Hrun|]. split; [exact Hposts|exact Hsent].
Defined.
